(** * PostgreSQL/S3 storage of the CodePush server: a shallow embedding

    The development follows [api/script/storage/postgresql-s3-storage.ts]
    and the table definitions that ship with it.  Every method of
    [PostgreSQLS3Storage] that the properties below talk about is written
    as a function in a small state-and-failure monad over the relational
    store; the statements issued against the connection pool are recorded,
    so that "this call never reached the store" is a statement about the
    record of issued statements.

    Modelling conventions.
    - A table is the list of its rows in insertion order; [rows[0]] of a
      [SELECT] is the head of the filtered list.
    - The JSONB column [apps.collaborators] is a finite map from e-mail to
      collaborator properties.  A JavaScript object agrees with a finite
      map on every key that is not the name of a member of
      [Object.prototype]; e-mail addresses are taken not to be such names.
    - Strings are byte strings and [toLowerCase] acts on the ASCII letters.
    - [uuidv4()] and [new Date().getTime()] are inputs of the calls that
      use them.
    - Uniqueness constraints of the schema that a modelled [INSERT] can
      violate are checked; [NOT NULL] and foreign-key checks are not (each
      modelled insert follows a read of the parent row), but
      [ON DELETE CASCADE] is applied by [DELETE FROM apps]. *)

From Stdlib Require Import ZArith List String Ascii Bool Lia.
From stdpp Require Import base option list gmap strings pretty.

Open Scope string_scope.

(** ** Failures and promise outcomes *)

(** The codes of [storage.ErrorCode] that this file raises. *)
Inductive ErrorCode : Type :=
| NotFound
| AlreadyExists
| Expired
| Invalid.

#[global] Instance ErrorCode_eq_dec : EqDecision ErrorCode.
Proof. solve_decision. Defined.

(** What a promise can be rejected with.  [StorageError] is the value built
    by [storage.storageError(code, message)]; the others carry no [code]. *)
Inductive Failure : Type :=
| StorageError (code : ErrorCode) (message : option string)
| TypeError
| PlainError (message : string)
| UniqueViolation (table : string).

(** A failure is classified when it belongs to the storage taxonomy. *)
Definition classified (e : Failure) : bool :=
  match e with
  | StorageError _ _ => true
  | _ => false
  end.

Definition codeOf (e : Failure) : option ErrorCode :=
  match e with
  | StorageError c _ => Some c
  | _ => None
  end.

(** State of the deferred of a call once its [async] block has run:
    resolved, rejected, or left unsettled because an exception escaped a
    block that has no [try]/[catch]. *)
Inductive Outcome (A : Type) : Type :=
| Resolved (a : A)
| Rejected (e : Failure)
| Unsettled (e : Failure).

Arguments Resolved {A} a.
Arguments Rejected {A} e.
Arguments Unsettled {A} e.

(** ** Rows *)

Inductive Permission : Type :=
| Owner
| Collaborator.

#[global] Instance Permission_eq_dec : EqDecision Permission.
Proof. solve_decision. Defined.

(** [storage.CollaboratorProperties]; [isCurrentAccount] is an optional
    property, [None] when the object does not have it. *)
Module CollaboratorProperties.
Record t : Type := mkCollaborator {
  accountId : string;
  permission : Permission;
  isCurrentAccount : option bool;
}.
End CollaboratorProperties.
Import CollaboratorProperties.
Abbreviation CollaboratorProperties := CollaboratorProperties.t.

Module Account.
Record row : Type := mk {
  id : string;
  name : string;
  email : string;
  gitHubId : string;
}.
End Account.

Module App.
Record row : Type := mk {
  id : string;
  name : string;
  collaborators : gmap string CollaboratorProperties;
}.
End App.

Module Deployment.
Record row : Type := mk {
  id : string;
  name : string;
  appId : string;
  key : string;
}.
End Deployment.

Module Package.
(** [storage.Package] as a caller hands it to [commitPackage]. *)
Record t : Type := mk {
  description : option string;
  isDisabled : option bool;
  isMandatory : option bool;
  rollout : option Z;
  appVersion : string;
  packageHash : string;
  blobUrl : string;
  size : Z;
  manifestBlobUrl : string;
  releaseMethod : option string;
  uploadTime : Z;
  label : option string;
  originalLabel : option string;
  originalDeployment : option string;
}.
End Package.

Module PackageRow.
(** A row of the [packages] table. *)
Record row : Type := mk {
  id : string;
  deploymentId : string;
  description : option string;
  isDisabled : bool;
  isMandatory : bool;
  rollout : option Z;
  appVersion : string;
  packageHash : string;
  blobUrl : string;
  size : Z;
  manifestBlobUrl : string;
  releaseMethod : option string;
  uploadTime : Z;
  label : option string;
  originalLabel : option string;
  originalDeployment : option string;
}.
End PackageRow.

Module AccessKeyRow.
Record row : Type := mk {
  id : string;
  name : string;
  expires : option Z;
}.
End AccessKeyRow.

Module KeyLink.
(** A row of [access_key_to_account_map]; [expires] is nullable. *)
Record row : Type := mk {
  accessKeyId : string;
  accountId : string;
  expires : option Z;
}.
End KeyLink.

Module AppLink.
(** A row of [account_to_apps_map]. *)
Record row : Type := mk {
  accountId : string;
  appId : string;
}.

#[global] Instance row_eq_dec : EqDecision row.
Proof. solve_decision. Defined.
End AppLink.

(** ** The relational store *)

Record Database : Type := mkDatabase {
  accounts : list Account.row;
  apps : list App.row;
  deployments : list Deployment.row;
  packages : list PackageRow.row;
  access_keys : list AccessKeyRow.row;
  access_key_to_account_map : list KeyLink.row;
  account_to_apps_map : list AppLink.row;
}.

Definition setAccounts (db : Database) (rows : list Account.row) : Database :=
  mkDatabase rows (apps db) (deployments db) (packages db)
    (access_keys db) (access_key_to_account_map db) (account_to_apps_map db).

Definition setApps (db : Database) (rows : list App.row) : Database :=
  mkDatabase (accounts db) rows (deployments db) (packages db)
    (access_keys db) (access_key_to_account_map db) (account_to_apps_map db).

Definition setPackages (db : Database) (rows : list PackageRow.row) : Database :=
  mkDatabase (accounts db) (apps db) (deployments db) rows
    (access_keys db) (access_key_to_account_map db) (account_to_apps_map db).

Definition setAppLinks (db : Database) (rows : list AppLink.row) : Database :=
  mkDatabase (accounts db) (apps db) (deployments db) (packages db)
    (access_keys db) (access_key_to_account_map db) rows.

(** The statements of the file, one constructor per query text. *)
Inductive Statement : Type :=
| SelectAccountById
| SelectAccountByEmail
| InsertAccount
| SelectAccessKeyByName
| InsertApp
| InsertAppLink
| DeleteAppLink
| SelectAppById
| SelectAppLinkByApp
| DeleteApp
| UpdateApp
| SelectDeploymentByKey
| SelectDeploymentById
| ClearLatestRollout
| CountPackages
| InsertPackage
| UpdatePackage.

(** The connection pool: the store behind it and the statements sent
    through it so far, most recent first. *)
Record Pool : Type := mkPool {
  database : Database;
  issued : list Statement;
}.

(** ** The monad of [async] bodies *)

Definition M (A : Type) : Type := Pool -> Outcome A * Pool.

Definition resolve {A} (a : A) : M A := fun p => (Resolved a, p).

Definition reject {A} (e : Failure) : M A := fun p => (Rejected e, p).

(** [await]: a rejected promise throws into the enclosing [catch], which
    rejects the caller's deferred with the same value. *)
Definition bind {A B} (c : M A) (k : A -> M B) : M B :=
  fun p =>
    match c p with
    | (Resolved a, p') => k a p'
    | (Rejected e, p') => (Rejected e, p')
    | (Unsettled e, p') => (Unsettled e, p')
    end.

Declare Scope async_scope.
Delimit Scope async_scope with async.
Notation "'let*' x ':=' c 'in' k" := (bind c (fun x => k))
  (at level 10, x name, c at level 100, k at level 200) : async_scope.
Notation "c ';;' k" := (bind c (fun _ => k))
  (at level 100, k at level 200, right associativity) : async_scope.

(** [await this.postgreSqlPool.query(text, values)] for a statement that
    the store answers with [run]. *)
Definition query {A} (s : Statement) (run : Database -> Failure + A * Database) : M A :=
  fun p =>
    let p' := mkPool (database p) (s :: issued p) in
    match run (database p) with
    | inl e => (Rejected e, p')
    | inr (a, db) => (Resolved a, mkPool db (s :: issued p))
    end.

Definition select {A} (s : Statement) (read : Database -> A) : M A :=
  query s (fun db => inr (read db, db)).

Definition execute (s : Statement) (write : Database -> Database) : M unit :=
  query s (fun db => inr (tt, write db)).

(** ** Strings *)

Definition lowerAscii (c : ascii) : ascii :=
  let n := nat_of_ascii c in
  if (65 <=? n)%nat && (n <=? 90)%nat then ascii_of_nat (n + 32) else c.

(** [String.prototype.toLowerCase] on ASCII text. *)
Fixpoint toLowerCase (s : string) : string :=
  match s with
  | EmptyString => EmptyString
  | String c rest => String (lowerAscii c) (toLowerCase rest)
  end.

(** Modelled from the spec: [isPrototypePollutionKey] is imported from
    [./storage], which is not part of the sources at hand; the operations
    "reject unsafe/prototype-polluting key strings", taken here to be the
    three property names through which a prototype is reached. *)
Definition isPrototypePollutionKey (key : string) : bool :=
  bool_decide (key ∈ ["__proto__"; "constructor"; "prototype"]).

(** JavaScript truthiness of a string and of an optional boolean. *)
Definition truthyString (s : string) : bool := negb (bool_decide (s = "")).

Definition truthyFlag (b : option bool) : bool := default false b.

Open Scope async_scope.

(** ** Accounts *)

Definition getAccount (accountId : string) : M Account.row :=
  let* rows := select SelectAccountById
                 (fun db => filter (fun a => Account.id a = accountId) (accounts db)) in
  match head rows with
  | None => reject (StorageError NotFound None)
  | Some account => resolve account
  end.

Definition getAccountByEmail (email : string) : M Account.row :=
  let* rows := select SelectAccountByEmail
                 (fun db => filter (fun a => Account.email a = email) (accounts db)) in
  match head rows with
  | None => reject (StorageError NotFound None)
  | Some account => resolve account
  end.

(** [try { await c } catch (e) { ... }]: the rejection of [c] becomes a
    value of the body. *)
Definition attempt {A} (c : M A) : M (Failure + A) :=
  fun p =>
    match c p with
    | (Resolved a, p') => (Resolved (inr a), p')
    | (Rejected e, p') => (Resolved (inl e), p')
    | (Unsettled e, p') => (Unsettled e, p')
    end.

Definition insertAccount (row : Account.row) (db : Database) : Failure + string * Database :=
  if bool_decide (Account.id row ∈ Account.id <$> accounts db)
     || bool_decide (Account.email row ∈ Account.email <$> accounts db)
  then inl (UniqueViolation "accounts")
  else inr (Account.id row, setAccounts db (accounts db ++ [row])).

(** [newId] is the value of [uuidv4()]. *)
Definition addAccount (newId : string) (account : Account.row) : M string :=
  let email := toLowerCase (Account.email account) in
  let* found := attempt (getAccountByEmail email) in
  match found with
  | inr isExist => reject (StorageError AlreadyExists None)
  | inl e =>
      if bool_decide (codeOf e = Some NotFound)
      then query InsertAccount
             (insertAccount (Account.mk newId (Account.name account) email
                               (Account.gitHubId account)))
      else reject e
  end.

(** ** Access keys *)

(** The join of [access_keys] with [access_key_to_account_map] on the key
    id, restricted to one key name. *)
Definition joinAccessKey (db : Database) (accessKey : string) : list KeyLink.row :=
  a ← filter (fun a => AccessKeyRow.name a = accessKey) (access_keys db);
  filter (fun b => KeyLink.accessKeyId b = AccessKeyRow.id a) (access_key_to_account_map db).

(** [now >= data.expires]; a NULL timestamp converts to 0. *)
Definition reached (now : Z) (expires : option Z) : bool :=
  (default 0 expires <=? now)%Z.

(** [now] is the value of [new Date().getTime()]. *)
Definition getAccountIdFromAccessKey (now : Z) (accessKey : string) : M string :=
  let* rows := select SelectAccessKeyByName (fun db => joinAccessKey db accessKey) in
  match head rows with
  | None => reject (StorageError NotFound None)
  | Some data =>
      if reached now (KeyLink.expires data)
      then reject (StorageError Expired (Some "The access key has expired."))
      else resolve (KeyLink.accountId data)
  end.

(** ** Collaborator maps *)

Definition isOwner (list : gmap string CollaboratorProperties) (email : string) : bool :=
  match list !! email with
  | Some c => bool_decide (permission c = Owner)
  | None => false
  end.

Definition isCollaborator (list : gmap string CollaboratorProperties) (email : string) : bool :=
  match list !! email with
  | Some c => bool_decide (permission c = Collaborator)
  | None => false
  end.

Definition setPermission (p : Permission) (c : CollaboratorProperties) : CollaboratorProperties :=
  mkCollaborator (accountId c) p (isCurrentAccount c).

Definition markCurrent (current : string) (c : CollaboratorProperties) : CollaboratorProperties :=
  if bool_decide (accountId c = current)
  then mkCollaborator (accountId c) (permission c) (Some true)
  else c.

Definition unmarkCurrent (c : CollaboratorProperties) : CollaboratorProperties :=
  if truthyFlag (isCurrentAccount c)
  then mkCollaborator (accountId c) (permission c) None
  else c.

Definition addIsCurrentAccountProperty (app : App.row) (current : string) : App.row :=
  App.mk (App.id app) (App.name app) (markCurrent current <$> App.collaborators app).

Definition removeIsCurrentAccountProperty (app : App.row) : App.row :=
  App.mk (App.id app) (App.name app) (unmarkCurrent <$> App.collaborators app).

(** ** Apps *)

Definition insertApp (row : App.row) (db : Database) : Failure + unit * Database :=
  if bool_decide (App.id row ∈ App.id <$> apps db)
  then inl (UniqueViolation "apps")
  else inr (tt, setApps db (apps db ++ [row])).

Definition insertAppLink (row : AppLink.row) (db : Database) : Failure + unit * Database :=
  if bool_decide (row ∈ account_to_apps_map db)
  then inl (UniqueViolation "account_to_apps_map")
  else inr (tt, setAppLinks db (account_to_apps_map db ++ [row])).

Definition addAppPointer (accountId appId : string) : M unit :=
  query InsertAppLink (insertAppLink (AppLink.mk accountId appId)).

Definition removeAppPointer (accountId appId : string) : M unit :=
  execute DeleteAppLink
    (fun db => setAppLinks db
       (filter (fun l => l ≠ AppLink.mk accountId appId) (account_to_apps_map db))).

(** A promise that is started and not awaited: its statement reaches the
    store, its rejection reaches nobody.  The statement is taken to be
    served before the ones that follow it; the only detached statement
    writes a table that the following ones do not read. *)
Definition detached (c : M unit) : M unit :=
  fun p => (Resolved tt, snd (c p)).

(** [newId] is the value of [uuidv4()]. *)
Definition addApp (newId : string) (accountId : string) (app : App.row) : M App.row :=
  let* account := getAccount accountId in
  let collaborators : gmap string CollaboratorProperties :=
    {[ Account.email account := mkCollaborator accountId Owner None ]} in
  query InsertApp (insertApp (App.mk newId (App.name app) collaborators)) ;;
  addAppPointer (Account.id account) newId ;;
  resolve (App.mk newId (App.name app) collaborators).

Definition getApp (accountId appId : string) : M App.row :=
  let* account := getAccount accountId in
  let* rows := select SelectAppById
                 (fun db => filter (fun a => App.id a = appId) (apps db)) in
  match head rows with
  | None => reject (StorageError NotFound None)
  | Some app => resolve (addIsCurrentAccountProperty app (Account.id account))
  end.

Definition getAppAccountId (appId : string) : M string :=
  let* rows := select SelectAppLinkByApp
                 (fun db => filter (fun l => AppLink.appId l = appId) (account_to_apps_map db)) in
  match head rows with
  | None => reject TypeError
  | Some data => resolve (AppLink.accountId data)
  end.

(** [DELETE FROM apps WHERE id=$1] with the cascades of the schema:
    the app's deployments, their packages, and its visibility links. *)
Definition deleteApp (appId : string) (db : Database) : Database :=
  let gone := Deployment.id <$> filter (fun d => Deployment.appId d = appId) (deployments db) in
  mkDatabase
    (accounts db)
    (filter (fun a => App.id a ≠ appId) (apps db))
    (filter (fun d => Deployment.appId d ≠ appId) (deployments db))
    (filter (fun r => PackageRow.deploymentId r ∉ gone) (packages db))
    (access_keys db)
    (access_key_to_account_map db)
    (filter (fun l => AppLink.appId l ≠ appId) (account_to_apps_map db)).

Definition removeApp (accountId appId : string) : M unit :=
  let* appAccountId := getAppAccountId appId in
  if bool_decide (accountId ≠ appAccountId)
  then reject (PlainError "Wrong accountId")
  else execute DeleteApp (deleteApp appId) ;; resolve tt.

Definition writeApp (app : App.row) (db : Database) : Database :=
  setApps db
    ((fun a => if bool_decide (App.id a = App.id app)
               then App.mk (App.id a) (App.name app) (App.collaborators app)
               else a) <$> apps db).

(** [ensureIsOwner] is accepted and never read. *)
Definition updateApp (accountId : string) (app : App.row) (ensureIsOwner : bool) : M unit :=
  getApp accountId (App.id app) ;;
  let app := removeIsCurrentAccountProperty app in
  execute UpdateApp (writeApp app) ;;
  resolve tt.

Definition withCollaborators (app : App.row) (m : gmap string CollaboratorProperties) : App.row :=
  App.mk (App.id app) (App.name app) m.

Definition transferApp (accountId appId email : string) : M unit :=
  if isPrototypePollutionKey email
  then reject (StorageError Invalid (Some "Invalid email parameter"))
  else
    let* app := getApp accountId appId in
    let* account := getAccount accountId in
    let requesterEmail := Account.email account in
    let* targetOwnerAccount := getAccountByEmail (toLowerCase email) in
    let targetOwnerAccountId := Account.id targetOwnerAccount in
    let email := Account.email targetOwnerAccount in
    if isOwner (App.collaborators app) email
    then reject (StorageError AlreadyExists None)
    else
      match App.collaborators app !! requesterEmail with
      | None => reject TypeError
      | Some requester =>
          let demoted :=
            <[ requesterEmail := setPermission Collaborator requester ]> (App.collaborators app) in
          if isCollaborator demoted email
          then
            updateApp accountId
              (withCollaborators app (alter (setPermission Owner) email demoted)) true
          else
            detached (addAppPointer targetOwnerAccountId (App.id app)) ;;
            updateApp accountId
              (withCollaborators app
                 (<[ email := mkCollaborator targetOwnerAccountId Owner None ]> demoted)) true
      end.

Definition addCollaborator (accountId appId email : string) : M unit :=
  if isPrototypePollutionKey email
  then reject (StorageError Invalid (Some "Invalid email parameter"))
  else
    let* app := getApp accountId appId in
    if isCollaborator (App.collaborators app) email || isOwner (App.collaborators app) email
    then reject (StorageError AlreadyExists None)
    else
      let* targetCollaboratorAccount := getAccountByEmail (toLowerCase email) in
      let targetCollaboratorAccountId := Account.id targetCollaboratorAccount in
      let email := Account.email targetCollaboratorAccount in
      let app :=
        withCollaborators app
          (<[ email := mkCollaborator targetCollaboratorAccountId Collaborator None ]>
             (App.collaborators app)) in
      addAppPointer targetCollaboratorAccountId (App.id app) ;;
      updateApp accountId app true.

Definition removeCollaborator (accountId appId email : string) : M unit :=
  let* app := getApp accountId appId in
  if isOwner (App.collaborators app) email
  then reject (StorageError NotFound
                 (Some "Cannot remove the owner of the app from collaborator list."))
  else
    let* targetCollaboratorAccount := getAccountByEmail (toLowerCase email) in
    let targetCollaboratorAccountId := Account.id targetCollaboratorAccount in
    if negb (isCollaborator (App.collaborators app) email)
       || negb (truthyString targetCollaboratorAccountId)
    then reject (StorageError NotFound None)
    else
      removeAppPointer targetCollaboratorAccountId appId ;;
      updateApp accountId
        (withCollaborators app (delete email (App.collaborators app))) false.

(** ** Deployments *)

Definition getDeployment (accountId appId deploymentId : string) : M Deployment.row :=
  getApp accountId appId ;;
  let* rows := select SelectDeploymentById
                 (fun db => filter (fun d => Deployment.id d = deploymentId) (deployments db)) in
  match head rows with
  | None => reject (StorageError NotFound None)
  | Some deployment => resolve deployment
  end.

Record DeploymentInfo : Type := mkDeploymentInfo {
  info_appId : string;
  info_deploymentId : string;
}.

(** [deployment.package]: a row of [deployments] has the columns [id],
    [name], [appId], [createdTime] and [key]; the property [package] is
    [undefined] on every row. *)
Definition Deployment_package (deployment : Deployment.row) : option Deployment.row := None.

(** An exception thrown in an [async] block that has no [try]/[catch]:
    the deferred of the call is neither resolved nor rejected. *)
Definition escape {A} (e : Failure) : M A := fun p => (Unsettled e, p).

Definition getDeploymentInfo (deploymentKey : string) : M DeploymentInfo :=
  let* rows := select SelectDeploymentByKey
                 (fun db => filter (fun d => Deployment.key d = deploymentKey) (deployments db)) in
  match head rows with
  | None => reject (StorageError NotFound None)
  | Some deployment =>
      match Deployment_package deployment with
      | None => escape TypeError
      | Some package =>
          let appId := Deployment.appId package in
          if negb (truthyString appId)
          then reject (StorageError NotFound None)
          else resolve (mkDeploymentInfo appId (Deployment.id deployment))
      end
  end.

(** ** Packages *)

Definition packagesOf (deploymentId : string) (db : Database) : list PackageRow.row :=
  filter (fun r => PackageRow.deploymentId r = deploymentId) (packages db).

(** [ORDER BY "uploadTime" DESC LIMIT 1]: a row of greatest upload time,
    the earliest such row of the table when several share it. *)
Fixpoint latest (rows : list PackageRow.row) : option PackageRow.row :=
  match rows with
  | [] => None
  | r :: rest =>
      match latest rest with
      | Some r' =>
          if (PackageRow.uploadTime r <? PackageRow.uploadTime r')%Z then Some r' else Some r
      | None => Some r
      end
  end.

Definition setRollout (v : option Z) (r : PackageRow.row) : PackageRow.row :=
  PackageRow.mk (PackageRow.id r) (PackageRow.deploymentId r) (PackageRow.description r)
    (PackageRow.isDisabled r) (PackageRow.isMandatory r) v (PackageRow.appVersion r)
    (PackageRow.packageHash r) (PackageRow.blobUrl r) (PackageRow.size r)
    (PackageRow.manifestBlobUrl r) (PackageRow.releaseMethod r) (PackageRow.uploadTime r)
    (PackageRow.label r) (PackageRow.originalLabel r) (PackageRow.originalDeployment r).

(** [UPDATE packages SET rollout=NULL WHERE id=(SELECT id ... LIMIT 1)]. *)
Definition clearLatestRollout (deploymentId : string) (db : Database) : Database :=
  match latest (packagesOf deploymentId db) with
  | None => db
  | Some top =>
      setPackages db
        ((fun r => if bool_decide (PackageRow.id r = PackageRow.id top)
                   then setRollout None r else r) <$> packages db)
  end.

Definition insertPackage (row : PackageRow.row) (db : Database) : Failure + unit * Database :=
  if bool_decide (PackageRow.id row ∈ PackageRow.id <$> packages db)
  then inl (UniqueViolation "packages")
  else inr (tt, setPackages db (packages db ++ [row])).

(** ["v" + (Number(count) + 1)] *)
Definition labelFor (count : nat) : string := "v" +:+ pretty (count + 1)%nat.

Definition withLabel (l : string) (pkg : Package.t) : Package.t :=
  Package.mk (Package.description pkg) (Package.isDisabled pkg) (Package.isMandatory pkg)
    (Package.rollout pkg) (Package.appVersion pkg) (Package.packageHash pkg)
    (Package.blobUrl pkg) (Package.size pkg) (Package.manifestBlobUrl pkg)
    (Package.releaseMethod pkg) (Package.uploadTime pkg) (Some l)
    (Package.originalLabel pkg) (Package.originalDeployment pkg).

Definition toRow (newId deploymentId : string) (pkg : Package.t) : PackageRow.row :=
  PackageRow.mk newId deploymentId (Package.description pkg)
    (truthyFlag (Package.isDisabled pkg)) (truthyFlag (Package.isMandatory pkg))
    (Package.rollout pkg) (Package.appVersion pkg) (Package.packageHash pkg)
    (Package.blobUrl pkg) (Package.size pkg) (Package.manifestBlobUrl pkg)
    (Package.releaseMethod pkg) (Package.uploadTime pkg) (Package.label pkg)
    (Package.originalLabel pkg) (Package.originalDeployment pkg).

(** [newId] is the value of [uuidv4()]. *)
Definition commitPackage (newId : string) (accountId appId deploymentId : string)
    (appPackage : Package.t) : M Package.t :=
  getDeployment accountId appId deploymentId ;;
  execute ClearLatestRollout (clearLatestRollout deploymentId) ;;
  let* count := select CountPackages (fun db => length (packagesOf deploymentId db)) in
  let appPackage := withLabel (labelFor count) appPackage in
  query InsertPackage (insertPackage (toRow newId deploymentId appPackage)) ;;
  resolve appPackage.

(** The twelve columns that [updatePackageHistory] overwrites. *)
Definition overwrite (h r : PackageRow.row) : PackageRow.row :=
  PackageRow.mk (PackageRow.id r) (PackageRow.deploymentId r) (PackageRow.description h)
    (PackageRow.isDisabled h) (PackageRow.isMandatory h) (PackageRow.rollout h)
    (PackageRow.appVersion h) (PackageRow.packageHash h) (PackageRow.blobUrl h)
    (PackageRow.size h) (PackageRow.manifestBlobUrl h) (PackageRow.releaseMethod h)
    (PackageRow.uploadTime h) (PackageRow.label h)
    (PackageRow.originalLabel r) (PackageRow.originalDeployment r).

Definition updatePackage (h : PackageRow.row) (db : Database) : Database :=
  setPackages db
    ((fun r => if bool_decide (PackageRow.id r = PackageRow.id h) then overwrite h r else r)
       <$> packages db).

Fixpoint updateEach (history : list PackageRow.row) : M unit :=
  match history with
  | [] => resolve tt
  | h :: rest => execute UpdatePackage (updatePackage h) ;; updateEach rest
  end.

Definition updatePackageHistory (accountId appId deploymentId : string)
    (history : list PackageRow.row) : M unit :=
  match history with
  | [] =>
      reject (StorageError Invalid
                (Some "Cannot clear package history from an update operation"))
  | _ :: _ =>
      getDeployment accountId appId deploymentId ;;
      updateEach history ;;
      resolve tt
  end.

(** ** Running a call *)

Definition outcome {A} (c : M A) (p : Pool) : Outcome A := fst (c p).
Definition after {A} (c : M A) (p : Pool) : Pool := snd (c p).
Definition stored {A} (c : M A) (p : Pool) : Database := database (snd (c p)).

Definition resolved {A} (o : Outcome A) : bool :=
  match o with
  | Resolved _ => true
  | _ => false
  end.

(** ** Vocabulary of the statements *)

Definition accountById (db : Database) (accountId : string) : option Account.row :=
  head (filter (fun a => Account.id a = accountId) (accounts db)).

Definition accountByEmail (db : Database) (email : string) : option Account.row :=
  head (filter (fun a => Account.email a = email) (accounts db)).

Definition appById (db : Database) (appId : string) : option App.row :=
  head (filter (fun a => App.id a = appId) (apps db)).

(** The account the visibility links record first for an app. *)
Definition recordedAccount (db : Database) (appId : string) : option string :=
  AppLink.accountId <$> head (filter (fun l => AppLink.appId l = appId) (account_to_apps_map db)).

(** What a read followed by a write does to an entry on behalf of the
    account [current]. *)
Definition roundTrip (current : string) (c : CollaboratorProperties) : CollaboratorProperties :=
  unmarkCurrent (markCurrent current c).

(** The storage code a call was rejected with, if any. *)
Definition rejectionCode {A} (o : Outcome A) : option ErrorCode :=
  match o with
  | Rejected e => codeOf e
  | _ => None
  end.

(** Every call only adds to the record of issued statements. *)
Definition issuesAtLeast {A} (n : nat) (c : M A) : Prop :=
  forall p, n + length (issued p) <= length (issued (after c p)).

(** The store after an [INSERT INTO account_to_apps_map] whose result
    nobody waits for. *)
Definition linked (accountId appId : string) (db : Database) : Database :=
  match insertAppLink (AppLink.mk accountId appId) db with
  | inl _ => db
  | inr (_, db') => db'
  end.

(** Number of entries of a collaborator map whose permission is [Owner]. *)
Definition ownerCount (m : gmap string CollaboratorProperties) : nat :=
  size (filter (fun kc => permission kc.2 = Owner) m).

Definition ownerWeight (c : CollaboratorProperties) : nat :=
  if decide (permission c = Owner) then 1 else 0.

(** The account whose e-mail is the requester of a transfer holds [Owner]
    in the app. *)
Definition requesterIsOwner (db : Database) (accountId appId : string) : bool :=
  match accountById db accountId, appById db appId with
  | Some account, Some app => isOwner (App.collaborators app) (Account.email account)
  | _, _ => false
  end.

(** The four operations on the collaborators of apps, and the
    registration of accounts. *)
Inductive Operation : Type :=
| AddAccount (newId : string) (account : Account.row)
| AddApp (newId accountId : string) (app : App.row)
| TransferApp (accountId appId email : string)
| AddCollaborator (accountId appId email : string)
| RemoveCollaborator (accountId appId email : string).

Definition perform (op : Operation) : M unit :=
  match op with
  | AddAccount newId account => addAccount newId account ;; resolve tt
  | AddApp newId accountId app => addApp newId accountId app ;; resolve tt
  | TransferApp accountId appId email => transferApp accountId appId email
  | AddCollaborator accountId appId email => addCollaborator accountId appId email
  | RemoveCollaborator accountId appId email => removeCollaborator accountId appId email
  end.

(** The pool after a sequence of operations, each of which resolves. *)
Fixpoint performAll (ops : list Operation) (p : Pool) : option Pool :=
  match ops with
  | [] => Some p
  | op :: rest =>
      match perform op p with
      | (Resolved _, p') => performAll rest p'
      | _ => None
      end
  end.

(** A transfer is issued by the owner of the app. *)
Definition byOwner (op : Operation) (p : Pool) : bool :=
  match op with
  | TransferApp accountId appId _ => requesterIsOwner (database p) accountId appId
  | _ => true
  end.

(** The same, where in addition every transfer is issued by the owner. *)
Fixpoint performAllByOwner (ops : list Operation) (p : Pool) : option Pool :=
  match ops with
  | [] => Some p
  | op :: rest =>
      if byOwner op p
      then match perform op p with
           | (Resolved _, p') => performAllByOwner rest p'
           | _ => None
           end
      else None
  end.

(** The accounts table as the schema and [addAccount] keep it: unique
    ids, unique e-mails, e-mails in lower case. *)
Definition accountsWellFormed (db : Database) : Prop :=
  NoDup (Account.id <$> accounts db) /\
  NoDup (Account.email <$> accounts db) /\
  forall a, a ∈ accounts db -> toLowerCase (Account.email a) = Account.email a.

(** An app row agrees with the rest of the store: one owner, every entry
    keyed by the e-mail of the account it names, and a visibility link
    for every entry. *)
Definition appConsistent (db : Database) (app : App.row) : Prop :=
  ownerCount (App.collaborators app) = 1 /\
  forall e c, App.collaborators app !! e = Some c ->
    (exists a, accountByEmail db e = Some a /\ Account.id a = accountId c) /\
    AppLink.mk (accountId c) (App.id app) ∈ account_to_apps_map db.

Definition Consistent (db : Database) : Prop :=
  accountsWellFormed db /\ forall app, app ∈ apps db -> appConsistent db app.

(** No stored entry carries the [isCurrentAccount] property. *)
Definition unannotated (db : Database) : Prop :=
  forall app e c, app ∈ apps db -> App.collaborators app !! e = Some c ->
                  isCurrentAccount c = None.

(** The arguments of one [commitPackage] call on a given deployment. *)
Module Commit.
Record t : Type := mk {
  newId : string;
  accountId : string;
  appId : string;
  package : Package.t;
}.
End Commit.

(** The pool after a sequence of commits to one deployment, each of which
    resolves. *)
Fixpoint commitAll (deploymentId : string) (cs : list Commit.t) (p : Pool) : option Pool :=
  match cs with
  | [] => Some p
  | c :: rest =>
      match commitPackage (Commit.newId c) (Commit.accountId c) (Commit.appId c)
              deploymentId (Commit.package c) p with
      | (Resolved _, p') => commitAll deploymentId rest p'
      | _ => None
      end
  end.

Definition labelsOf (deploymentId : string) (db : Database) : list (option string) :=
  PackageRow.label <$> packagesOf deploymentId db.

(** The labels "v1", ..., "vN", starting after [count] packages. *)
Definition labelsFrom (count N : nat) : list (option string) :=
  (fun i => Some (labelFor i)) <$> seq count N.

Definition staged (r : PackageRow.row) : Prop := PackageRow.rollout r <> None.

#[global] Instance staged_dec r : Decision (staged r).
Proof. unfold staged. apply _. Defined.

(** Number of packages of the deployment whose rollout is not NULL. *)
Definition rolloutCount (deploymentId : string) (db : Database) : nat :=
  length (filter staged (packagesOf deploymentId db)).

(** Upload times that grow strictly, the first one above [lo]. *)
Fixpoint increasingFrom (lo : option Z) (ts : list Z) : bool :=
  match ts with
  | [] => true
  | t :: rest => from_option (fun x => (x <? t)%Z) true lo && increasingFrom (Some t) rest
  end.

Definition uploadTimes (cs : list Commit.t) : list Z :=
  (fun c => Package.uploadTime (Commit.package c)) <$> cs.

(** Every row but the last is older than the last and has no rollout. *)
Definition superseded (rows : list PackageRow.row) : Prop :=
  forall (init : list PackageRow.row) (l : PackageRow.row),
    rows = (init ++ [l])%list ->
    Forall (fun r => (PackageRow.uploadTime r < PackageRow.uploadTime l)%Z /\
                     PackageRow.rollout r = None) init.

(** Upload time of the row that was inserted last. *)
Definition lastTime (rows : list PackageRow.row) : option Z :=
  PackageRow.uploadTime <$> last rows.

(** What [clearLatestRollout] does to one row. *)
Definition clearIf (top : option PackageRow.row) (r : PackageRow.row) : PackageRow.row :=
  match top with
  | Some t => if bool_decide (PackageRow.id r = PackageRow.id t) then setRollout None r else r
  | None => r
  end.

(** ** A small store for the scenarios *)

Definition alice : Account.row := Account.mk "id-a" "A" "a@x.com" "gh-a".
Definition bob : Account.row := Account.mk "id-b" "B" "b@x.com" "gh-b".
Definition carol : Account.row := Account.mk "id-c" "C" "c@x.com" "gh-c".

Definition emptyStore : Pool := mkPool (mkDatabase [] [] [] [] [] [] []) [].

(** A, B and C register; their e-mails are stored in lower case. *)
Definition registrations : list Operation :=
  [ AddAccount "id-a" (Account.mk "" "A" "A@x.com" "gh-a");
    AddAccount "id-b" (Account.mk "" "B" "b@X.com" "gh-b");
    AddAccount "id-c" (Account.mk "" "C" "c@x.com" "gh-c") ].

Definition blankApp : App.row := App.mk "" "demo" ∅.

(** The scenario of the specification: A creates an app, adds B, and
    hands the app over to B. *)
Definition ownerTransfers : list Operation :=
  registrations ++
  [ AddApp "app-1" "id-a" blankApp;
    AddCollaborator "id-a" "app-1" "b@x.com";
    TransferApp "id-a" "app-1" "b@x.com" ].

(** A creates an app and adds B; then B, a collaborator, transfers the
    app to C. *)
Definition collaboratorTransfers : list Operation :=
  registrations ++
  [ AddApp "app-1" "id-a" blankApp;
    AddCollaborator "id-a" "app-1" "b@x.com";
    TransferApp "id-b" "app-1" "c@x.com" ].

Definition ownerCounts (p : Pool) : list nat :=
  (fun app => ownerCount (App.collaborators app)) <$> apps (database p).

(** A store with one app, owned by A and shared with B, one deployment
    and one access key of A. *)
Definition sharedCollaborators : gmap string CollaboratorProperties :=
  {[ "a@x.com" := mkCollaborator "id-a" Owner None;
     "b@x.com" := mkCollaborator "id-b" Collaborator None ]}.

Definition sharedApp : App.row := App.mk "app-1" "demo" sharedCollaborators.

Definition production : Deployment.row := Deployment.mk "dep-1" "Production" "app-1" "key-1".

Definition sharedStore : Pool :=
  mkPool
    (mkDatabase [alice; bob; carol] [sharedApp] [production] []
       [AccessKeyRow.mk "ak-1" "token-1" (Some 2000%Z)]
       [KeyLink.mk "ak-1" "id-a" (Some 2000%Z)]
       [AppLink.mk "id-a" "app-1"; AppLink.mk "id-b" "app-1"])
    [].

(** The app as a caller may hand it to [updateApp]: the owner's entry
    carries [isCurrentAccount: false]. *)
Definition flaggedApp : App.row :=
  App.mk "app-1" "demo"
    {[ "a@x.com" := mkCollaborator "id-a" Owner (Some false);
       "b@x.com" := mkCollaborator "id-b" Collaborator (Some true) ]}.

(** The [isCurrentAccount] property of the entry stored under an e-mail,
    for each app row. *)
Definition storedFlags (email : string) (db : Database) : list (option (option bool)) :=
  (fun app => isCurrentAccount <$> App.collaborators app !! email) <$> apps db.

Definition release (rollout : option Z) (uploadTime : Z) : Package.t :=
  Package.mk None None None rollout "1.0.0" "hash" "blob" 1 "manifest" None uploadTime
    None None None.

(** Three commits whose upload times do not grow: 100, 50, 200. *)
Definition unorderedCommits : list Commit.t :=
  [ Commit.mk "pkg-1" "id-a" "app-1" (release (Some 50%Z) 100);
    Commit.mk "pkg-2" "id-a" "app-1" (release (Some 30%Z) 50);
    Commit.mk "pkg-3" "id-a" "app-1" (release (Some 10%Z) 200) ].

(** The scenario of the specification: a staged release, then a full
    one, uploaded later. *)
Definition orderedCommits : list Commit.t :=
  [ Commit.mk "pkg-1" "id-a" "app-1" (release (Some 50%Z) 100);
    Commit.mk "pkg-2" "id-a" "app-1" (release None 200) ].

(** * The other methods of the storage *)

(** The methods below send statements that the methods above do not, and
    they send commands to the object store.  Their state is the storage
    object: the pool, the record of what was sent, and the parts of the
    relational store that [Database] does not carry - the [blobs] table,
    which no other table references, and the columns of [access_keys]
    that [AccessKeyRow.row] leaves out, kept by key id. *)

Module AccessKeyDetails.
Record row : Type := mk {
  id : string;
  createdBy : string;
  description : option string;
  friendlyName : string;
  isSession : bool;
}.
End AccessKeyDetails.

Module AccessKey.
(** [storage.AccessKey] as a caller hands it over. *)
Record t : Type := mk {
  id : string;
  name : string;
  description : option string;
  expires : Z;
  friendlyName : string;
  isSession : option bool;
}.
End AccessKey.

Module StoredAccessKey.
(** A row of [SELECT a.*, b."accountId"] for one access key. *)
Record t : Type := mk {
  key : AccessKeyRow.row;
  details : option AccessKeyDetails.row;
  accountId : string;
}.
End StoredAccessKey.

Module Blob.
Record row : Type := mk {
  key : string;
  url : string;
}.
End Blob.

(** The statements and object-store commands of the methods below. *)
Inductive Command : Type :=
| UpdateAccount
| SelectAppsByAccount
| InsertDeployment
| SelectPackagesByDeploymentKey
| SelectDeploymentsByApp
| DeleteDeployment
| UpdateDeployment
| DeletePackages
| SelectPackages
| PutObject (key : string)
| InsertBlob
| SelectBlob
| DeleteObject (key : string)
| DeleteBlob
| InsertAccessKey
| InsertAccessKeyLink
| SelectAccessKeyById
| SelectAccessKeysByAccount
| DeleteAccessKey
| UpdateAccessKey.

Record Storage : Type := mkStorage {
  postgreSqlPool : Pool;
  access_key_details : list AccessKeyDetails.row;
  blobs : list Blob.row;
  commands : list Command;
}.

Definition theDatabase (st : Storage) : Database := database (postgreSqlPool st).

Definition setPool (st : Storage) (p : Pool) : Storage :=
  mkStorage p (access_key_details st) (blobs st) (commands st).

Definition setDatabase (st : Storage) (db : Database) : Storage :=
  setPool st (mkPool db (issued (postgreSqlPool st))).

Definition setKeyDetails (st : Storage) (rows : list AccessKeyDetails.row) : Storage :=
  mkStorage (postgreSqlPool st) rows (blobs st) (commands st).

Definition setBlobs (st : Storage) (rows : list Blob.row) : Storage :=
  mkStorage (postgreSqlPool st) (access_key_details st) rows (commands st).

Definition noted (cmd : Command) (st : Storage) : Storage :=
  mkStorage (postgreSqlPool st) (access_key_details st) (blobs st) (cmd :: commands st).

Definition setDeployments (db : Database) (rows : list Deployment.row) : Database :=
  mkDatabase (accounts db) (apps db) rows (packages db)
    (access_keys db) (access_key_to_account_map db) (account_to_apps_map db).

Definition setAccessKeys (db : Database) (rows : list AccessKeyRow.row) : Database :=
  mkDatabase (accounts db) (apps db) (deployments db) (packages db)
    rows (access_key_to_account_map db) (account_to_apps_map db).

Definition setKeyLinks (db : Database) (rows : list KeyLink.row) : Database :=
  mkDatabase (accounts db) (apps db) (deployments db) (packages db)
    (access_keys db) rows (account_to_apps_map db).

(** ** The monad over the storage object *)

Definition Action (A : Type) : Type := Storage -> Outcome A * Storage.

Definition resolveS {A} (a : A) : Action A := fun st => (Resolved a, st).

Definition rejectS {A} (e : Failure) : Action A := fun st => (Rejected e, st).

Definition bindS {A B} (c : Action A) (k : A -> Action B) : Action B :=
  fun st =>
    match c st with
    | (Resolved a, st') => k a st'
    | (Rejected e, st') => (Rejected e, st')
    | (Unsettled e, st') => (Unsettled e, st')
    end.

(** A method modelled above, called on the pool of the storage. *)
Definition liftS {A} (c : M A) : Action A :=
  fun st => (fst (c (postgreSqlPool st)), setPool st (snd (c (postgreSqlPool st)))).

Declare Scope storage_scope.
Delimit Scope storage_scope with storage.
Notation "'let*' x ':=' c 'in' k" := (bindS c (fun x => k))
  (at level 10, x name, c at level 100, k at level 200) : storage_scope.
Notation "c ';;' k" := (bindS c (fun _ => k))
  (at level 100, k at level 200, right associativity) : storage_scope.

(** A statement or an object-store command that is answered with [run]. *)
Definition command {A} (cmd : Command) (run : Storage -> Failure + A * Storage) : Action A :=
  fun st =>
    match run st with
    | inl e => (Rejected e, noted cmd st)
    | inr (a, st') => (Resolved a, noted cmd st')
    end.

(** A statement on the tables of [Database]. *)
Definition sql {A} (cmd : Command) (run : Database -> Failure + A * Database) : Action A :=
  command cmd
    (fun st =>
       match run (theDatabase st) with
       | inl e => inl e
       | inr (a, db) => inr (a, setDatabase st db)
       end).

Definition sqlSelect {A} (cmd : Command) (read : Database -> A) : Action A :=
  sql cmd (fun db => inr (read db, db)).

Definition sqlExecute (cmd : Command) (write : Database -> Database) : Action unit :=
  sql cmd (fun db => inr (tt, write db)).

(** ** Collaborators, read *)

Definition getCollaborators (accountId appId : string)
    : M (gmap string CollaboratorProperties) :=
  let* app := getApp accountId appId in
  resolve (App.collaborators app).

Definition isAccountIdCollaborator (list : gmap string CollaboratorProperties)
    (accountId : string) : bool :=
  existsb (fun kc => bool_decide (CollaboratorProperties.accountId kc.2 = accountId))
    (map_to_list list).

Open Scope storage_scope.

(** ** Accounts *)



(** ** Apps *)

(** The join of [account_to_apps_map] with [apps] for one account. *)
Definition joinApps (db : Database) (accountId : string) : list App.row :=
  a ← filter (fun a => AppLink.accountId a = accountId) (account_to_apps_map db);
  filter (fun b => App.id b = AppLink.appId a) (apps db).

Definition getApps (accountId : string) : Action (list App.row) :=
  let* apps := sqlSelect SelectAppsByAccount (fun db => joinApps db accountId) in
  resolveS ((fun app => addIsCurrentAccountProperty app accountId) <$> apps).

(** ** Deployments *)

Definition insertDeployment (row : Deployment.row) (db : Database)
    : Failure + string * Database :=
  if bool_decide (Deployment.id row ∈ Deployment.id <$> deployments db)
     || bool_decide (Deployment.key row ∈ Deployment.key <$> deployments db)
  then inl (UniqueViolation "deployments")
  else inr (Deployment.id row, setDeployments db (deployments db ++ [row])).

(** [newId] is the value of [uuidv4()]. *)
Definition addDeployment (newId : string) (accountId appId : string)
    (deployment : Deployment.row) : Action string :=
  liftS (getApp accountId appId) ;;
  sql InsertDeployment
    (insertDeployment
       (Deployment.mk newId (Deployment.name deployment) appId (Deployment.key deployment))).

(** The join of [deployments] with [packages] for one deployment key. *)
Definition joinPackages (db : Database) (deploymentKey : string) : list PackageRow.row :=
  a ← filter (fun a => Deployment.key a = deploymentKey) (deployments db);
  filter (fun b => PackageRow.deploymentId b = Deployment.id a) (packages db).

Definition getPackageHistoryFromDeploymentKey (deploymentKey : string)
    : Action (list PackageRow.row) :=
  let* packages := sqlSelect SelectPackagesByDeploymentKey
                     (fun db => joinPackages db deploymentKey) in
  resolveS packages.

Definition getDeployments (accountId appId : string) : Action (list Deployment.row) :=
  liftS (getApp accountId appId) ;;
  let* deployments := sqlSelect SelectDeploymentsByApp
                        (fun db => filter (fun a => Deployment.appId a = appId)
                                     (deployments db)) in
  resolveS deployments.

(** [DELETE FROM deployments WHERE id=$1], with the cascade to the
    packages of the deployment. *)
Definition deleteDeployment (deploymentId : string) (db : Database) : Database :=
  mkDatabase (accounts db) (apps db)
    (filter (fun d => Deployment.id d ≠ deploymentId) (deployments db))
    (filter (fun r => PackageRow.deploymentId r ≠ deploymentId) (packages db))
    (access_keys db) (access_key_to_account_map db) (account_to_apps_map db).

Definition removeDeployment (accountId appId deploymentId : string) : Action unit :=
  let* deployment := liftS (getDeployment accountId appId deploymentId) in
  if bool_decide (appId ≠ Deployment.appId deployment)
  then rejectS (PlainError "Wrong appId")
  else sqlExecute DeleteDeployment (deleteDeployment deploymentId) ;; resolveS tt.

(** [UPDATE deployments SET name=$1, key=$2 WHERE id=$3]; the key is
    unique among the rows. *)
Definition renameDeployment (deployment : Deployment.row) (db : Database)
    : Failure + unit * Database :=
  if bool_decide (Deployment.id deployment ∈ Deployment.id <$> deployments db)
     && bool_decide
          (Deployment.key deployment ∈
           Deployment.key <$>
             filter (fun d => Deployment.id d ≠ Deployment.id deployment) (deployments db))
  then inl (UniqueViolation "deployments")
  else inr (tt,
            setDeployments db
              ((fun d => if bool_decide (Deployment.id d = Deployment.id deployment)
                         then Deployment.mk (Deployment.id d) (Deployment.name deployment)
                                (Deployment.appId d) (Deployment.key deployment)
                         else d) <$> deployments db)).

Definition updateDeployment (accountId appId : string) (deployment : Deployment.row)
    : Action unit :=
  liftS (getDeployment accountId appId (Deployment.id deployment)) ;;
  sql UpdateDeployment (renameDeployment deployment) ;;
  resolveS tt.

(** ** Package history *)



Definition getPackageHistory (accountId appId deploymentId : string)
    : Action (list PackageRow.row) :=
  liftS (getDeployment accountId appId deploymentId) ;;
  let* rows := sqlSelect SelectPackages (fun db => packagesOf deploymentId db) in
  resolveS rows.

(** ** Blobs *)

(** [s3Client.send(command)]: [failure] is the message of the error the
    object store answers with, if it does. *)
Definition send (cmd : Command) (failure : option string) : Action unit :=
  command cmd
    (fun st =>
       match failure with
       | Some message => inl (PlainError message)
       | None => inr (tt, st)
       end).

Definition blobUrl (bucketName blobId : string) : string :=
  "https://" +:+ bucketName +:+ ".s3.amazonaws.com/" +:+ blobId.



Definition getBlobUrl (blobId : string) : Action string :=
  let* rows := command SelectBlob
                 (fun st => inr (filter (fun b => Blob.key b = blobId) (blobs st), st)) in
  match head rows with
  | Some row =>
      if truthyString (Blob.url row)
      then resolveS (Blob.url row)
      else rejectS (PlainError "Blob not found")
  | None => rejectS (PlainError "Blob not found")
  end.

Definition removeBlob (failure : option string) (blobId : string) : Action unit :=
  send (DeleteObject blobId) failure ;;
  command DeleteBlob
    (fun st => inr (tt, setBlobs st (filter (fun b => Blob.key b ≠ blobId) (blobs st)))) ;;
  resolveS tt.

(** ** Access keys *)

Definition insertAccessKey (row : AccessKeyRow.row) (more : AccessKeyDetails.row)
    (st : Storage) : Failure + string * Storage :=
  let db := theDatabase st in
  if bool_decide (AccessKeyRow.id row ∈ AccessKeyRow.id <$> access_keys db)
     || bool_decide (AccessKeyRow.name row ∈ AccessKeyRow.name <$> access_keys db)
  then inl (UniqueViolation "access_keys")
  else inr (AccessKeyRow.id row,
            setKeyDetails (setDatabase st (setAccessKeys db (access_keys db ++ [row])))
              (access_key_details st ++ [more])).

Definition insertKeyLink (row : KeyLink.row) (db : Database) : Failure + unit * Database :=
  if bool_decide
       ((KeyLink.accessKeyId row, KeyLink.accountId row) ∈
        (fun l => (KeyLink.accessKeyId l, KeyLink.accountId l))
          <$> access_key_to_account_map db)
  then inl (UniqueViolation "access_key_to_account_map")
  else inr (tt, setKeyLinks db (access_key_to_account_map db ++ [row])).

(** [newId] is the value of [uuidv4()]. *)
Definition addAccessKey (newId : string) (accountId : string) (accessKey : AccessKey.t)
    : Action string :=
  let* account := liftS (getAccount accountId) in
  let* id := command InsertAccessKey
               (insertAccessKey
                  (AccessKeyRow.mk newId (AccessKey.name accessKey)
                     (Some (AccessKey.expires accessKey)))
                  (AccessKeyDetails.mk newId (Account.email account)
                     (AccessKey.description accessKey) (AccessKey.friendlyName accessKey)
                     (truthyFlag (AccessKey.isSession accessKey)))) in
  sql InsertAccessKeyLink
    (insertKeyLink (KeyLink.mk id accountId (Some (AccessKey.expires accessKey)))) ;;
  resolveS id.

(** The join of [access_keys] with [access_key_to_account_map] for one
    key id. *)
Definition joinAccessKeyById (st : Storage) (accessKeyId : string) : list StoredAccessKey.t :=
  a ← filter (fun a => AccessKeyRow.id a = accessKeyId) (access_keys (theDatabase st));
  b ← filter (fun b => KeyLink.accessKeyId b = AccessKeyRow.id a)
         (access_key_to_account_map (theDatabase st));
  [ StoredAccessKey.mk a
      (head (filter (fun m => AccessKeyDetails.id m = AccessKeyRow.id a)
               (access_key_details st)))
      (KeyLink.accountId b) ].

Definition getAccessKey (accountId accessKeyId : string) : Action StoredAccessKey.t :=
  let* rows := command SelectAccessKeyById
                 (fun st => inr (joinAccessKeyById st accessKeyId, st)) in
  match head rows with
  | Some row =>
      if negb (truthyString (StoredAccessKey.accountId row))
         || bool_decide (StoredAccessKey.accountId row ≠ accountId)
      then rejectS (StorageError NotFound None)
      else resolveS row
  | None => rejectS (StorageError NotFound None)
  end.

(** The join of [access_key_to_account_map] with [access_keys] for one
    account. *)
Definition joinAccessKeys (st : Storage) (accountId : string)
    : list (AccessKeyRow.row * option AccessKeyDetails.row) :=
  a ← filter (fun a => KeyLink.accountId a = accountId)
         (access_key_to_account_map (theDatabase st));
  b ← filter (fun b => AccessKeyRow.id b = KeyLink.accessKeyId a)
         (access_keys (theDatabase st));
  [ (b, head (filter (fun m => AccessKeyDetails.id m = AccessKeyRow.id b)
                (access_key_details st))) ].

Definition getAccessKeys (accountId : string)
    : Action (list (AccessKeyRow.row * option AccessKeyDetails.row)) :=
  let* rows := command SelectAccessKeysByAccount
                 (fun st => inr (joinAccessKeys st accountId, st)) in
  resolveS rows.

(** [DELETE FROM access_keys WHERE id=$1], with the cascade to the
    mappings of the key. *)
Definition deleteAccessKey (accessKeyId : string) (st : Storage) : Storage :=
  let db := theDatabase st in
  setKeyDetails
    (setDatabase st
       (mkDatabase (accounts db) (apps db) (deployments db) (packages db)
          (filter (fun a => AccessKeyRow.id a ≠ accessKeyId) (access_keys db))
          (filter (fun b => KeyLink.accessKeyId b ≠ accessKeyId)
             (access_key_to_account_map db))
          (account_to_apps_map db)))
    (filter (fun m => AccessKeyDetails.id m ≠ accessKeyId) (access_key_details st)).

Definition removeAccessKey (accountId accessKeyId : string) : Action unit :=
  getAccessKey accountId accessKeyId ;;
  command DeleteAccessKey (fun st => inr (tt, deleteAccessKey accessKeyId st)) ;;
  resolveS tt.

(** [UPDATE access_keys SET name, description, expires, "friendlyName",
    "isSession" WHERE id=$6]; the name is unique among the rows. *)
Definition rewriteAccessKey (accessKey : AccessKey.t) (st : Storage)
    : Failure + unit * Storage :=
  let db := theDatabase st in
  if bool_decide (AccessKey.id accessKey ∈ AccessKeyRow.id <$> access_keys db)
     && bool_decide
          (AccessKey.name accessKey ∈
           AccessKeyRow.name <$>
             filter (fun a => AccessKeyRow.id a ≠ AccessKey.id accessKey) (access_keys db))
  then inl (UniqueViolation "access_keys")
  else inr (tt,
            setKeyDetails
              (setDatabase st
                 (setAccessKeys db
                    ((fun a => if bool_decide (AccessKeyRow.id a = AccessKey.id accessKey)
                               then AccessKeyRow.mk (AccessKeyRow.id a)
                                      (AccessKey.name accessKey)
                                      (Some (AccessKey.expires accessKey))
                               else a) <$> access_keys db)))
              ((fun m => if bool_decide (AccessKeyDetails.id m = AccessKey.id accessKey)
                         then AccessKeyDetails.mk (AccessKeyDetails.id m)
                                (AccessKeyDetails.createdBy m)
                                (AccessKey.description accessKey)
                                (AccessKey.friendlyName accessKey)
                                (truthyFlag (AccessKey.isSession accessKey))
                         else m) <$> access_key_details st)).

Definition updateAccessKey (accountId : string) (accessKey : AccessKey.t) : Action unit :=
  getAccessKey accountId (AccessKey.id accessKey) ;;
  command UpdateAccessKey (rewriteAccessKey accessKey) ;;
  resolveS tt.

Close Scope storage_scope.

(** ** Running a call on the storage *)

Definition outcomeS {A} (c : Action A) (st : Storage) : Outcome A := fst (c st).
Definition afterS {A} (c : Action A) (st : Storage) : Storage := snd (c st).
Definition storedS {A} (c : Action A) (st : Storage) : Database := theDatabase (snd (c st)).

(** The storage around a pool, with nothing sent yet. *)
Definition around (p : Pool) : Storage := mkStorage p [] [] [].

(** ** Vocabulary of the further statements *)

Definition deploymentOf (db : Database) (deploymentId : string) : option Deployment.row :=
  head (filter (fun d => Deployment.id d = deploymentId) (deployments db)).

(** The primary key and the unique key of [deployments]. *)
Definition deploymentsWellFormed (db : Database) : Prop :=
  NoDup (Deployment.id <$> deployments db) /\ NoDup (Deployment.key <$> deployments db).

(** The primary key of [packages]. *)
Definition packagesWellFormed (db : Database) : Prop :=
  NoDup (PackageRow.id <$> packages db).

(** The columns of a package row that [updatePackageHistory] does not
    set. *)
Definition identity (r : PackageRow.row) : string * string * option string * option string :=
  (PackageRow.id r, PackageRow.deploymentId r,
   PackageRow.originalLabel r, PackageRow.originalDeployment r).

(** The primary key and the unique name of [access_keys]. *)
Definition accessKeysWellFormed (db : Database) : Prop :=
  NoDup (AccessKeyRow.id <$> access_keys db) /\ NoDup (AccessKeyRow.name <$> access_keys db).

(** The foreign key of [access_key_to_account_map] into [access_keys]. *)
Definition keyLinksWellFormed (db : Database) : Prop :=
  forall l, l ∈ access_key_to_account_map db ->
            KeyLink.accessKeyId l ∈ AccessKeyRow.id <$> access_keys db.

(** ** A store with two apps for the scenarios of the further statements *)

Definition secondApp : App.row :=
  App.mk "app-2" "other" {[ "b@x.com" := mkCollaborator "id-b" Owner None ]}.

Definition staging : Deployment.row := Deployment.mk "dep-2" "Staging" "app-2" "key-2".

Definition shipped (id deploymentId label : string) (uploadTime : Z) : PackageRow.row :=
  PackageRow.mk id deploymentId None false false None "1.0.0" "hash" "blob" 1 "manifest"
    None uploadTime (Some label) None None.

(** App 1 is owned by A and shared with B, app 2 is B's; each has one
    deployment, with two packages and one; A has one access key and one
    blob is recorded. *)
Definition twoApps : Storage :=
  mkStorage
    (mkPool
       (mkDatabase [alice; bob; carol] [sharedApp; secondApp] [production; staging]
          [shipped "pkg-1" "dep-1" "v1" 100; shipped "pkg-2" "dep-1" "v2" 200;
           shipped "pkg-3" "dep-2" "v1" 150]
          [AccessKeyRow.mk "ak-1" "token-1" (Some 2000%Z)]
          [KeyLink.mk "ak-1" "id-a" (Some 2000%Z)]
          [AppLink.mk "id-a" "app-1"; AppLink.mk "id-b" "app-1"; AppLink.mk "id-b" "app-2"])
       [])
    [AccessKeyDetails.mk "ak-1" "a@x.com" None "laptop" false]
    [Blob.mk "blob-1" (blobUrl "bucket" "blob-1")]
    [].

(** The store after A has registered, created an app, added B and handed
    the app over to B. *)
Definition handedOver : Pool :=
  default emptyStore (performAllByOwner ownerTransfers emptyStore).

Definition handedApp : App.row := default blankApp (head (apps (database handedOver))).

(** * Properties *)

(** ** Running the monad *)

Lemma bind_run {A B} (c : M A) (k : A -> M B) (p : Pool) :
  bind c k p =
  match c p with
  | (Resolved a, p') => k a p'
  | (Rejected e, p') => (Rejected e, p')
  | (Unsettled e, p') => (Unsettled e, p')
  end.
Proof. reflexivity. Qed.

Lemma select_run {A} (s : Statement) (read : Database -> A) (p : Pool) :
  select s read p = (Resolved (read (database p)), mkPool (database p) (s :: issued p)).
Proof. reflexivity. Qed.

Lemma execute_run (s : Statement) (write : Database -> Database) (p : Pool) :
  execute s write p = (Resolved tt, mkPool (write (database p)) (s :: issued p)).
Proof. reflexivity. Qed.

Lemma resolve_run {A} (a : A) (p : Pool) : resolve a p = (Resolved a, p).
Proof. reflexivity. Qed.

Lemma reject_run {A} (e : Failure) (p : Pool) : @reject A e p = (Rejected e, p).
Proof. reflexivity. Qed.

#[global] Arguments bind : simpl never.
#[global] Arguments select : simpl never.
#[global] Arguments execute : simpl never.
#[global] Arguments query : simpl never.
#[global] Arguments resolve : simpl never.
#[global] Arguments reject : simpl never.

(** One [await]: unfold the outermost bind and run its first call with
    the equation [E]. *)
Ltac await E := rewrite bind_run, E; cbn [database issued fst snd].

Lemma getAccount_run (accountId : string) (p : Pool) :
  getAccount accountId p =
  (match accountById (database p) accountId with
   | Some account => Resolved account
   | None => Rejected (StorageError NotFound None)
   end,
   mkPool (database p) (SelectAccountById :: issued p)).
Proof.
  unfold getAccount, accountById. rewrite bind_run, select_run.
  by destruct (head _).
Qed.

Lemma getAccountByEmail_run (email : string) (p : Pool) :
  getAccountByEmail email p =
  (match accountByEmail (database p) email with
   | Some account => Resolved account
   | None => Rejected (StorageError NotFound None)
   end,
   mkPool (database p) (SelectAccountByEmail :: issued p)).
Proof.
  unfold getAccountByEmail, accountByEmail. rewrite bind_run, select_run.
  by destruct (head _).
Qed.

#[global] Arguments getAccount : simpl never.
#[global] Arguments getAccountByEmail : simpl never.

(** [getApp] either resolves with the stored row, annotated for the
    caller, or rejects [NotFound]; it never changes the store. *)
Lemma getApp_found (accountId appId : string) (p : Pool) account app :
  accountById (database p) accountId = Some account ->
  appById (database p) appId = Some app ->
  getApp accountId appId p =
  (Resolved (addIsCurrentAccountProperty app (Account.id account)),
   mkPool (database p) (SelectAppById :: SelectAccountById :: issued p)).
Proof.
  intros Ha Happ. unfold getApp. await getAccount_run. rewrite Ha.
  await @select_run. fold (appById (database p) appId). by rewrite Happ.
Qed.

Lemma getApp_cases (accountId appId : string) (p : Pool) :
  (exists account app,
      accountById (database p) accountId = Some account /\
      appById (database p) appId = Some app /\
      getApp accountId appId p =
      (Resolved (addIsCurrentAccountProperty app (Account.id account)),
       mkPool (database p) (SelectAppById :: SelectAccountById :: issued p))) \/
  (exists log,
      (accountById (database p) accountId = None \/ appById (database p) appId = None) /\
      getApp accountId appId p =
      (Rejected (StorageError NotFound None), mkPool (database p) log)).
Proof.
  destruct (accountById (database p) accountId) as [account|] eqn:Ha.
  - destruct (appById (database p) appId) as [app|] eqn:Happ.
    + left. exists account, app. eauto using getApp_found.
    + right. eexists. split; [by right|].
      unfold getApp. await getAccount_run. rewrite Ha.
      await @select_run. fold (appById (database p) appId). by rewrite Happ.
  - right. eexists. split; [by left|].
    unfold getApp. await getAccount_run. by rewrite Ha.
Qed.

#[global] Arguments getApp : simpl never.

Lemma updateApp_found (accountId : string) (app : App.row) (ensureIsOwner : bool)
    (p : Pool) account old :
  accountById (database p) accountId = Some account ->
  appById (database p) (App.id app) = Some old ->
  updateApp accountId app ensureIsOwner p =
  (Resolved tt,
   mkPool (writeApp (removeIsCurrentAccountProperty app) (database p))
     (UpdateApp :: SelectAppById :: SelectAccountById :: issued p)).
Proof.
  intros Ha Hold. unfold updateApp.
  await (getApp_found _ _ p _ _ Ha Hold). by await execute_run.
Qed.

Lemma updateApp_cases (accountId : string) (app : App.row) (ensureIsOwner : bool) (p : Pool) :
  (exists account old,
      accountById (database p) accountId = Some account /\
      appById (database p) (App.id app) = Some old /\
      updateApp accountId app ensureIsOwner p =
      (Resolved tt,
       mkPool (writeApp (removeIsCurrentAccountProperty app) (database p))
         (UpdateApp :: SelectAppById :: SelectAccountById :: issued p))) \/
  (exists log,
      updateApp accountId app ensureIsOwner p =
      (Rejected (StorageError NotFound None), mkPool (database p) log)).
Proof.
  destruct (getApp_cases accountId (App.id app) p)
    as [(account & old & Ha & Hold & _)|(log & _ & E)].
  - left. exists account, old. eauto using updateApp_found.
  - right. exists log. unfold updateApp. by await E.
Qed.

#[global] Arguments updateApp : simpl never.

(** Annotating and stripping entries changes neither who is in the map
    nor with which permission. *)
Lemma permission_markCurrent current c :
  permission (markCurrent current c) = permission c.
Proof. unfold markCurrent. by destruct (bool_decide _). Qed.

Lemma permission_unmarkCurrent c : permission (unmarkCurrent c) = permission c.
Proof. unfold unmarkCurrent. by destruct (truthyFlag _). Qed.

Lemma accountId_markCurrent current c :
  accountId (markCurrent current c) = accountId c.
Proof. unfold markCurrent. by destruct (bool_decide _). Qed.

Lemma accountId_unmarkCurrent c : accountId (unmarkCurrent c) = accountId c.
Proof. unfold unmarkCurrent. by destruct (truthyFlag _). Qed.

Lemma isOwner_markCurrent current m email :
  isOwner (markCurrent current <$> m) email = isOwner m email.
Proof.
  unfold isOwner. rewrite lookup_fmap.
  destruct (m !! email) as [c|]; simpl; [|done]. by rewrite permission_markCurrent.
Qed.

Lemma isCollaborator_markCurrent current m email :
  isCollaborator (markCurrent current <$> m) email = isCollaborator m email.
Proof.
  unfold isCollaborator. rewrite lookup_fmap.
  destruct (m !! email) as [c|]; simpl; [|done]. by rewrite permission_markCurrent.
Qed.

Lemma appById_id db appId app : appById db appId = Some app -> App.id app = appId.
Proof.
  unfold appById. intros H. apply head_Some_elem_of in H.
  by apply list_elem_of_filter in H as [H _].
Qed.

Lemma appById_elem_of db appId app : appById db appId = Some app -> app ∈ apps db.
Proof.
  unfold appById. intros H. apply head_Some_elem_of in H.
  by apply list_elem_of_filter in H as [_ H].
Qed.

Lemma accountById_id db accountId account :
  accountById db accountId = Some account -> Account.id account = accountId.
Proof.
  unfold accountById. intros H. apply head_Some_elem_of in H.
  by apply list_elem_of_filter in H as [H _].
Qed.

Lemma accountById_elem_of db accountId account :
  accountById db accountId = Some account -> account ∈ accounts db.
Proof.
  unfold accountById. intros H. apply head_Some_elem_of in H.
  by apply list_elem_of_filter in H as [_ H].
Qed.

Lemma accountByEmail_email db email account :
  accountByEmail db email = Some account -> Account.email account = email.
Proof.
  unfold accountByEmail. intros H. apply head_Some_elem_of in H.
  by apply list_elem_of_filter in H as [H _].
Qed.

Lemma accountByEmail_elem_of db email account :
  accountByEmail db email = Some account -> account ∈ accounts db.
Proof.
  unfold accountByEmail. intros H. apply head_Some_elem_of in H.
  by apply list_elem_of_filter in H as [_ H].
Qed.

(** C10. When the collaborator map of the app has no entry under the
    e-mail of the requesting account, [transferApp] to an existing account
    that is not the owner is rejected with the [TypeError] of the demotion
    step - a failure outside the storage taxonomy - and nothing is
    written. *)
Theorem transferApp_requester_missing (p : Pool) (accountId appId email : string)
    (account target : Account.row) (app : App.row) :
  isPrototypePollutionKey email = false ->
  accountById (database p) accountId = Some account ->
  appById (database p) appId = Some app ->
  App.collaborators app !! Account.email account = None ->
  accountByEmail (database p) (toLowerCase email) = Some target ->
  isOwner (App.collaborators app) (Account.email target) = false ->
  outcome (transferApp accountId appId email) p = Rejected TypeError /\
  classified TypeError = false /\
  codeOf TypeError = None /\
  stored (transferApp accountId appId email) p = database p.
Proof.
  intros Hkey Ha Happ Hreq Ht Hown.
  unfold outcome, stored, transferApp. rewrite Hkey.
  await (getApp_found _ _ p _ _ Ha Happ).
  await getAccount_run. rewrite Ha.
  await getAccountByEmail_run. rewrite Ht.
  cbn [addIsCurrentAccountProperty App.collaborators].
  rewrite isOwner_markCurrent, Hown, lookup_fmap, Hreq. done.
Qed.

(** ** Deployment lookup by key *)

Lemma head_filter_elem_of {A} (P : A -> Prop) `{forall x, Decision (P x)} (l : list A) (x : A) :
  x ∈ l -> P x -> is_Some (head (filter P l)).
Proof.
  intros Hx HP. assert (Hin : x ∈ filter P l) by (apply list_elem_of_filter; done).
  destruct (filter P l); [by apply elem_of_nil in Hin | by eexists].
Qed.

Lemma head_filter_None {A} (P : A -> Prop) `{forall x, Decision (P x)} (l : list A) :
  (forall x, x ∈ l -> ~ P x) -> head (filter P l) = None.
Proof.
  intros Hno. destruct (filter P l) as [|y ys] eqn:E; [done|].
  assert (Hy : y ∈ filter P l) by (rewrite E; left).
  apply list_elem_of_filter in Hy as [HP Hy]. by destruct (Hno y Hy).
Qed.

(** C3. For a key that some stored deployment carries, [getDeploymentInfo]
    reads [deployment.package.appId] on a row that has no [package]
    property: the [TypeError] escapes the [async] block, which has no
    [try]/[catch], so the call neither resolves with
    [{appId, deploymentId}] nor rejects. *)
Theorem getDeploymentInfo_known_key_unsettled (p : Pool) (deploymentKey : string)
    (d : Deployment.row) :
  d ∈ deployments (database p) ->
  Deployment.key d = deploymentKey ->
  outcome (getDeploymentInfo deploymentKey) p = Unsettled TypeError.
Proof.
  intros Hd Hkey. unfold outcome, getDeploymentInfo. await @select_run.
  destruct (head_filter_elem_of (fun d => Deployment.key d = deploymentKey) _ d Hd Hkey)
    as [row ->].
  reflexivity.
Qed.

(** Whatever the store and the key, the call never resolves. *)
Lemma getDeploymentInfo_never_resolves (p : Pool) (deploymentKey : string) :
  resolved (outcome (getDeploymentInfo deploymentKey) p) = false.
Proof.
  unfold outcome, getDeploymentInfo. await @select_run. by destruct (head _).
Qed.

Lemma getDeploymentInfo_unknown_key (p : Pool) (deploymentKey : string) :
  (forall d, d ∈ deployments (database p) -> Deployment.key d <> deploymentKey) ->
  outcome (getDeploymentInfo deploymentKey) p = Rejected (StorageError NotFound None).
Proof.
  intros Hno. unfold outcome, getDeploymentInfo. await @select_run.
  by rewrite head_filter_None.
Qed.

(** ** Access keys *)

Lemma elem_of_joinAccessKey db accessKey (b : KeyLink.row) :
  b ∈ joinAccessKey db accessKey <->
  exists a, a ∈ access_keys db /\ b ∈ access_key_to_account_map db /\
            AccessKeyRow.name a = accessKey /\ KeyLink.accessKeyId b = AccessKeyRow.id a.
Proof.
  unfold joinAccessKey. rewrite list_elem_of_bind. split.
  - intros (a & Hb & Ha). apply list_elem_of_filter in Hb as [Hid Hb].
    apply list_elem_of_filter in Ha as [Hname Ha]. eauto 6.
  - intros (a & Ha & Hb & Hname & Hid). exists a.
    split; apply list_elem_of_filter; done.
Qed.

Lemma getAccountIdFromAccessKey_run now accessKey p :
  getAccountIdFromAccessKey now accessKey p =
  (match head (joinAccessKey (database p) accessKey) with
   | None => Rejected (StorageError NotFound None)
   | Some data =>
       if reached now (KeyLink.expires data)
       then Rejected (StorageError Expired (Some "The access key has expired."))
       else Resolved (KeyLink.accountId data)
   end,
   mkPool (database p) (SelectAccessKeyByName :: issued p)).
Proof.
  unfold getAccountIdFromAccessKey. await @select_run.
  destruct (head _) as [data|]; [|done]. by destruct (reached _ _).
Qed.

(** C4. Resolution of an access key reads the store and never writes.
    It fails [NotFound] when no key of that name has a mapping.  When the
    key and its mapping exist (the key name is unique and the key maps to
    one account), it fails [Expired] if the expiry of the mapping is at or
    before the current time and returns the mapped account id if the
    expiry is strictly later.  A failure [Expired] is only ever reported
    for a key and mapping that exist. *)
Theorem getAccountIdFromAccessKey_outcomes (now : Z) (accessKey : string) (p : Pool) :
  let db := database p in
  let call := getAccountIdFromAccessKey now accessKey in
  stored call p = db /\
  ((forall a b, a ∈ access_keys db -> b ∈ access_key_to_account_map db ->
                AccessKeyRow.name a = accessKey ->
                KeyLink.accessKeyId b <> AccessKeyRow.id a) ->
   outcome call p = Rejected (StorageError NotFound None)) /\
  (forall a b e,
      a ∈ access_keys db -> b ∈ access_key_to_account_map db ->
      AccessKeyRow.name a = accessKey -> KeyLink.accessKeyId b = AccessKeyRow.id a ->
      (forall a', a' ∈ access_keys db -> AccessKeyRow.name a' = accessKey -> a' = a) ->
      (forall b', b' ∈ access_key_to_account_map db ->
                  KeyLink.accessKeyId b' = AccessKeyRow.id a -> b' = b) ->
      KeyLink.expires b = Some e ->
      ((e <= now)%Z ->
       outcome call p = Rejected (StorageError Expired (Some "The access key has expired."))) /\
      ((now < e)%Z -> outcome call p = Resolved (KeyLink.accountId b))) /\
  (forall message, outcome call p = Rejected (StorageError Expired message) ->
      exists a b, a ∈ access_keys db /\ b ∈ access_key_to_account_map db /\
                  AccessKeyRow.name a = accessKey /\
                  KeyLink.accessKeyId b = AccessKeyRow.id a /\
                  reached now (KeyLink.expires b) = true).
Proof.
  intros db call. unfold call, outcome, stored.
  rewrite getAccountIdFromAccessKey_run. cbn [fst snd database]. fold db.
  split; [done|]. split; [|split].
  - intros Hno. destruct (head (joinAccessKey db accessKey)) as [data|] eqn:E; [|done].
    apply head_Some_elem_of, elem_of_joinAccessKey in E as (a & Ha & Hb & Hname & Hid).
    by destruct (Hno a data).
  - intros a b e Ha Hb Hname Hid Hua Hub He.
    assert (Hhead : head (joinAccessKey db accessKey) = Some b).
    { destruct (joinAccessKey db accessKey) as [|b' rest] eqn:E.
      - assert (Hin : b ∈ joinAccessKey db accessKey)
          by (apply elem_of_joinAccessKey; eauto 6).
        rewrite E in Hin. by apply elem_of_nil in Hin.
      - assert (Hin : b' ∈ joinAccessKey db accessKey) by (rewrite E; left).
        apply elem_of_joinAccessKey in Hin as (a' & Ha' & Hb' & Hname' & Hid').
        rewrite (Hua a' Ha' Hname') in Hid'. by rewrite (Hub b' Hb' Hid'). }
    rewrite Hhead, He. unfold reached. simpl.
    split; intros Hle.
    + by rewrite (proj2 (Z.leb_le e now) Hle).
    + by rewrite (proj2 (Z.leb_gt e now) Hle).
  - intros message. destruct (head (joinAccessKey db accessKey)) as [data|] eqn:E; [|done].
    apply head_Some_elem_of, elem_of_joinAccessKey in E as (a & Ha & Hb & Hname & Hid).
    destruct (reached now (KeyLink.expires data)) eqn:Hr; [|done].
    intros _. exists a, data. done.
Qed.

(** ** Package history updates *)

Lemma issuesAtLeast_bind {A B} n (c : M A) (k : A -> M B) :
  issuesAtLeast n c -> (forall a, issuesAtLeast 0 (k a)) -> issuesAtLeast n (bind c k).
Proof.
  intros Hc Hk p. unfold after. rewrite bind_run.
  specialize (Hc p). unfold after in Hc.
  destruct (c p) as [[a|e|e] p']; cbn [snd] in *; try done.
  specialize (Hk a p'). unfold after in Hk. lia.
Qed.

Lemma issuesAtLeast_weaken {A} n (c : M A) : issuesAtLeast n c -> issuesAtLeast 0 c.
Proof. intros Hc p. specialize (Hc p). lia. Qed.

Lemma issuesAtLeast_query {A} s (run : Database -> Failure + A * Database) :
  issuesAtLeast 1 (query s run).
Proof.
  intros p. unfold after, query.
  destruct (run (database p)) as [e|[a db]]; cbn [snd issued length]; lia.
Qed.

Lemma issuesAtLeast_getAccount accountId : issuesAtLeast 1 (getAccount accountId).
Proof. intros p. unfold after. rewrite getAccount_run. cbn [snd issued length]. lia. Qed.

Lemma issuesAtLeast_getDeployment accountId appId deploymentId :
  issuesAtLeast 1 (getDeployment accountId appId deploymentId).
Proof.
  unfold getDeployment, getApp.
  apply issuesAtLeast_bind; [apply issuesAtLeast_bind|].
  - apply issuesAtLeast_getAccount.
  - intros account p. unfold after. rewrite bind_run, select_run.
    destruct (head _); unfold resolve, reject; cbn [snd issued length]; lia.
  - intros app p. unfold after. rewrite bind_run, select_run.
    destruct (head _); unfold resolve, reject; cbn [snd issued length]; lia.
Qed.

Lemma issuesAtLeast_updateEach history : issuesAtLeast 0 (updateEach history).
Proof.
  induction history as [|h rest IH]; [intros p; unfold after, updateEach, resolve; cbn; lia|].
  cbn [updateEach]. apply issuesAtLeast_bind; [|done].
  apply issuesAtLeast_weaken with (n := 1), issuesAtLeast_query.
Qed.

(** A history that is not empty does send statements to the store. *)
Lemma updatePackageHistory_nonempty_reads accountId appId deploymentId h rest p :
  issued (after (updatePackageHistory accountId appId deploymentId (h :: rest)) p)
  <> issued p.
Proof.
  assert (H : issuesAtLeast 1
                (updatePackageHistory accountId appId deploymentId (h :: rest))).
  { unfold updatePackageHistory. apply issuesAtLeast_bind.
    - apply issuesAtLeast_getDeployment.
    - intros _. apply issuesAtLeast_bind; [apply issuesAtLeast_updateEach|].
      intros _ q. unfold after, resolve; cbn. lia. }
  specialize (H p). intros E. rewrite E in H. lia.
Qed.

(** C7. Whatever the account, app and deployment, [updatePackageHistory]
    with an empty history is rejected [Invalid] and hands back the pool as
    it received it: no statement was issued, so no row was read or
    written.  (A history that is not empty does reach the store.) *)
Theorem updatePackageHistory_empty (accountId appId deploymentId : string) (p : Pool) :
  updatePackageHistory accountId appId deploymentId [] p =
  (Rejected (StorageError Invalid
               (Some "Cannot clear package history from an update operation")),
   p) /\
  forall h rest,
    issued (after (updatePackageHistory accountId appId deploymentId (h :: rest)) p)
    <> issued p.
Proof.
  split; [reflexivity|]. intros h rest.
  apply updatePackageHistory_nonempty_reads.
Qed.

(** ** Removing an app *)

Lemma removeApp_run (accountId appId : string) (p : Pool) :
  removeApp accountId appId p =
  match recordedAccount (database p) appId with
  | None => (Rejected TypeError, mkPool (database p) (SelectAppLinkByApp :: issued p))
  | Some owner =>
      if bool_decide (accountId = owner)
      then (Resolved tt,
            mkPool (deleteApp appId (database p))
              (DeleteApp :: SelectAppLinkByApp :: issued p))
      else (Rejected (PlainError "Wrong accountId"),
            mkPool (database p) (SelectAppLinkByApp :: issued p))
  end.
Proof.
  unfold removeApp, getAppAccountId, recordedAccount.
  rewrite !bind_run, select_run.
  destruct (head _) as [data|]; cbn [fmap option_fmap option_map]; [|done].
  rewrite resolve_run.
  destruct (decide (accountId = AppLink.accountId data)) as [->|Hne].
  - rewrite bool_decide_eq_false_2 by (intros H; by apply H).
    rewrite bool_decide_eq_true_2 by done.
    by rewrite bind_run, execute_run.
  - rewrite bool_decide_eq_true_2 by done. by rewrite bool_decide_eq_false_2 by done.
Qed.



(** ** Collaborators *)

Lemma isOwner_not_isCollaborator m email :
  isOwner m email = true -> isCollaborator m email = false.
Proof.
  unfold isOwner, isCollaborator. destruct (m !! email) as [c|]; [|done].
  intros H%bool_decide_eq_true. rewrite H. done.
Qed.

Lemma removeIsCurrentAccountProperty_roundTrip app current m :
  removeIsCurrentAccountProperty
    (withCollaborators (addIsCurrentAccountProperty app current) (markCurrent current <$> m))
  = App.mk (App.id app) (App.name app) (roundTrip current <$> m).
Proof.
  unfold removeIsCurrentAccountProperty, withCollaborators, addIsCurrentAccountProperty.
  cbn [App.id App.name App.collaborators]. f_equal.
  rewrite <- map_fmap_compose. done.
Qed.

(** C6. [removeCollaborator] aimed at the e-mail that holds [Owner] is
    rejected [NotFound] with the message about the owner; aimed at any
    e-mail that is not a [Collaborator] of the app it is rejected
    [NotFound]; in both cases nothing is written.  Aimed at a
    [Collaborator] whose account resolves, it succeeds for every existing
    requesting account - no ownership is asked of the requester, so a
    collaborator can remove themself: the visibility link of the target
    is deleted and the app is persisted without the target's entry. *)
Theorem removeCollaborator_outcomes (accountId appId email : string) (p : Pool) :
  let db := database p in
  let call := removeCollaborator accountId appId email in
  (forall account app,
      accountById db accountId = Some account -> appById db appId = Some app ->
      isOwner (App.collaborators app) email = true ->
      outcome call p =
      Rejected (StorageError NotFound
                  (Some "Cannot remove the owner of the app from collaborator list.")) /\
      stored call p = db) /\
  ((forall app, appById db appId = Some app ->
                isCollaborator (App.collaborators app) email = false) ->
   rejectionCode (outcome call p) = Some NotFound /\ stored call p = db) /\
  (forall account app target,
      accountById db accountId = Some account -> appById db appId = Some app ->
      isCollaborator (App.collaborators app) email = true ->
      accountByEmail db (toLowerCase email) = Some target ->
      Account.id target <> "" ->
      outcome call p = Resolved tt /\
      stored call p =
      writeApp
        (App.mk appId (App.name app)
           (roundTrip (Account.id account) <$> delete email (App.collaborators app)))
        (setAppLinks db
           (filter (fun l => l <> AppLink.mk (Account.id target) appId)
              (account_to_apps_map db))) /\
      (AppLink.mk (Account.id target) appId ∉ account_to_apps_map (stored call p)) /\
      (forall row, row ∈ apps (stored call p) -> App.id row = appId ->
                   App.collaborators row !! email = None)).
Proof.
  intros db call. unfold call, outcome, stored. split; [|split].
  - intros account app Ha Happ Hown. unfold removeCollaborator.
    await (getApp_found _ _ p _ _ Ha Happ).
    cbn [addIsCurrentAccountProperty App.collaborators].
    by rewrite isOwner_markCurrent, Hown.
  - intros Hnot. unfold removeCollaborator.
    destruct (getApp_cases accountId appId p)
      as [(account & app & Ha & Happ & E)|(log & _ & E)]; await E; [|done].
    cbn [addIsCurrentAccountProperty App.collaborators].
    rewrite isOwner_markCurrent.
    destruct (isOwner (App.collaborators app) email); [done|].
    await getAccountByEmail_run.
    destruct (accountByEmail (database p) (toLowerCase email)) as [target|]; [|done].
    by rewrite isCollaborator_markCurrent, (Hnot app Happ).
  - intros account app target Ha Happ Hcol Ht Hid.
    assert (Hown : isOwner (App.collaborators app) email = false).
    { destruct (isOwner (App.collaborators app) email) eqn:E; [|done].
      apply isOwner_not_isCollaborator in E. congruence. }
    assert (E : removeCollaborator accountId appId email p =
      (Resolved tt,
       mkPool
         (writeApp
            (App.mk appId (App.name app)
               (roundTrip (Account.id account) <$> delete email (App.collaborators app)))
            (setAppLinks db
               (filter (fun l => l <> AppLink.mk (Account.id target) appId)
                  (account_to_apps_map db))))
         (UpdateApp :: SelectAppById :: SelectAccountById :: DeleteAppLink ::
          SelectAccountByEmail :: SelectAppById :: SelectAccountById :: issued p))).
    { unfold removeCollaborator.
      await (getApp_found _ _ p _ _ Ha Happ).
      cbn [addIsCurrentAccountProperty App.collaborators].
      rewrite isOwner_markCurrent, Hown.
      await getAccountByEmail_run. fold db. rewrite Ht.
      rewrite isCollaborator_markCurrent, Hcol.
      unfold truthyString. rewrite bool_decide_eq_false_2 by done.
      cbn [negb orb]. unfold removeAppPointer. await execute_run.
      erewrite updateApp_found; cycle 1.
      { exact Ha. }
      { simpl. rewrite (appById_id _ _ _ Happ). exact Happ. }
      cbn [database issued]. rewrite <- fmap_delete.
      rewrite removeIsCurrentAccountProperty_roundTrip.
      by rewrite (appById_id _ _ _ Happ). }
    rewrite E. cbn [fst snd database]. split; [done|]. split; [done|]. split.
    + cbn [writeApp setApps setAppLinks account_to_apps_map].
      intros Hin. apply list_elem_of_filter in Hin as [Hne _]. done.
    + intros row Hrow Hrid. cbn [writeApp setApps setAppLinks apps App.id] in Hrow.
      apply list_elem_of_fmap in Hrow as (old & -> & Hold).
      destruct (bool_decide (App.id old = appId)) eqn:Hb.
      * cbn [App.collaborators]. by rewrite lookup_fmap, lookup_delete_eq.
      * apply bool_decide_eq_false in Hb. done.
Qed.

Lemma member_isCollaborator_or_isOwner m email c :
  m !! email = Some c -> isCollaborator m email || isOwner m email = true.
Proof.
  unfold isCollaborator, isOwner. intros ->.
  destruct (permission c); by rewrite ?bool_decide_eq_true_2 by done.
Qed.

(** [addCollaborator] with an e-mail that is a key of the collaborator
    map, as it is spelled, is rejected [AlreadyExists] before anything is
    written. *)
Lemma addCollaborator_key_already_exists (accountId appId email : string) (p : Pool)
    (account : Account.row) (app : App.row) (c : CollaboratorProperties) :
  isPrototypePollutionKey email = false ->
  accountById (database p) accountId = Some account ->
  appById (database p) appId = Some app ->
  App.collaborators app !! email = Some c ->
  outcome (addCollaborator accountId appId email) p
  = Rejected (StorageError AlreadyExists None) /\
  stored (addCollaborator accountId appId email) p = database p.
Proof.
  intros Hkey Ha Happ Hc. unfold outcome, stored, addCollaborator. rewrite Hkey.
  await (getApp_found _ _ p _ _ Ha Happ).
  cbn [addIsCurrentAccountProperty App.collaborators].
  rewrite isCollaborator_markCurrent, isOwner_markCurrent.
  by rewrite (member_isCollaborator_or_isOwner _ _ _ Hc).
Qed.

(** [transferApp] resolves the target account by the lower-cased e-mail
    and tests ownership under the e-mail of that account: however the
    e-mail of the owner is spelled, the call is rejected [AlreadyExists]
    before anything is written. *)
Lemma transferApp_owner_already_exists (accountId appId email : string) (p : Pool)
    (account target : Account.row) (app : App.row) :
  isPrototypePollutionKey email = false ->
  accountById (database p) accountId = Some account ->
  appById (database p) appId = Some app ->
  accountByEmail (database p) (toLowerCase email) = Some target ->
  isOwner (App.collaborators app) (Account.email target) = true ->
  outcome (transferApp accountId appId email) p
  = Rejected (StorageError AlreadyExists None) /\
  stored (transferApp accountId appId email) p = database p.
Proof.
  intros Hkey Ha Happ Ht Howner. unfold outcome, stored, transferApp. rewrite Hkey.
  await (getApp_found _ _ p _ _ Ha Happ).
  await getAccount_run. rewrite Ha.
  await getAccountByEmail_run. rewrite Ht.
  cbn [addIsCurrentAccountProperty App.collaborators].
  by rewrite isOwner_markCurrent, Howner.
Qed.

(** ** What each operation leaves in the store *)

Lemma detached_addAppPointer_run accountId appId p :
  exists log,
    detached (addAppPointer accountId appId) p
    = (Resolved tt, mkPool (linked accountId appId (database p)) log).
Proof.
  unfold detached, addAppPointer, linked, query.
  destruct (insertAppLink _ _) as [e|[[] db']]; cbn [snd]; by eexists.
Qed.

Lemma accounts_linked accountId appId db :
  accounts (linked accountId appId db) = accounts db.
Proof. unfold linked, insertAppLink. by destruct (bool_decide _). Qed.

Lemma apps_linked accountId appId db : apps (linked accountId appId db) = apps db.
Proof. unfold linked, insertAppLink. by destruct (bool_decide _). Qed.

Lemma elem_of_linked accountId appId db l :
  l ∈ account_to_apps_map (linked accountId appId db) <->
  l ∈ account_to_apps_map db \/ l = AppLink.mk accountId appId.
Proof.
  unfold linked, insertAppLink.
  destruct (bool_decide _) eqn:E; cbn [account_to_apps_map setAppLinks].
  - apply bool_decide_eq_true in E. split; [by left|]. by intros [H| ->].
  - rewrite elem_of_app, list_elem_of_singleton. done.
Qed.

Lemma accountById_linked a i db accountId :
  accountById (linked a i db) accountId = accountById db accountId.
Proof. unfold accountById. by rewrite accounts_linked. Qed.

Lemma appById_linked a i db appId : appById (linked a i db) appId = appById db appId.
Proof. unfold appById. by rewrite apps_linked. Qed.

(** [transferApp] is rejected without a write, or it resolves after
    persisting the map in which the requester is demoted and the target
    promoted or inserted. *)
Lemma transferApp_shape (accountId appId email : string) (p : Pool) :
  let db := database p in
  let call := transferApp accountId appId email in
  (exists e, outcome call p = Rejected e /\ stored call p = db) \/
  (outcome call p = Resolved tt /\
   exists account app target requester,
     accountById db accountId = Some account /\
     appById db appId = Some app /\
     accountByEmail db (toLowerCase email) = Some target /\
     isOwner (App.collaborators app) (Account.email target) = false /\
     App.collaborators app !! Account.email account = Some requester /\
     let marked := markCurrent (Account.id account) <$> App.collaborators app in
     let demoted :=
       <[ Account.email account :=
            setPermission Collaborator (markCurrent (Account.id account) requester) ]> marked in
     stored call p =
     if isCollaborator demoted (Account.email target)
     then writeApp
            (App.mk appId (App.name app)
               (unmarkCurrent <$> alter (setPermission Owner) (Account.email target) demoted))
            db
     else writeApp
            (App.mk appId (App.name app)
               (unmarkCurrent <$>
                <[ Account.email target := mkCollaborator (Account.id target) Owner None ]>
                  demoted))
            (linked (Account.id target) appId db)).
Proof.
  intros db call. subst db call. unfold outcome, stored, transferApp.
  destruct (isPrototypePollutionKey email); [left; by eexists|].
  destruct (getApp_cases accountId appId p)
    as [(account & app & Ha & Happ & E)|(log & _ & E)]; await E;
    [|left; by eexists].
  await getAccount_run. rewrite Ha.
  await getAccountByEmail_run.
  destruct (accountByEmail (database p) (toLowerCase email)) as [target|] eqn:Ht;
    [|left; by eexists].
  cbn [addIsCurrentAccountProperty App.collaborators App.id].
  rewrite isOwner_markCurrent.
  destruct (isOwner (App.collaborators app) (Account.email target)) eqn:Hown;
    [left; by eexists|].
  rewrite lookup_fmap.
  destruct (App.collaborators app !! Account.email account) as [requester|] eqn:Hreq;
    cbn [fmap option_fmap option_map]; [|left; by eexists].
  right.
  assert (Hid : App.id app = appId) by eauto using appById_id.
  set (marked := markCurrent (Account.id account) <$> App.collaborators app).
  set (demoted := <[ _ := _ ]> marked).
  destruct (isCollaborator demoted (Account.email target)) eqn:Hcol.
  - erewrite updateApp_found; [|exact Ha|simpl; rewrite Hid; exact Happ].
    cbn [fst snd database]. split; [done|].
    exists account, app, target, requester. repeat (split; [done|]).
    fold marked. fold demoted. rewrite Hcol.
    unfold removeIsCurrentAccountProperty, withCollaborators.
    cbn [App.id App.name App.collaborators addIsCurrentAccountProperty]. by rewrite Hid.
  - destruct (detached_addAppPointer_run (Account.id target) (App.id app)
                (mkPool (database p) (SelectAccountByEmail :: SelectAccountById :: SelectAppById
                             :: SelectAccountById :: issued p))) as [log Elog].
    await Elog.
    erewrite updateApp_found;
      [|cbn [database]; rewrite accountById_linked; exact Ha
       |cbn [database withCollaborators App.id addIsCurrentAccountProperty];
        rewrite appById_linked, Hid; exact Happ].
    cbn [fst snd database]. split; [done|].
    exists account, app, target, requester. repeat (split; [done|]).
    fold marked. fold demoted. rewrite Hcol.
    unfold removeIsCurrentAccountProperty, withCollaborators.
    cbn [App.id App.name App.collaborators addIsCurrentAccountProperty]. by rewrite Hid.
Qed.

Lemma not_member_lookup m email :
  isCollaborator m email || isOwner m email = false -> m !! email = None.
Proof.
  destruct (m !! email) as [c|] eqn:E; [|done].
  by rewrite (member_isCollaborator_or_isOwner _ _ _ E).
Qed.

Lemma addAppPointer_run accountId appId p :
  addAppPointer accountId appId p =
  if bool_decide (AppLink.mk accountId appId ∈ account_to_apps_map (database p))
  then (Rejected (UniqueViolation "account_to_apps_map"),
        mkPool (database p) (InsertAppLink :: issued p))
  else (Resolved tt,
        mkPool (setAppLinks (database p)
                  (account_to_apps_map (database p) ++ [AppLink.mk accountId appId]))
          (InsertAppLink :: issued p)).
Proof.
  unfold addAppPointer, query, insertAppLink. by destruct (bool_decide _).
Qed.

(** [addCollaborator] is rejected without a write, or it resolves after
    adding a visibility link and persisting the map with one more
    [Collaborator] entry. *)
Lemma addCollaborator_shape (accountId appId email : string) (p : Pool) :
  let db := database p in
  let call := addCollaborator accountId appId email in
  (exists e, outcome call p = Rejected e /\ stored call p = db) \/
  (outcome call p = Resolved tt /\
   exists account app target,
     accountById db accountId = Some account /\
     appById db appId = Some app /\
     App.collaborators app !! email = None /\
     accountByEmail db (toLowerCase email) = Some target /\
     (AppLink.mk (Account.id target) appId ∉ account_to_apps_map db) /\
     stored call p =
     writeApp
       (App.mk appId (App.name app)
          (unmarkCurrent <$>
           <[ Account.email target := mkCollaborator (Account.id target) Collaborator None ]>
             (markCurrent (Account.id account) <$> App.collaborators app)))
       (setAppLinks db (account_to_apps_map db ++ [AppLink.mk (Account.id target) appId]))).
Proof.
  intros db call. subst db call. unfold outcome, stored, addCollaborator.
  destruct (isPrototypePollutionKey email); [left; by eexists|].
  destruct (getApp_cases accountId appId p)
    as [(account & app & Ha & Happ & E)|(log & _ & E)]; await E;
    [|left; by eexists].
  cbn [addIsCurrentAccountProperty App.collaborators App.id App.name withCollaborators].
  rewrite isCollaborator_markCurrent, isOwner_markCurrent.
  destruct (isCollaborator (App.collaborators app) email
            || isOwner (App.collaborators app) email) eqn:Hmem; [left; by eexists|].
  apply not_member_lookup in Hmem.
  await getAccountByEmail_run.
  destruct (accountByEmail (database p) (toLowerCase email)) as [target|] eqn:Ht;
    [|left; by eexists].
  assert (Hid : App.id app = appId) by eauto using appById_id.
  rewrite Hid. await addAppPointer_run.
  destruct (bool_decide _) eqn:Hlink; [left; by eexists|].
  apply bool_decide_eq_false in Hlink.
  erewrite updateApp_found; [|exact Ha|simpl; rewrite Hid; exact Happ].
  right. cbn [fst snd database]. split; [done|].
  exists account, app, target. repeat (split; [done|]).
  unfold removeIsCurrentAccountProperty.
  cbn [App.id App.name App.collaborators withCollaborators addIsCurrentAccountProperty].
  by rewrite Hid.
Qed.

(** [removeCollaborator] is rejected without a write, or it resolves
    after deleting the visibility link of the target and persisting the
    map without the target's entry. *)
Lemma removeCollaborator_shape (accountId appId email : string) (p : Pool) :
  let db := database p in
  let call := removeCollaborator accountId appId email in
  (exists e, outcome call p = Rejected e /\ stored call p = db) \/
  (outcome call p = Resolved tt /\
   exists account app target,
     accountById db accountId = Some account /\
     appById db appId = Some app /\
     isCollaborator (App.collaborators app) email = true /\
     accountByEmail db (toLowerCase email) = Some target /\
     stored call p =
     writeApp
       (App.mk appId (App.name app)
          (roundTrip (Account.id account) <$> delete email (App.collaborators app)))
       (setAppLinks db
          (filter (fun l => l <> AppLink.mk (Account.id target) appId)
             (account_to_apps_map db)))).
Proof.
  intros db call. subst db call. unfold outcome, stored, removeCollaborator.
  destruct (getApp_cases accountId appId p)
    as [(account & app & Ha & Happ & E)|(log & _ & E)]; await E;
    [|left; by eexists].
  cbn [addIsCurrentAccountProperty App.collaborators].
  rewrite isOwner_markCurrent.
  destruct (isOwner (App.collaborators app) email); [left; by eexists|].
  await getAccountByEmail_run.
  destruct (accountByEmail (database p) (toLowerCase email)) as [target|] eqn:Ht;
    [|left; by eexists].
  rewrite isCollaborator_markCurrent.
  destruct (isCollaborator (App.collaborators app) email) eqn:Hcol;
    [|left; by eexists].
  destruct (truthyString (Account.id target)); cbn [negb orb]; [|left; by eexists].
  unfold removeAppPointer. await execute_run.
  assert (Hid : App.id app = appId) by eauto using appById_id.
  erewrite updateApp_found;
    [|exact Ha|simpl; rewrite Hid; exact Happ].
  right. cbn [fst snd database]. split; [done|].
  exists account, app, target. repeat (split; [done|]).
  rewrite <- fmap_delete.
  change (App.mk (App.id app) (App.name app)
            (markCurrent (Account.id account) <$> App.collaborators app))
    with (addIsCurrentAccountProperty app (Account.id account)).
  by rewrite removeIsCurrentAccountProperty_roundTrip, Hid.
Qed.

Lemma insertApp_run (row : App.row) (p : Pool) :
  query InsertApp (insertApp row) p =
  if bool_decide (App.id row ∈ App.id <$> apps (database p))
  then (Rejected (UniqueViolation "apps"), mkPool (database p) (InsertApp :: issued p))
  else (Resolved tt,
        mkPool (setApps (database p) (apps (database p) ++ [row])) (InsertApp :: issued p)).
Proof. unfold query, insertApp. by destruct (bool_decide _). Qed.

(** [addApp] resolves only after inserting the app row, with the
    requester as its single owner, and the visibility link of the
    requester. *)
Lemma addApp_resolved (newId accountId : string) (app : App.row) (p p' : Pool) (r : App.row) :
  addApp newId accountId app p = (Resolved r, p') ->
  exists account,
    accountById (database p) accountId = Some account /\
    (newId ∉ App.id <$> apps (database p)) /\
    r = App.mk newId (App.name app)
          {[ Account.email account := mkCollaborator accountId Owner None ]} /\
    database p' =
    setAppLinks (setApps (database p) (apps (database p) ++ [r]))
      (account_to_apps_map (database p) ++ [AppLink.mk (Account.id account) newId]).
Proof.
  unfold addApp. await getAccount_run.
  destruct (accountById (database p) accountId) as [account|] eqn:Ha; [|done].
  await insertApp_run. cbn [App.id].
  destruct (bool_decide (newId ∈ App.id <$> apps (database p))) eqn:Hnew; [done|].
  apply bool_decide_eq_false in Hnew.
  await addAppPointer_run. cbn [setApps account_to_apps_map].
  destruct (bool_decide _) eqn:Hlink; [done|].
  rewrite resolve_run. intros [= <- <-].
  exists account. done.
Qed.

(** ** Counting owners *)

Lemma ownerCount_insert_fresh m k c :
  m !! k = None -> ownerCount (<[k:=c]> m) = ownerWeight c + ownerCount m.
Proof.
  intros Hk. unfold ownerCount, ownerWeight. rewrite map_filter_insert. cbn [snd].
  destruct (decide (permission c = Owner)).
  - rewrite map_size_insert_None; [done|].
    apply map_lookup_filter_None. by left.
  - by rewrite delete_id.
Qed.

Lemma ownerCount_delete m k :
  ownerCount m = from_option ownerWeight 0 (m !! k) + ownerCount (delete k m).
Proof.
  destruct (m !! k) as [c|] eqn:Hk; cbn [from_option].
  - rewrite <- (insert_delete_id m k c Hk) at 1.
    apply ownerCount_insert_fresh, lookup_delete_eq.
  - by rewrite delete_id.
Qed.

Lemma ownerCount_insert m k c :
  ownerCount (<[k:=c]> m) = ownerWeight c + ownerCount (delete k m).
Proof.
  rewrite <- insert_delete_eq. apply ownerCount_insert_fresh, lookup_delete_eq.
Qed.

Lemma ownerCount_alter f m k c :
  m !! k = Some c ->
  ownerCount (alter f k m) = ownerWeight (f c) + ownerCount (delete k m).
Proof.
  intros Hk. rewrite <- (insert_id m k c Hk) at 1.
  rewrite alter_insert_eq. apply ownerCount_insert.
Qed.

Lemma ownerCount_fmap f m :
  (forall c, permission (f c) = permission c) -> ownerCount (f <$> m) = ownerCount m.
Proof.
  intros Hf. unfold ownerCount. rewrite map_filter_fmap, map_size_fmap.
  f_equal. apply map_filter_ext. intros k c _. cbn [snd]. by rewrite Hf.
Qed.

Lemma ownerCount_singleton k c : ownerCount {[k := c]} = ownerWeight c.
Proof.
  rewrite <- insert_empty, ownerCount_insert_fresh by apply lookup_empty.
  unfold ownerCount. rewrite map_filter_empty, map_size_empty. lia.
Qed.

Lemma permission_roundTrip current c : permission (roundTrip current c) = permission c.
Proof. unfold roundTrip. by rewrite permission_unmarkCurrent, permission_markCurrent. Qed.

Lemma accountId_roundTrip current c : accountId (roundTrip current c) = accountId c.
Proof. unfold roundTrip. by rewrite accountId_unmarkCurrent, accountId_markCurrent. Qed.

(** ** Consistency of the store *)

Lemma appConsistent_links db db' app :
  accounts db' = accounts db ->
  (forall e c, App.collaborators app !! e = Some c ->
               AppLink.mk (accountId c) (App.id app) ∈ account_to_apps_map db ->
               AppLink.mk (accountId c) (App.id app) ∈ account_to_apps_map db') ->
  appConsistent db app -> appConsistent db' app.
Proof.
  intros Hacc Hlinks [Hone Hentries]. split; [done|].
  intros e c Hc. destruct (Hentries e c Hc) as [Ha Hl]. split.
  - unfold accountByEmail in *. by rewrite Hacc.
  - eauto.
Qed.

Lemma accountsWellFormed_accounts db db' :
  accounts db' = accounts db -> accountsWellFormed db -> accountsWellFormed db'.
Proof. unfold accountsWellFormed. by intros ->. Qed.

Lemma Consistent_writeApp (db : Database) (row : App.row) :
  accountsWellFormed db ->
  (forall app, app ∈ apps db -> App.id app <> App.id row -> appConsistent db app) ->
  appConsistent db row ->
  Consistent (writeApp row db).
Proof.
  intros Hacc Hothers Hrow. split; [done|].
  intros app Happ. cbn [writeApp setApps apps] in Happ.
  apply list_elem_of_fmap in Happ as (old & -> & Hold).
  destruct (bool_decide (App.id old = App.id row)) eqn:Hid.
  - apply bool_decide_eq_true in Hid. destruct Hrow as [Hone Hentries].
    split; cbn [App.collaborators App.id]; [done|]. rewrite Hid. done.
  - apply bool_decide_eq_false in Hid.
    apply (appConsistent_links db); [done|done|]. by apply Hothers.
Qed.

Lemma NoDup_fmap_elem_of_eq {A B} (f : A -> B) (l : list A) (x y : A) :
  NoDup (f <$> l) -> x ∈ l -> y ∈ l -> f x = f y -> x = y.
Proof.
  induction l as [|z l IH]; [by intros _ ?%elem_of_nil|].
  rewrite fmap_cons, NoDup_cons. intros [Hz Hl] Hx Hy Hf.
  apply elem_of_cons in Hx as [->|Hx], Hy as [->|Hy]; [done| | |by apply IH].
  - destruct Hz. rewrite Hf. by apply list_elem_of_fmap_2.
  - destruct Hz. rewrite <- Hf. by apply list_elem_of_fmap_2.
Qed.

(** With unique e-mails, the account found by e-mail is the account. *)
Lemma accountByEmail_unique db account :
  accountsWellFormed db -> account ∈ accounts db ->
  accountByEmail db (Account.email account) = Some account.
Proof.
  intros (_ & Hemails & _) Hin.
  destruct (head_filter_elem_of (fun a => Account.email a = Account.email account)
              (accounts db) account Hin eq_refl) as [a Ha].
  assert (a = account); [|by subst].
  eapply (NoDup_fmap_elem_of_eq Account.email); eauto using accountByEmail_elem_of.
  by apply accountByEmail_email in Ha.
Qed.

Lemma accountByEmail_lowercase db email account :
  accountsWellFormed db -> accountByEmail db email = Some account ->
  toLowerCase email = email.
Proof.
  intros (_ & _ & Hlow) Ha.
  rewrite <- (accountByEmail_email _ _ _ Ha).
  eauto using accountByEmail_elem_of.
Qed.

Lemma Consistent_addApp newId accountId app p p' r :
  Consistent (database p) ->
  addApp newId accountId app p = (Resolved r, p') ->
  Consistent (database p').
Proof.
  intros [Hacc Happs] Hrun.
  apply addApp_resolved in Hrun as (account & Ha & Hnew & -> & ->).
  split; [done|]. intros row Hrow.
  cbn [setAppLinks setApps apps] in Hrow. apply elem_of_app in Hrow as [Hrow|Hrow].
  - apply (appConsistent_links (database p)); [done| |by apply Happs].
    intros e c _ Hl. cbn [setAppLinks account_to_apps_map]. apply elem_of_app. by left.
  - apply list_elem_of_singleton in Hrow as ->. split; cbn [App.collaborators App.id].
    + rewrite ownerCount_singleton. done.
    + intros e c [<- <-]%lookup_singleton_Some. cbn [CollaboratorProperties.accountId]. split.
      * exists account. split; [|eauto using accountById_id].
        apply (accountByEmail_unique (database p)); eauto using accountById_elem_of.
      * cbn [setAppLinks account_to_apps_map]. apply elem_of_app. right.
        rewrite (accountById_id _ _ _ Ha). apply list_elem_of_singleton. done.
Qed.

Lemma isOwner_true m k : isOwner m k = true -> exists c, m !! k = Some c /\ permission c = Owner.
Proof.
  unfold isOwner. destruct (m !! k) as [c|]; [|done].
  intros H%bool_decide_eq_true. eauto.
Qed.

Lemma isCollaborator_true m k :
  isCollaborator m k = true -> exists c, m !! k = Some c /\ permission c = Collaborator.
Proof.
  unfold isCollaborator. destruct (m !! k) as [c|]; [|done].
  intros H%bool_decide_eq_true. eauto.
Qed.

Lemma ownerWeight_Owner c : permission c = Owner -> ownerWeight c = 1.
Proof. unfold ownerWeight. intros ->. done. Qed.

Lemma ownerWeight_Collaborator c : permission c = Collaborator -> ownerWeight c = 0.
Proof. unfold ownerWeight. intros ->. done. Qed.

Lemma Consistent_transferApp accountId appId email p :
  Consistent (database p) ->
  requesterIsOwner (database p) accountId appId = true ->
  outcome (transferApp accountId appId email) p = Resolved tt ->
  Consistent (stored (transferApp accountId appId email) p).
Proof.
  intros [Hacc Happs] Hreq Hres.
  destruct (transferApp_shape accountId appId email p)
    as [(e & Hrej & _)|(_ & account & app & target & requester
                        & Ha & Happ & Ht & Hown & Hr & Hst)];
    [congruence|].
  unfold requesterIsOwner in Hreq. rewrite Ha, Happ in Hreq.
  cbv zeta in Hst. rewrite Hst. clear Hst Hres.
  set (m := App.collaborators app) in *.
  set (re := Account.email account) in *.
  set (te := Account.email target) in *.
  set (marked := markCurrent (Account.id account) <$> m).
  set (demoted := <[re := setPermission Collaborator
                            (markCurrent (Account.id account) requester)]> marked).
  destruct (Happs app (appById_elem_of _ _ _ Happ)) as [Hone Hentries].
  fold m in Hone, Hentries. rewrite (appById_id _ _ _ Happ) in Hentries.
  assert (Hne : te <> re) by (intros E; rewrite E in Hown; congruence).
  assert (Hmarked : ownerCount marked = 1).
  { unfold marked. rewrite ownerCount_fmap; [done|]. apply permission_markCurrent. }
  assert (Hrest : ownerCount (delete re marked) = 0).
  { pose proof (ownerCount_delete marked re) as Hd.
    unfold marked at 2 in Hd. rewrite lookup_fmap, Hr in Hd. cbn in Hd.
    rewrite ownerWeight_Owner in Hd; [lia|].
    rewrite permission_markCurrent.
    apply isOwner_true in Hreq as (c & Hc & Hp). congruence. }
  assert (Hdemoted : ownerCount demoted = 0).
  { unfold demoted. rewrite ownerCount_insert, Hrest. done. }
  assert (Hte : demoted !! te = marked !! te).
  { unfold demoted. by rewrite lookup_insert_ne. }
  assert (Hkeys : forall e c, demoted !! e = Some c ->
                    exists c0, m !! e = Some c0 /\
                      CollaboratorProperties.accountId c = CollaboratorProperties.accountId c0).
  { intros e c. unfold demoted. rewrite lookup_insert. case_decide as Hk.
    - intros [= <-]. subst e. exists requester. split; [done|].
      cbn [setPermission CollaboratorProperties.accountId]. apply accountId_markCurrent.
    - unfold marked. rewrite lookup_fmap. destruct (m !! e) as [c0|]; [|done].
      intros [= <-]. exists c0. split; [done|]. apply accountId_markCurrent. }
  destruct (isCollaborator demoted te) eqn:Hcol.
  - apply isCollaborator_true in Hcol as (x & Hx & Hpx).
    apply Consistent_writeApp; [done|by auto|].
    split; cbn [App.collaborators App.id].
    + rewrite ownerCount_fmap by apply permission_unmarkCurrent.
      rewrite (ownerCount_alter _ _ _ _ Hx).
      pose proof (ownerCount_delete demoted te) as Hd. rewrite Hx in Hd.
      cbn [from_option] in Hd. rewrite ownerWeight_Collaborator in Hd by done.
      rewrite ownerWeight_Owner by done. lia.
    + intros e c. rewrite lookup_fmap, lookup_alter. intros Hc.
      assert (exists c1, demoted !! e = Some c1 /\
                         CollaboratorProperties.accountId c
                         = CollaboratorProperties.accountId c1)
        as (c1 & Hc1 & Hid).
      { case_decide as Hk.
        - subst e. rewrite Hx in Hc. cbn in Hc. injection Hc as <-.
          exists x. split; [done|]. by rewrite accountId_unmarkCurrent.
        - destruct (demoted !! e) as [c1|] eqn:Hc1; [|done].
          cbn in Hc. injection Hc as <-.
          exists c1. split; [done|]. by rewrite accountId_unmarkCurrent. }
      destruct (Hkeys e c1 Hc1) as (c0 & Hc0 & Hid0).
      rewrite Hid, Hid0. by apply Hentries.
  - assert (Hfresh : demoted !! te = None).
    { rewrite Hte. unfold marked. rewrite lookup_fmap.
      rewrite (not_member_lookup m te); [done|].
      rewrite Hown, orb_false_r.
      rewrite <- (isCollaborator_markCurrent (Account.id account)).
      fold marked. unfold isCollaborator in *. by rewrite <- Hte. }
    apply Consistent_writeApp.
    + apply (accountsWellFormed_accounts (database p)); [apply accounts_linked|done].
    + intros a Hin _. rewrite apps_linked in Hin.
      apply (appConsistent_links (database p)); [apply accounts_linked| |by auto].
      intros ? ? _ ?. apply elem_of_linked. by left.
    + split; cbn [App.collaborators App.id].
      * rewrite ownerCount_fmap by apply permission_unmarkCurrent.
        rewrite ownerCount_insert_fresh by done. rewrite Hdemoted. done.
      * intros e c. rewrite lookup_fmap, lookup_insert. case_decide as Hk.
        -- intros [= <-]. subst e.
           cbn [unmarkCurrent isCurrentAccount truthyFlag default
                CollaboratorProperties.accountId].
           split.
           ++ exists target. split; [|done]. unfold accountByEmail.
              rewrite accounts_linked. fold (accountByEmail (database p) te).
              unfold te. rewrite (accountByEmail_email _ _ _ Ht). done.
           ++ apply elem_of_linked. by right.
        -- destruct (demoted !! e) as [c1|] eqn:Hc1; [|done]. intros [= <-].
           destruct (Hkeys e c1 Hc1) as (c0 & Hc0 & Hid0).
           rewrite accountId_unmarkCurrent, Hid0.
           destruct (Hentries e c0 Hc0) as [Hacct Hlink]. split.
           ++ unfold accountByEmail in *. by rewrite accounts_linked.
           ++ apply elem_of_linked. by left.
Qed.

Lemma Consistent_addCollaborator accountId appId email p :
  Consistent (database p) ->
  outcome (addCollaborator accountId appId email) p = Resolved tt ->
  Consistent (stored (addCollaborator accountId appId email) p).
Proof.
  intros [Hacc Happs] Hres.
  destruct (addCollaborator_shape accountId appId email p)
    as [(e & Hrej & _)|(_ & account & app & target & Ha & Happ & Hraw & Ht & Hlink & Hst)];
    [congruence|].
  rewrite Hst. clear Hst Hres.
  set (m := App.collaborators app) in *.
  set (te := Account.email target) in *.
  set (marked := markCurrent (Account.id account) <$> m).
  destruct (Happs app (appById_elem_of _ _ _ Happ)) as [Hone Hentries].
  fold m in Hone, Hentries. rewrite (appById_id _ _ _ Happ) in Hentries.
  assert (Hte : te = toLowerCase email) by eauto using accountByEmail_email.
  assert (Hfresh : marked !! te = None).
  { unfold marked. rewrite lookup_fmap.
    destruct (m !! te) as [c|] eqn:Hc; [|done]. exfalso.
    destruct (Hentries te c Hc) as [(a & Hfind & Hid) Hl].
    rewrite Hte, Ht in Hfind. injection Hfind as <-. rewrite <- Hid in Hl. done. }
  apply Consistent_writeApp; [done| |].
  - intros a Hin _. apply (appConsistent_links (database p)); [done| |by auto].
    intros ? ? _ ?. cbn [setAppLinks account_to_apps_map]. apply elem_of_app. by left.
  - split; cbn [App.collaborators App.id].
    + rewrite ownerCount_fmap by apply permission_unmarkCurrent.
      rewrite ownerCount_insert_fresh by done.
      unfold marked. rewrite ownerCount_fmap by apply permission_markCurrent.
      rewrite ownerWeight_Collaborator by done. done.
    + intros e c. rewrite lookup_fmap, lookup_insert. case_decide as Hk.
      * intros [= <-]. subst e.
        cbn [unmarkCurrent isCurrentAccount truthyFlag default CollaboratorProperties.accountId].
        split.
        -- exists target. split; [|done]. rewrite Hte. exact Ht.
        -- cbn [setAppLinks account_to_apps_map]. apply elem_of_app. right.
           by apply list_elem_of_singleton.
      * unfold marked. rewrite lookup_fmap.
        destruct (m !! e) as [c0|] eqn:Hc0; [|done]. intros [= <-].
        rewrite accountId_unmarkCurrent, accountId_markCurrent.
        destruct (Hentries e c0 Hc0) as [Hacct Hl]. split; [done|].
        cbn [setAppLinks account_to_apps_map]. apply elem_of_app. by left.
Qed.

Lemma Consistent_removeCollaborator accountId appId email p :
  Consistent (database p) ->
  outcome (removeCollaborator accountId appId email) p = Resolved tt ->
  Consistent (stored (removeCollaborator accountId appId email) p).
Proof.
  intros [Hacc Happs] Hres.
  destruct (removeCollaborator_shape accountId appId email p)
    as [(e & Hrej & _)|(_ & account & app & target & Ha & Happ & Hcol & Ht & Hst)];
    [congruence|].
  rewrite Hst. clear Hst Hres.
  set (m := App.collaborators app) in *.
  destruct (Happs app (appById_elem_of _ _ _ Happ)) as [Hone Hentries].
  fold m in Hone, Hentries. rewrite (appById_id _ _ _ Happ) in Hentries.
  apply isCollaborator_true in Hcol as (cc & Hcc & Hpc).
  assert (Hlow : toLowerCase email = email).
  { destruct (Hentries email cc Hcc) as [(a & Hfind & _) _].
    eauto using accountByEmail_lowercase. }
  apply Consistent_writeApp; [done| |].
  - intros a Hin Hne. apply (appConsistent_links (database p)); [done| |by auto].
    intros e c _ Hl. cbn [setAppLinks account_to_apps_map].
    apply list_elem_of_filter. split; [|done].
    intros [= _ Hid]. by cbn [App.id] in Hne.
  - split; cbn [App.collaborators App.id].
    + rewrite ownerCount_fmap by apply permission_roundTrip.
      pose proof (ownerCount_delete m email) as Hd. rewrite Hcc in Hd.
      cbn [from_option] in Hd. rewrite ownerWeight_Collaborator in Hd by done. lia.
    + intros e c. rewrite lookup_fmap, lookup_delete. case_decide as Hk; [done|].
      destruct (m !! e) as [c0|] eqn:Hc0; [|done]. intros [= <-].
      rewrite accountId_roundTrip.
      destruct (Hentries e c0 Hc0) as [(a & Hfind & Hid) Hl]. split; [by eauto|].
      cbn [setAppLinks account_to_apps_map].
      apply list_elem_of_filter. split; [|done].
      intros [= Hsame]. apply Hk.
      assert (a = target) as ->.
      { destruct Hacc as (Hids & _ & _).
        eapply (NoDup_fmap_elem_of_eq Account.id);
          eauto using accountByEmail_elem_of. congruence. }
      rewrite <- (accountByEmail_email _ _ _ Hfind), (accountByEmail_email _ _ _ Ht).
      done.
Qed.

(** ** One owner per app *)

Lemma lowerAscii_idempotent c : lowerAscii (lowerAscii c) = lowerAscii c.
Proof. by destruct c as [[] [] [] [] [] [] [] []]. Qed.

Lemma toLowerCase_idempotent s : toLowerCase (toLowerCase s) = toLowerCase s.
Proof.
  induction s as [|c s IH]; [done|]. cbn [toLowerCase].
  by rewrite lowerAscii_idempotent, IH.
Qed.

(** [addAccount] resolves only after appending a row with a fresh id and
    a fresh e-mail in lower case. *)
Lemma addAccount_resolved newId account p p' r :
  addAccount newId account p = (Resolved r, p') ->
  let row := Account.mk newId (Account.name account) (toLowerCase (Account.email account))
               (Account.gitHubId account) in
  (newId ∉ Account.id <$> accounts (database p)) /\
  (toLowerCase (Account.email account) ∉ Account.email <$> accounts (database p)) /\
  database p' = setAccounts (database p) (accounts (database p) ++ [row]).
Proof.
  unfold addAccount. rewrite bind_run. unfold attempt. rewrite getAccountByEmail_run.
  destruct (accountByEmail _ _); [done|]. cbn [codeOf].
  rewrite bool_decide_eq_true_2 by done.
  unfold query, insertAccount. cbn [database issued Account.id Account.email].
  destruct (bool_decide (newId ∈ _)) eqn:Hid; [done|].
  destruct (bool_decide (toLowerCase _ ∈ _)) eqn:Hemail; [done|].
  apply bool_decide_eq_false in Hid, Hemail.
  cbn [orb]. by intros [= _ <-].
Qed.

Lemma accountByEmail_snoc db row e a :
  accountByEmail db e = Some a ->
  accountByEmail (setAccounts db (accounts db ++ [row])) e = Some a.
Proof.
  unfold accountByEmail. cbn [setAccounts accounts]. rewrite filter_app.
  destruct (filter _ (accounts db)); [done|]. done.
Qed.

Lemma Consistent_addAccount newId account p p' r :
  Consistent (database p) ->
  addAccount newId account p = (Resolved r, p') ->
  Consistent (database p').
Proof.
  intros [(Hids & Hemails & Hlow) Happs] Hrun.
  apply addAccount_resolved in Hrun as (Hid & Hemail & ->). cbv zeta.
  split; [split; [|split]|]; cbn [setAccounts accounts apps].
  - rewrite fmap_app. apply NoDup_app. split; [done|]. split.
    + intros x Hx [= ->]%list_elem_of_singleton. done.
    + apply NoDup_singleton.
  - rewrite fmap_app. apply NoDup_app. split; [done|]. split.
    + intros x Hx [= ->]%list_elem_of_singleton. done.
    + apply NoDup_singleton.
  - intros a [Ha| ->%list_elem_of_singleton]%elem_of_app; [by apply Hlow|].
    apply toLowerCase_idempotent.
  - intros app Happ. destruct (Happs app Happ) as [Hone Hentries].
    split; [done|]. intros e c Hc. destruct (Hentries e c Hc) as [(a & Ha & Hida) Hl].
    split; [|done]. exists a. split; [|done]. by apply accountByEmail_snoc.
Qed.

Lemma Consistent_perform op p p' u :
  Consistent (database p) ->
  byOwner op p = true ->
  perform op p = (Resolved u, p') ->
  Consistent (database p').
Proof.
  intros Hcons Hby Hrun.
  destruct op as [newId account|newId a app|a i e|a i e|a i e]; cbn in Hrun, Hby.
  - rewrite bind_run in Hrun.
    destruct (addAccount newId account p) as [[r|?|?] p1] eqn:E; try done.
    rewrite resolve_run in Hrun. injection Hrun as _ <-.
    eauto using Consistent_addAccount.
  - rewrite bind_run in Hrun.
    destruct (addApp newId a app p) as [[r|?|?] p1] eqn:E; try done.
    rewrite resolve_run in Hrun. injection Hrun as _ <-.
    eauto using Consistent_addApp.
  - pose proof (Consistent_transferApp a i e p Hcons Hby) as H.
    unfold outcome, stored in H. rewrite Hrun in H. destruct u. by apply H.
  - pose proof (Consistent_addCollaborator a i e p Hcons) as H.
    unfold outcome, stored in H. rewrite Hrun in H. destruct u. by apply H.
  - pose proof (Consistent_removeCollaborator a i e p Hcons) as H.
    unfold outcome, stored in H. rewrite Hrun in H. destruct u. by apply H.
Qed.

Lemma Consistent_performAllByOwner ops p p' :
  Consistent (database p) -> performAllByOwner ops p = Some p' -> Consistent (database p').
Proof.
  revert p. induction ops as [|op ops IH]; intros p Hcons Hrun; cbn in Hrun.
  - by injection Hrun as <-.
  - destruct (byOwner op p) eqn:Hby; [|done].
    destruct (perform op p) as [[u|?|?] p1] eqn:E; try done.
    eauto using Consistent_perform.
Qed.

Lemma performAllByOwner_take ops p p' n :
  performAllByOwner ops p = Some p' ->
  exists pn, performAllByOwner (take n ops) p = Some pn.
Proof.
  revert p n. induction ops as [|op ops IH]; intros p n Hrun.
  - rewrite take_nil. by exists p.
  - destruct n as [|n]; [by exists p|]. cbn in *.
    destruct (byOwner op p); [|done].
    destruct (perform op p) as [[u|?|?] p1]; try done. eauto.
Qed.

Lemma Consistent_no_apps db : accountsWellFormed db -> apps db = [] -> Consistent db.
Proof. intros Hacc Hnone. split; [done|]. rewrite Hnone. by intros app ?%elem_of_nil. Qed.

Lemma emptyStore_consistent : Consistent (database emptyStore).
Proof.
  apply Consistent_no_apps; [|done]. split; [|split].
  - apply NoDup_nil_2.
  - apply NoDup_nil_2.
  - by intros a ?%elem_of_nil.
Qed.

(** C1, as amended.  Start from a consistent store (unique account ids
    and e-mails, e-mails in lower case, one owner per app, every entry
    keyed by the e-mail of its account and backed by a visibility link -
    in particular the empty store).  After each operation of a sequence
    of [addApp], [transferApp], [addCollaborator] and [removeCollaborator]
    calls, possibly with registrations of accounts in between, that all
    resolve and in which every [transferApp] is issued by the account
    that holds [Owner], every app has exactly one entry whose permission
    is [Owner]. *)
Theorem one_owner_after_each_operation (ops : list Operation) (p p' : Pool) (n : nat) :
  Consistent (database p) ->
  performAllByOwner ops p = Some p' ->
  exists pn,
    performAllByOwner (take n ops) p = Some pn /\
    forall app, app ∈ apps (database pn) -> ownerCount (App.collaborators app) = 1.
Proof.
  intros Hcons Hrun.
  destruct (performAllByOwner_take ops p p' n Hrun) as [pn Hn].
  exists pn. split; [done|]. intros app Happ.
  by destruct (Consistent_performAllByOwner _ _ _ Hcons Hn) as [_ Happs],
       (Happs app Happ).
Qed.

Lemma one_owner_after_each_operation_witness :
  exists pn,
    performAllByOwner (take 6 ownerTransfers) emptyStore = Some pn /\
    forall app, app ∈ apps (database pn) -> ownerCount (App.collaborators app) = 1.
Proof.
  eapply (one_owner_after_each_operation ownerTransfers emptyStore _ 6).
  - exact emptyStore_consistent.
  - vm_compute. reflexivity.
Defined.

(** C1, as stated, fails: on the empty store every call resolves, the
    transfer is issued by a collaborator, and the app is left with two
    owners. *)
Lemma collaborator_transfer_two_owners :
  ownerCounts <$> performAll collaboratorTransfers emptyStore = Some [2] /\
  ~ (forall p', performAll collaboratorTransfers emptyStore = Some p' ->
                forall app, app ∈ apps (database p') ->
                            ownerCount (App.collaborators app) = 1).
Proof.
  assert (E : ownerCounts <$> performAll collaboratorTransfers emptyStore = Some [2])
    by (vm_compute; reflexivity).
  split; [exact E|]. intros Hone.
  destruct (performAll collaboratorTransfers emptyStore) as [p'|]; [|discriminate E].
  injection E as E. unfold ownerCounts in E.
  destruct (apps (database p')) as [|app rest] eqn:Happs; [discriminate E|].
  injection E as Hcount _.
  specialize (Hone p' eq_refl app). rewrite Happs in Hone.
  rewrite Hone in Hcount by left. discriminate Hcount.
Qed.

(** ** The transient annotation *)

Lemma isCurrentAccount_unmarkCurrent c :
  isCurrentAccount (unmarkCurrent c) <> Some true /\
  (isCurrentAccount c <> Some false -> isCurrentAccount (unmarkCurrent c) = None) /\
  (isCurrentAccount (unmarkCurrent c) = Some false -> isCurrentAccount c = Some false).
Proof.
  unfold unmarkCurrent. destruct c as [a q [[|]|]]; cbn; repeat split; congruence.
Qed.

Lemma isCurrentAccount_markCurrent current c :
  isCurrentAccount c = None -> isCurrentAccount (markCurrent current c) <> Some false.
Proof. unfold markCurrent. destruct (bool_decide _); cbn; congruence. Qed.

Lemma isCurrentAccount_roundTrip current c :
  isCurrentAccount c = None -> isCurrentAccount (roundTrip current c) = None.
Proof.
  intros Hc. unfold roundTrip.
  by apply isCurrentAccount_unmarkCurrent, isCurrentAccount_markCurrent.
Qed.

Lemma unannotated_writeApp db appId name F :
  (forall e c, F !! e = Some c -> isCurrentAccount c = None) ->
  unannotated db -> unannotated (writeApp (App.mk appId name F) db).
Proof.
  intros HF Hdb app e c Happ Hc. cbn [writeApp setApps apps App.id] in Happ.
  apply list_elem_of_fmap in Happ as (old & -> & Hold).
  destruct (bool_decide (App.id old = appId)); cbn [App.collaborators] in Hc; eauto.
Qed.

Lemma unannotated_apps db db' : apps db' = apps db -> unannotated db -> unannotated db'.
Proof. unfold unannotated. by intros ->. Qed.

Lemma unannotated_unmarkCurrent (X : gmap string CollaboratorProperties) :
  (forall e x, X !! e = Some x -> isCurrentAccount x <> Some false) ->
  forall e c, (unmarkCurrent <$> X) !! e = Some c -> isCurrentAccount c = None.
Proof.
  intros HX e c. rewrite lookup_fmap. destruct (X !! e) as [x|] eqn:Hx; [|done].
  intros [= <-]. apply isCurrentAccount_unmarkCurrent. eauto.
Qed.

Lemma unannotated_transferApp accountId appId email p :
  unannotated (database p) ->
  unannotated (stored (transferApp accountId appId email) p).
Proof.
  intros Hdb.
  destruct (transferApp_shape accountId appId email p)
    as [(e & _ & ->)|(_ & account & app & target & requester
                      & Ha & Happ & Ht & Hown & Hr & Hst)]; [done|].
  cbv zeta in Hst. rewrite Hst. clear Hst.
  set (m := App.collaborators app) in *.
  set (marked := markCurrent (Account.id account) <$> m).
  set (demoted := <[_ := _]> marked).
  assert (Hm : forall e c, m !! e = Some c -> isCurrentAccount c = None)
    by (intros e c; apply Hdb; eauto using appById_elem_of).
  assert (Hdemoted : forall e x, demoted !! e = Some x -> isCurrentAccount x <> Some false).
  { intros e x. unfold demoted. rewrite lookup_insert. case_decide.
    - intros [= <-]. cbn [setPermission isCurrentAccount].
      by apply isCurrentAccount_markCurrent, (Hm _ _ Hr).
    - unfold marked. rewrite lookup_fmap. destruct (m !! e) as [c0|] eqn:Hc0; [|done].
      intros [= <-]. by apply isCurrentAccount_markCurrent, (Hm e). }
  destruct (isCollaborator demoted (Account.email target)).
  - apply unannotated_writeApp; [|done]. apply unannotated_unmarkCurrent.
    intros e x. rewrite lookup_alter. case_decide.
    + destruct (demoted !! Account.email target) as [y|] eqn:Hy; [|done].
      intros [= <-]. cbn [setPermission isCurrentAccount]. eauto.
    + eauto.
  - apply unannotated_writeApp.
    + apply unannotated_unmarkCurrent. intros e x. rewrite lookup_insert. case_decide.
      * by intros [= <-].
      * eauto.
    + apply (unannotated_apps (database p)); [apply apps_linked|done].
Qed.

Lemma unannotated_addCollaborator accountId appId email p :
  unannotated (database p) ->
  unannotated (stored (addCollaborator accountId appId email) p).
Proof.
  intros Hdb.
  destruct (addCollaborator_shape accountId appId email p)
    as [(e & _ & ->)|(_ & account & app & target & Ha & Happ & Hraw & Ht & Hlink & ->)];
    [done|].
  apply unannotated_writeApp; [|by apply (unannotated_apps (database p))].
  apply unannotated_unmarkCurrent. intros e x. rewrite lookup_insert. case_decide.
  - by intros [= <-].
  - rewrite lookup_fmap.
    destruct (App.collaborators app !! e) as [c0|] eqn:Hc0; [|done].
    intros [= <-]. apply isCurrentAccount_markCurrent.
    eapply Hdb; eauto using appById_elem_of.
Qed.

Lemma unannotated_removeCollaborator accountId appId email p :
  unannotated (database p) ->
  unannotated (stored (removeCollaborator accountId appId email) p).
Proof.
  intros Hdb.
  destruct (removeCollaborator_shape accountId appId email p)
    as [(e & _ & ->)|(_ & account & app & target & Ha & Happ & Hcol & Ht & ->)];
    [done|].
  apply unannotated_writeApp; [|by apply (unannotated_apps (database p))].
  intros e c. rewrite lookup_fmap, lookup_delete. case_decide; [done|].
  destruct (App.collaborators app !! e) as [c0|] eqn:Hc0; [|done].
  intros [= <-]. apply isCurrentAccount_roundTrip.
  eapply Hdb; eauto using appById_elem_of.
Qed.

(** C9, as amended.  No app row written by [updateApp] has an entry whose
    [isCurrentAccount] is [true]: the annotation that reads add is
    removed from every entry before the row is persisted; a property
    handed in as [false] is persisted as handed in.  On a store without
    the property, the writes issued by [transferApp], [addCollaborator]
    and [removeCollaborator] leave the store without the property. *)
Theorem updateApp_strips_annotation (accountId : string) (app : App.row)
    (ensureIsOwner : bool) (p : Pool) :
  let call := updateApp accountId app ensureIsOwner in
  (outcome call p = Resolved tt \/ stored call p = database p) /\
  (forall row, outcome call p = Resolved tt ->
      row ∈ apps (stored call p) -> App.id row = App.id app ->
      App.collaborators row = unmarkCurrent <$> App.collaborators app /\
      forall e c, App.collaborators row !! e = Some c ->
        isCurrentAccount c <> Some true /\
        (isCurrentAccount c = Some false ->
         exists c0, App.collaborators app !! e = Some c0 /\
                    isCurrentAccount c0 = Some false)) /\
  (unannotated (database p) ->
   forall appId email,
     unannotated (stored (transferApp accountId appId email) p) /\
     unannotated (stored (addCollaborator accountId appId email) p) /\
     unannotated (stored (removeCollaborator accountId appId email) p)).
Proof.
  intros call. subst call. unfold outcome, stored. split; [|split].
  - destruct (updateApp_cases accountId app ensureIsOwner p)
      as [(account & old & _ & _ & ->)|(log & ->)]; [by left|by right].
  - intros row Hres Hrow Hid.
    destruct (updateApp_cases accountId app ensureIsOwner p)
      as [(account & old & _ & _ & E)|(log & E)]; rewrite E in Hres, Hrow; [|done].
    cbn [snd database writeApp setApps apps removeIsCurrentAccountProperty
         App.id App.name App.collaborators] in Hrow.
    apply list_elem_of_fmap in Hrow as (r & -> & Hr).
    destruct (bool_decide (App.id r = App.id app)) eqn:Hb;
      [|apply bool_decide_eq_false in Hb; done].
    cbn [App.collaborators]. split; [done|].
    intros e c. rewrite lookup_fmap.
    destruct (App.collaborators app !! e) as [c0|] eqn:Hc0; [|done].
    intros [= <-]. split; [apply isCurrentAccount_unmarkCurrent|].
    intros Hfalse. exists c0. split; [done|].
    by apply isCurrentAccount_unmarkCurrent.
  - intros Hdb appId email.
    split; [by apply unannotated_transferApp|].
    split; [by apply unannotated_addCollaborator|by apply unannotated_removeCollaborator].
Qed.

(** C9, as stated, fails: [updateApp] resolves and the row it persists
    still has an [isCurrentAccount] property, with the value [false]. *)
Lemma updateApp_keeps_false_annotation :
  outcome (updateApp "id-b" flaggedApp true) sharedStore = Resolved tt /\
  storedFlags "a@x.com" (stored (updateApp "id-b" flaggedApp true) sharedStore)
  = [Some (Some false)] /\
  storedFlags "b@x.com" (stored (updateApp "id-b" flaggedApp true) sharedStore)
  = [Some None] /\
  ~ unannotated (stored (updateApp "id-b" flaggedApp true) sharedStore).
Proof.
  assert (E : storedFlags "a@x.com" (stored (updateApp "id-b" flaggedApp true) sharedStore)
              = [Some (Some false)]) by (vm_compute; reflexivity).
  split; [vm_compute; reflexivity|]. split; [exact E|].
  split; [vm_compute; reflexivity|]. intros Hnone.
  unfold storedFlags in E.
  destruct (apps (stored (updateApp "id-b" flaggedApp true) sharedStore))
    as [|app rest] eqn:Happs; [discriminate E|].
  injection E as Hflag _.
  destruct (App.collaborators app !! "a@x.com") as [c|] eqn:Hc; [|discriminate Hflag].
  injection Hflag as Hflag.
  rewrite (Hnone app "a@x.com" c) in Hflag; [discriminate Hflag| |exact Hc].
  rewrite Happs. left.
Qed.

(** ** Committing packages *)

Lemma getDeployment_database accountId appId deploymentId p o p1 :
  getDeployment accountId appId deploymentId p = (o, p1) -> database p1 = database p.
Proof.
  unfold getDeployment.
  destruct (getApp_cases accountId appId p)
    as [(account & app & _ & _ & E)|(log & _ & E)]; await E.
  - await @select_run. destruct (head _); rewrite ?resolve_run, ?reject_run;
      by intros [= _ <-].
  - by intros [= _ <-].
Qed.

Lemma filter_fmap_stable {A} (P : A -> Prop) `{forall x, Decision (P x)}
    (f : A -> A) (l : list A) :
  (forall x, P (f x) <-> P x) -> filter P (f <$> l) = f <$> filter P l.
Proof.
  intros Hf. induction l as [|x l IH]; [done|]. rewrite fmap_cons.
  destruct (decide (P x)) as [Hx|Hx].
  - rewrite (filter_cons_True P (f x)) by (by apply Hf).
    rewrite (filter_cons_True P x) by done. by rewrite IH.
  - rewrite (filter_cons_False P (f x)) by (by rewrite Hf).
    by rewrite (filter_cons_False P x).
Qed.

Lemma clearIf_same top r :
  PackageRow.id (clearIf top r) = PackageRow.id r /\
  PackageRow.deploymentId (clearIf top r) = PackageRow.deploymentId r /\
  PackageRow.uploadTime (clearIf top r) = PackageRow.uploadTime r /\
  PackageRow.label (clearIf top r) = PackageRow.label r.
Proof.
  unfold clearIf. destruct top as [t|]; [|done]. by destruct (bool_decide _).
Qed.

Lemma rollout_clearIf_None top r :
  PackageRow.rollout r = None -> PackageRow.rollout (clearIf top r) = None.
Proof.
  unfold clearIf. destruct top as [t|]; [|done]. by destruct (bool_decide _).
Qed.

Lemma rollout_clearIf_top t r :
  PackageRow.id r = PackageRow.id t -> PackageRow.rollout (clearIf (Some t) r) = None.
Proof. intros Hid. unfold clearIf. by rewrite bool_decide_eq_true_2. Qed.

Lemma packages_clearLatestRollout d db :
  packages (clearLatestRollout d db) = clearIf (latest (packagesOf d db)) <$> packages db.
Proof.
  unfold clearLatestRollout, clearIf. destruct (latest _) as [t|]; [done|].
  by rewrite list_fmap_id.
Qed.

Lemma packagesOf_clearLatestRollout d db :
  packagesOf d (clearLatestRollout d db) =
  clearIf (latest (packagesOf d db)) <$> packagesOf d db.
Proof.
  unfold packagesOf at 1. rewrite packages_clearLatestRollout.
  apply filter_fmap_stable. intros r.
  by destruct (clearIf_same (latest (packagesOf d db)) r) as (_ & -> & _).
Qed.

Lemma insertPackage_run (row : PackageRow.row) (p : Pool) :
  query InsertPackage (insertPackage row) p =
  if bool_decide (PackageRow.id row ∈ PackageRow.id <$> packages (database p))
  then (Rejected (UniqueViolation "packages"), mkPool (database p) (InsertPackage :: issued p))
  else (Resolved tt,
        mkPool (setPackages (database p) (packages (database p) ++ [row]))
          (InsertPackage :: issued p)).
Proof. unfold query, insertPackage. by destruct (bool_decide _). Qed.

(** A commit that resolves has cleared the rollout of the latest package
    of the deployment and appended one row, labelled by the number of
    packages the deployment had. *)
Lemma commitPackage_resolved newId accountId appId d pkg p p' r :
  commitPackage newId accountId appId d pkg p = (Resolved r, p') ->
  let top := latest (packagesOf d (database p)) in
  let new := toRow newId d (withLabel (labelFor (length (packagesOf d (database p)))) pkg) in
  (newId ∉ PackageRow.id <$> packages (database p)) /\
  r = withLabel (labelFor (length (packagesOf d (database p)))) pkg /\
  packages (database p') = ((clearIf top <$> packages (database p)) ++ [new])%list /\
  packagesOf d (database p') = ((clearIf top <$> packagesOf d (database p)) ++ [new])%list.
Proof.
  unfold commitPackage. rewrite bind_run.
  destruct (getDeployment accountId appId d p) as [[dep|e|e] p1] eqn:Hdep; try done.
  apply getDeployment_database in Hdep.
  await execute_run. await @select_run. rewrite Hdep.
  rewrite (packagesOf_clearLatestRollout d (database p)), length_fmap.
  await insertPackage_run. cbn [toRow PackageRow.id].
  rewrite packages_clearLatestRollout.
  destruct (bool_decide _) eqn:Hnew; [done|]. apply bool_decide_eq_false in Hnew.
  rewrite resolve_run. intros [= <- <-]. cbv zeta. cbn [database].
  split.
  { intros Hin. apply Hnew. rewrite <- list_fmap_compose.
    erewrite list_fmap_ext; [exact Hin|]. intros i x _. cbn.
    by destruct (clearIf_same (latest (packagesOf d (database p))) x) as (-> & _). }
  split; [done|]. split; [done|].
  unfold packagesOf at 1. cbn [setPackages packages].
  rewrite filter_app, filter_cons_True by done. rewrite filter_nil.
  f_equal. apply filter_fmap_stable. intros x.
  by destruct (clearIf_same (latest (packagesOf d (database p))) x) as (_ & -> & _).
Qed.

Lemma latest_elem_of rows t : latest rows = Some t -> t ∈ rows.
Proof.
  revert t. induction rows as [|r rows IH]; intros t; cbn; [done|].
  destruct (latest rows) as [r'|].
  - destruct (_ <? _)%Z; intros [= <-]; [right; by apply IH|left].
  - intros [= <-]. left.
Qed.

Lemma latest_greatest rows t r :
  latest rows = Some t -> r ∈ rows -> (PackageRow.uploadTime r <= PackageRow.uploadTime t)%Z.
Proof.
  revert t. induction rows as [|r0 rows IH]; intros t; cbn; [done|].
  intros Ht Hr. destruct (latest rows) as [r'|] eqn:Hl.
  - destruct (Z.ltb_spec (PackageRow.uploadTime r0) (PackageRow.uploadTime r')) as [Hlt|Hge];
      injection Ht as <-; apply elem_of_cons in Hr as [->|Hr]; try lia.
    + by apply IH.
    + specialize (IH r' eq_refl Hr). lia.
  - injection Ht as <-. apply elem_of_cons in Hr as [->|Hr]; [lia|].
    destruct rows; [by apply elem_of_nil in Hr|]. cbn in Hl.
    by destruct (latest rows) as [?|]; [destruct (_ <? _)%Z|].
Qed.

Lemma latest_superseded init l :
  Forall (fun r => (PackageRow.uploadTime r < PackageRow.uploadTime l)%Z /\
                   PackageRow.rollout r = None) init ->
  latest (init ++ [l]) = Some l.
Proof.
  induction 1 as [|r init [Hlt _] _ IH]; [done|].
  cbn. rewrite IH. by rewrite (proj2 (Z.ltb_lt _ _) Hlt).
Qed.

Lemma snoc_cases {A} (l : list A) : l = [] \/ exists init x, l = (init ++ [x])%list.
Proof. destruct l as [|x l] using rev_ind; [by left|right; eauto]. Qed.

Lemma superseded_nil : superseded [].
Proof. intros init l E. by destruct init. Qed.

Lemma superseded_bound rows t :
  superseded rows ->
  from_option (fun x => (x <? t)%Z) true (lastTime rows) = true ->
  forall r, r ∈ rows -> (PackageRow.uploadTime r < t)%Z.
Proof.
  intros Hsup Hlo r Hr.
  destruct (snoc_cases rows) as [->|(init & l & ->)]; [by apply elem_of_nil in Hr|].
  unfold lastTime in Hlo. rewrite last_snoc in Hlo. cbn in Hlo.
  apply Z.ltb_lt in Hlo.
  apply elem_of_app in Hr as [Hr|Hr].
  - pose proof (Hsup init l eq_refl) as Hall.
    rewrite Forall_forall in Hall. destruct (Hall r Hr). lia.
  - apply list_elem_of_singleton in Hr as ->. done.
Qed.

Lemma superseded_step rows new :
  superseded rows ->
  (forall r, r ∈ rows -> (PackageRow.uploadTime r < PackageRow.uploadTime new)%Z) ->
  superseded ((clearIf (latest rows) <$> rows) ++ [new]).
Proof.
  intros Hsup Hnew init l E. apply app_inj_tail in E as [<- <-].
  apply Forall_forall. intros r' Hr'.
  apply list_elem_of_fmap in Hr' as (r & -> & Hr).
  destruct (clearIf_same (latest rows) r) as (_ & _ & -> & _). split; [by apply Hnew|].
  destruct (snoc_cases rows) as [->|(init & l & ->)]; [by apply elem_of_nil in Hr|].
  pose proof (Hsup init l eq_refl) as Hall.
  rewrite (latest_superseded _ _ Hall).
  apply elem_of_app in Hr as [Hr|Hr].
  - rewrite Forall_forall in Hall. destruct (Hall r Hr). by apply rollout_clearIf_None.
  - apply list_elem_of_singleton in Hr as ->. by apply rollout_clearIf_top.
Qed.

Lemma commitAll_superseded d cs p p' :
  superseded (packagesOf d (database p)) ->
  increasingFrom (lastTime (packagesOf d (database p))) (uploadTimes cs) = true ->
  commitAll d cs p = Some p' ->
  superseded (packagesOf d (database p')).
Proof.
  revert p. induction cs as [|c cs IH]; intros p Hsup Hinc Hrun; cbn in Hrun.
  - by injection Hrun as <-.
  - destruct (commitPackage _ _ _ _ _ p) as [[r|?|?] p1] eqn:E; try done.
    apply commitPackage_resolved in E as (_ & _ & _ & Hrows). cbv zeta in Hrows.
    cbn [uploadTimes fmap list_fmap increasingFrom] in Hinc.
    apply andb_true_iff in Hinc as [Hlo Hrest].
    apply (IH p1); [| |done]; rewrite Hrows.
    + apply superseded_step; [done|].
      intros r0 Hr0. cbn [toRow withLabel PackageRow.uploadTime Package.uploadTime].
      by apply (superseded_bound (packagesOf d (database p))).
    + unfold lastTime. rewrite last_snoc. exact Hrest.
Qed.

Lemma labelsFrom_S count N :
  labelsFrom count (S N) = Some (labelFor count) :: labelsFrom (S count) N.
Proof. done. Qed.

Lemma commitAll_labels d cs p p' :
  commitAll d cs p = Some p' ->
  labelsOf d (database p') =
  (labelsOf d (database p) ++ labelsFrom (length (packagesOf d (database p))) (length cs))%list.
Proof.
  revert p. induction cs as [|c cs IH]; intros p Hrun; cbn in Hrun.
  - injection Hrun as <-. unfold labelsFrom. cbn [length seq fmap list_fmap].
    by rewrite app_nil_r.
  - destruct (commitPackage _ _ _ _ _ p) as [[r|?|?] p1] eqn:E; try done.
    apply commitPackage_resolved in E as (_ & _ & _ & Hrows). cbv zeta in Hrows.
    rewrite (IH p1 Hrun). unfold labelsOf. rewrite Hrows.
    rewrite fmap_app, length_app, length_fmap. cbn [length fmap list_fmap].
    rewrite Nat.add_1_r, labelsFrom_S, <- app_assoc. cbn [app].
    f_equal. rewrite <- list_fmap_compose. apply list_fmap_ext. intros i x _. cbn.
    by destruct (clearIf_same (latest (packagesOf d (database p))) x) as (_ & _ & _ & ->).
Qed.

Lemma rolloutCount_superseded rows : superseded rows -> length (filter staged rows) <= 1.
Proof.
  intros Hsup. destruct (snoc_cases rows) as [->|(init & l & ->)]; [cbn; lia|].
  pose proof (Hsup init l eq_refl) as Hall. rewrite filter_app, length_app.
  assert (filter staged init = []) as ->.
  { clear Hsup. induction Hall as [|r init [_ Hr] _ IH]; [done|].
    rewrite filter_cons_False; [done|]. unfold staged. rewrite Hr.
    intros H. by apply H. }
  pose proof (length_filter staged [l]). cbn in *. lia.
Qed.

Lemma commitPackage_clears_latest newId accountId appId d pkg p p' r top :
  commitPackage newId accountId appId d pkg p = (Resolved r, p') ->
  latest (packagesOf d (database p)) = Some top ->
  forall row, row ∈ packages (database p') ->
              PackageRow.id row = PackageRow.id top -> PackageRow.rollout row = None.
Proof.
  intros Hrun Htop row Hrow Hid.
  apply commitPackage_resolved in Hrun as (Hnew & _ & Hpk & _). cbv zeta in Hpk.
  rewrite Hpk, Htop in Hrow. apply elem_of_app in Hrow as [Hrow|Hrow].
  - apply list_elem_of_fmap in Hrow as (r0 & -> & Hr0).
    apply rollout_clearIf_top.
    by destruct (clearIf_same (Some top) r0) as (<- & _).
  - apply list_elem_of_singleton in Hrow as ->. cbn [toRow PackageRow.id] in Hid.
    destruct Hnew. rewrite Hid. apply list_elem_of_fmap_2.
    apply latest_elem_of in Htop. unfold packagesOf in Htop.
    by apply list_elem_of_filter in Htop as [_ ?].
Qed.

(** C2, as amended.  On a deployment without packages, after N commits
    that resolve the stored packages of the deployment carry, in commit
    order, the labels "v1" to "vN", each computed as "v" followed by the
    number of packages already stored plus one.  Each commit sets
    [rollout] to NULL on the package that had the most recent
    [uploadTime].  When the upload times of the commits grow strictly in
    commit order, at most one stored package of the deployment has a
    rollout that is not NULL. *)
Theorem commits_label_and_supersede (deploymentId : string) (cs : list Commit.t)
    (p p' : Pool) :
  packagesOf deploymentId (database p) = [] ->
  commitAll deploymentId cs p = Some p' ->
  labelsOf deploymentId (database p') = labelsFrom 0 (length cs) /\
  (increasingFrom None (uploadTimes cs) = true ->
   rolloutCount deploymentId (database p') <= 1) /\
  (forall c q top,
      commitAll deploymentId [c] p' = Some q ->
      latest (packagesOf deploymentId (database p')) = Some top ->
      top ∈ packagesOf deploymentId (database p') /\
      (forall r, r ∈ packagesOf deploymentId (database p') ->
                 (PackageRow.uploadTime r <= PackageRow.uploadTime top)%Z) /\
      (forall row, row ∈ packages (database q) ->
                   PackageRow.id row = PackageRow.id top ->
                   PackageRow.rollout row = None) /\
      labelsOf deploymentId (database q) = labelsFrom 0 (S (length cs))).
Proof.
  intros Hempty Hrun.
  assert (Hlabels : labelsOf deploymentId (database p') = labelsFrom 0 (length cs)).
  { rewrite (commitAll_labels _ _ _ _ Hrun). unfold labelsOf. by rewrite Hempty. }
  split; [done|split].
  - intros Hinc. apply rolloutCount_superseded.
    apply (commitAll_superseded deploymentId cs p); [| |done]; rewrite Hempty.
    + apply superseded_nil.
    + exact Hinc.
  - intros c q top Hq Htop. split; [by apply latest_elem_of|].
    split; [intros r Hr; by apply (latest_greatest _ _ _ Htop)|]. split.
    + cbn in Hq.
      destruct (commitPackage _ _ _ _ _ p') as [[r|?|?] p1] eqn:E; try done.
      injection Hq as <-. eauto using commitPackage_clears_latest.
    + assert (Hlen : length (packagesOf deploymentId (database p')) = length cs).
      { rewrite <- (length_fmap PackageRow.label). fold (labelsOf deploymentId (database p')).
        rewrite Hlabels. unfold labelsFrom. by rewrite length_fmap, length_seq. }
      rewrite (commitAll_labels _ _ _ _ Hq), Hlabels, Hlen. cbn [length].
      unfold labelsFrom. rewrite <- fmap_app. f_equal.
      rewrite (seq_S (length cs) 0). reflexivity.
Qed.

(** C2, as stated, fails: three commits resolve on an empty deployment,
    their upload times are 100, 50 and 200, and two stored packages end
    with a rollout that is not NULL. *)
Lemma unordered_commits_two_rollouts :
  packagesOf "dep-1" (database sharedStore) = [] /\
  (fun p => (labelsOf "dep-1" (database p), rolloutCount "dep-1" (database p)))
    <$> commitAll "dep-1" unorderedCommits sharedStore
  = Some ([Some "v1"; Some "v2"; Some "v3"], 2) /\
  ~ (forall p', commitAll "dep-1" unorderedCommits sharedStore = Some p' ->
                rolloutCount "dep-1" (database p') <= 1).
Proof.
  assert (E : (fun p => (labelsOf "dep-1" (database p), rolloutCount "dep-1" (database p)))
                <$> commitAll "dep-1" unorderedCommits sharedStore
              = Some ([Some "v1"; Some "v2"; Some "v3"], 2))
    by (vm_compute; reflexivity).
  split; [reflexivity|]. split; [exact E|]. intros Hmost.
  destruct (commitAll "dep-1" unorderedCommits sharedStore) as [p'|]; [|discriminate E].
  injection E as _ Hcount. specialize (Hmost p' eq_refl). lia.
Qed.

Lemma commits_label_and_supersede_witness :
  exists p',
    commitAll "dep-1" orderedCommits sharedStore = Some p' /\
    labelsOf "dep-1" (database p') = labelsFrom 0 2 /\
    rolloutCount "dep-1" (database p') <= 1.
Proof.
  destruct (commitAll "dep-1" orderedCommits sharedStore) as [p'|] eqn:E;
    [|vm_compute in E; discriminate].
  exists p'. split; [reflexivity|].
  destruct (commits_label_and_supersede "dep-1" orderedCommits sharedStore p' eq_refl E)
    as (Hlabels & Hcount & _).
  split; [exact Hlabels|]. apply Hcount. reflexivity.
Defined.

(** ** The properties on the sample store *)

Lemma getDeploymentInfo_known_key_unsettled_witness :
  outcome (getDeploymentInfo "key-1") sharedStore = Unsettled TypeError.
Proof.
  apply (getDeploymentInfo_known_key_unsettled sharedStore "key-1" production).
  - left.
  - reflexivity.
Defined.

Lemma getAccountIdFromAccessKey_outcomes_witness :
  outcome (getAccountIdFromAccessKey 1000 "token-1") sharedStore = Resolved "id-a" /\
  outcome (getAccountIdFromAccessKey 2000 "token-1") sharedStore
  = Rejected (StorageError Expired (Some "The access key has expired.")) /\
  outcome (getAccountIdFromAccessKey 1000 "token-2") sharedStore
  = Rejected (StorageError NotFound None).
Proof.
  assert (Hkey : forall now,
             ((2000 <= now)%Z ->
              outcome (getAccountIdFromAccessKey now "token-1") sharedStore
              = Rejected (StorageError Expired (Some "The access key has expired."))) /\
             ((now < 2000)%Z ->
              outcome (getAccountIdFromAccessKey now "token-1") sharedStore
              = Resolved "id-a")).
  { intros now.
    destruct (getAccountIdFromAccessKey_outcomes now "token-1" sharedStore)
      as (_ & _ & Hfound & _).
    apply (Hfound (AccessKeyRow.mk "ak-1" "token-1" (Some 2000%Z))
                  (KeyLink.mk "ak-1" "id-a" (Some 2000%Z)) 2000%Z);
      try reflexivity; try (by left).
    - intros a' Ha' _. by apply list_elem_of_singleton in Ha'.
    - intros b' Hb' _. by apply list_elem_of_singleton in Hb'. }
  split; [|split].
  - apply (Hkey 1000%Z). lia.
  - apply (Hkey 2000%Z). lia.
  - destruct (getAccountIdFromAccessKey_outcomes 1000 "token-2" sharedStore)
      as (_ & Hnone & _).
    apply Hnone. intros a b Ha _ Hname.
    apply list_elem_of_singleton in Ha as ->. discriminate Hname.
Defined.

Lemma appById_writeApp db row appId :
  appById (writeApp row db) appId =
  (fun a => if bool_decide (App.id a = App.id row)
            then App.mk (App.id a) (App.name row) (App.collaborators row) else a)
    <$> appById db appId.
Proof.
  unfold appById, writeApp. cbn [setApps apps].
  rewrite filter_fmap_stable.
  - by destruct (filter _ _).
  - intros x. by destruct (bool_decide (App.id x = _)).
Qed.

(** C5. Let the account of the lower-cased e-mail hold a permission on
    the app under its stored e-mail.  [transferApp] with that e-mail, in
    any letter case, is rejected [AlreadyExists] when the permission is
    [Owner], and [addCollaborator] with an e-mail that is a key of the
    map as it is spelled is rejected [AlreadyExists]; both leave the
    store as it was.  [addCollaborator] tests the e-mail as it was passed
    and lower-cases it afterwards: with a spelling that is not a key of
    the map it is not rejected [AlreadyExists].  When the visibility link
    of the account exists it is stopped by the primary key of the links,
    with nothing written; when the link is missing it resolves and has
    replaced the entry of the account by a [Collaborator] entry. *)
Theorem addCollaborator_tests_raw_email (accountId appId email : string) (p : Pool)
    (account target : Account.row) (app : App.row) (c : CollaboratorProperties) :
  isPrototypePollutionKey email = false ->
  accountById (database p) accountId = Some account ->
  appById (database p) appId = Some app ->
  accountByEmail (database p) (toLowerCase email) = Some target ->
  App.collaborators app !! Account.email target = Some c ->
  (permission c = Owner ->
   outcome (transferApp accountId appId email) p
   = Rejected (StorageError AlreadyExists None) /\
   stored (transferApp accountId appId email) p = database p) /\
  (is_Some (App.collaborators app !! email) ->
   outcome (addCollaborator accountId appId email) p
   = Rejected (StorageError AlreadyExists None) /\
   stored (addCollaborator accountId appId email) p = database p) /\
  (App.collaborators app !! email = None ->
   outcome (addCollaborator accountId appId email) p
   <> Rejected (StorageError AlreadyExists None) /\
   (AppLink.mk (Account.id target) appId ∈ account_to_apps_map (database p) ->
    outcome (addCollaborator accountId appId email) p
    = Rejected (UniqueViolation "account_to_apps_map") /\
    stored (addCollaborator accountId appId email) p = database p) /\
   ((AppLink.mk (Account.id target) appId ∉ account_to_apps_map (database p)) ->
    outcome (addCollaborator accountId appId email) p = Resolved tt /\
    exists app',
      appById (stored (addCollaborator accountId appId email) p) appId = Some app' /\
      App.collaborators app' !! Account.email target
      = Some (mkCollaborator (Account.id target) Collaborator None))).
Proof.
  intros Hkey Ha Happ Ht Hc. split; [|split].
  - intros Hperm.
    apply (transferApp_owner_already_exists accountId appId email p account target app);
      try done.
    unfold isOwner. rewrite Hc. by apply bool_decide_eq_true.
  - intros [c' Hc'].
    by apply (addCollaborator_key_already_exists accountId appId email p account app c').
  - intros Hnone.
    assert (Hid : App.id app = appId) by eauto using appById_id.
    unfold outcome, stored.
    destruct (addCollaborator accountId appId email p) as [o p1] eqn:Hrun.
    cbn [fst snd]. revert Hrun. unfold addCollaborator. rewrite Hkey.
    await (getApp_found _ _ p _ _ Ha Happ).
    cbn [addIsCurrentAccountProperty App.collaborators App.id App.name withCollaborators].
    rewrite isCollaborator_markCurrent, isOwner_markCurrent.
    unfold isCollaborator at 1, isOwner at 1. rewrite Hnone. cbn [orb].
    await getAccountByEmail_run. rewrite Ht, Hid. await addAppPointer_run.
    destruct (bool_decide _) eqn:Hlink.
    + apply bool_decide_eq_true in Hlink. intros [= <- <-]. cbn [database].
      split; [discriminate|]. split; [done|]. intros Hno. by destruct Hno.
    + apply bool_decide_eq_false in Hlink.
      erewrite updateApp_found; [|exact Ha|simpl; rewrite Hid; exact Happ].
      intros [= <- <-]. cbn [database].
      split; [discriminate|]. split; [intros Hin; by destruct Hlink|].
      intros _. split; [done|].
      unfold removeIsCurrentAccountProperty.
      cbn [App.id App.name App.collaborators withCollaborators addIsCurrentAccountProperty].
      rewrite appById_writeApp.
      replace (appById (setAppLinks _ _) appId) with (Some app) by (symmetry; exact Happ).
      cbn [fmap option_fmap option_map App.id].
      rewrite Hid, bool_decide_eq_true_2 by done.
      eexists. split; [reflexivity|]. cbn [App.collaborators].
      by rewrite lookup_fmap, lookup_insert_eq.
Qed.

Lemma addCollaborator_tests_raw_email_witness :
  (outcome (transferApp "id-b" "app-1" "A@X.COM") sharedStore
   = Rejected (StorageError AlreadyExists None) /\
   stored (transferApp "id-b" "app-1" "A@X.COM") sharedStore = database sharedStore) /\
  (outcome (addCollaborator "id-b" "app-1" "a@x.com") sharedStore
   = Rejected (StorageError AlreadyExists None) /\
   stored (addCollaborator "id-b" "app-1" "a@x.com") sharedStore = database sharedStore) /\
  (outcome (addCollaborator "id-b" "app-1" "A@X.COM") sharedStore
   = Rejected (UniqueViolation "account_to_apps_map") /\
   stored (addCollaborator "id-b" "app-1" "A@X.COM") sharedStore = database sharedStore).
Proof.
  destruct (addCollaborator_tests_raw_email "id-b" "app-1" "A@X.COM" sharedStore bob alice
              sharedApp (mkCollaborator "id-a" Owner None))
    as (Htransfer & _ & Hvariant); try (vm_compute; reflexivity).
  destruct (addCollaborator_tests_raw_email "id-b" "app-1" "a@x.com" sharedStore bob alice
              sharedApp (mkCollaborator "id-a" Owner None))
    as (_ & Hexact & _); try (vm_compute; reflexivity).
  split; [by apply Htransfer|]. split.
  - apply Hexact. vm_compute. by eexists.
  - destruct Hvariant as (_ & Hlinked & _); [vm_compute; reflexivity|].
    apply Hlinked. vm_compute. left.
Defined.

Lemma removeCollaborator_outcomes_witness :
  outcome (removeCollaborator "id-b" "app-1" "b@x.com") sharedStore = Resolved tt /\
  account_to_apps_map (stored (removeCollaborator "id-b" "app-1" "b@x.com") sharedStore)
  = [AppLink.mk "id-a" "app-1"] /\
  outcome (removeCollaborator "id-b" "app-1" "a@x.com") sharedStore
  = Rejected (StorageError NotFound
                (Some "Cannot remove the owner of the app from collaborator list.")) /\
  rejectionCode (outcome (removeCollaborator "id-a" "app-1" "c@x.com") sharedStore)
  = Some NotFound.
Proof.
  destruct (removeCollaborator_outcomes "id-b" "app-1" "b@x.com" sharedStore)
    as (_ & _ & Hself).
  destruct (Hself bob sharedApp bob) as (Hres & Hst & _);
    try (vm_compute; reflexivity); [done|].
  destruct (removeCollaborator_outcomes "id-b" "app-1" "a@x.com" sharedStore)
    as (Howner & _ & _).
  destruct (Howner bob sharedApp) as (Hrej & _); try (vm_compute; reflexivity).
  destruct (removeCollaborator_outcomes "id-a" "app-1" "c@x.com" sharedStore)
    as (_ & Hnot & _).
  destruct Hnot as (Hcode & _).
  { intros app Happ. vm_compute in Happ. injection Happ as <-. vm_compute. reflexivity. }
  split; [exact Hres|]. split; [rewrite Hst; vm_compute; reflexivity|].
  split; [exact Hrej|exact Hcode].
Defined.


Lemma sharedStore_unannotated : unannotated (database sharedStore).
Proof.
  intros app e c Happ Hc. cbn in Happ. apply list_elem_of_singleton in Happ as ->.
  cbn in Hc. unfold sharedCollaborators in Hc.
  apply lookup_insert_Some in Hc as [[_ <-]|[_ Hc]]; [done|].
  by apply lookup_singleton_Some in Hc as [_ <-].
Qed.

Lemma updateApp_strips_annotation_witness :
  unannotated (stored (transferApp "id-a" "app-1" "b@x.com") sharedStore) /\
  unannotated (stored (addCollaborator "id-a" "app-1" "c@x.com") sharedStore) /\
  unannotated (stored (removeCollaborator "id-a" "app-1" "b@x.com") sharedStore).
Proof.
  destruct (updateApp_strips_annotation "id-a" sharedApp true sharedStore)
    as (_ & _ & Hops).
  specialize (Hops sharedStore_unannotated).
  split; [apply (Hops "app-1" "b@x.com")|].
  split; [apply (Hops "app-1" "c@x.com")|apply (Hops "app-1" "b@x.com")].
Defined.

Lemma transferApp_requester_missing_witness :
  outcome (transferApp "id-c" "app-1" "b@x.com") sharedStore = Rejected TypeError /\
  classified TypeError = false /\
  codeOf TypeError = None /\
  stored (transferApp "id-c" "app-1" "b@x.com") sharedStore = database sharedStore.
Proof.
  apply (transferApp_requester_missing sharedStore "id-c" "app-1" "b@x.com"
           carol bob sharedApp); vm_compute; reflexivity.
Defined.

(** ** Remarks on the sample store *)

(** The membership test of [addCollaborator] reads the e-mail as it was
    passed, the insertion uses the e-mail of the resolved account: for a
    member named in another letter case the call is stopped by the primary
    key of the visibility links, and nothing is written. *)
Lemma addCollaborator_case_variant :
  outcome (addCollaborator "id-a" "app-1" "B@X.COM") sharedStore
  = Rejected (UniqueViolation "account_to_apps_map") /\
  stored (addCollaborator "id-a" "app-1" "B@X.COM") sharedStore = database sharedStore.
Proof. split; vm_compute; reflexivity. Qed.

Lemma ownerCount_one_entry (m : gmap string CollaboratorProperties) :
  ownerCount m = 1 -> exists e c, m !! e = Some c /\ permission c = Owner.
Proof.
  unfold ownerCount. intros Hsize.
  destruct (map_choose (filter (fun kc => permission kc.2 = Owner) m)) as (e & c & Hc).
  { intros Hempty. rewrite Hempty, map_size_empty in Hsize. lia. }
  apply map_lookup_filter_Some in Hc as [Hc Hp]. eauto.
Qed.

(** In a consistent store the visibility links record an account for
    every app, so [removeApp] always has an account to compare with. *)
Lemma recordedAccount_consistent db app :
  Consistent db -> app ∈ apps db -> is_Some (recordedAccount db (App.id app)).
Proof.
  intros [_ Happs] Happ. destruct (Happs app Happ) as [Hone Hentries].
  destruct (ownerCount_one_entry _ Hone) as (e & c & Hc & _).
  destruct (Hentries e c Hc) as [_ Hlink].
  unfold recordedAccount.
  destruct (head_filter_elem_of (fun l => AppLink.appId l = App.id app)
              (account_to_apps_map db) _ Hlink eq_refl) as [l ->].
  by eexists.
Qed.

(** * Properties of the other methods *)

(** ** Running the monad over the storage *)

Lemma bindS_run {A B} (c : Action A) (k : A -> Action B) (st : Storage) :
  bindS c k st =
  match c st with
  | (Resolved a, st') => k a st'
  | (Rejected e, st') => (Rejected e, st')
  | (Unsettled e, st') => (Unsettled e, st')
  end.
Proof. reflexivity. Qed.

Lemma liftS_run {A} (c : M A) (st : Storage) o p' :
  c (postgreSqlPool st) = (o, p') -> liftS c st = (o, setPool st p').
Proof. unfold liftS. by intros ->. Qed.

Lemma sqlSelect_run {A} cmd (read : Database -> A) st :
  sqlSelect cmd read st =
  (Resolved (read (theDatabase st)), noted cmd (setDatabase st (theDatabase st))).
Proof. reflexivity. Qed.

Lemma sqlExecute_run cmd (write : Database -> Database) st :
  sqlExecute cmd write st =
  (Resolved tt, noted cmd (setDatabase st (write (theDatabase st)))).
Proof. reflexivity. Qed.

Lemma sql_run {A} cmd (run : Database -> Failure + A * Database) st :
  sql cmd run st =
  match run (theDatabase st) with
  | inl e => (Rejected e, noted cmd st)
  | inr (a, db) => (Resolved a, noted cmd (setDatabase st db))
  end.
Proof. unfold sql, command. by destruct (run _) as [e|[a db]]. Qed.

Lemma command_run {A} cmd (run : Storage -> Failure + A * Storage) st :
  command cmd run st =
  match run st with
  | inl e => (Rejected e, noted cmd st)
  | inr (a, st') => (Resolved a, noted cmd st')
  end.
Proof. reflexivity. Qed.

Lemma resolveS_run {A} (a : A) st : resolveS a st = (Resolved a, st).
Proof. reflexivity. Qed.

Lemma rejectS_run {A} (e : Failure) st : @rejectS A e st = (Rejected e, st).
Proof. reflexivity. Qed.

#[global] Arguments bindS : simpl never.
#[global] Arguments liftS : simpl never.
#[global] Arguments command : simpl never.
#[global] Arguments sql : simpl never.
#[global] Arguments sqlSelect : simpl never.
#[global] Arguments sqlExecute : simpl never.
#[global] Arguments resolveS : simpl never.
#[global] Arguments rejectS : simpl never.

Ltac awaitS E :=
  rewrite bindS_run, E;
  cbn [fst snd theDatabase setDatabase setPool noted postgreSqlPool database issued
       access_key_details blobs commands].

Lemma liftS_getApp_found accountId appId st account app :
  accountById (theDatabase st) accountId = Some account ->
  appById (theDatabase st) appId = Some app ->
  liftS (getApp accountId appId) st =
  (Resolved (addIsCurrentAccountProperty app (Account.id account)),
   setPool st (mkPool (theDatabase st)
                 (SelectAppById :: SelectAccountById :: issued (postgreSqlPool st)))).
Proof. intros Ha Happ. apply liftS_run. by apply getApp_found. Qed.

Lemma liftS_getApp_cases accountId appId st :
  (exists account app log,
      accountById (theDatabase st) accountId = Some account /\
      appById (theDatabase st) appId = Some app /\
      liftS (getApp accountId appId) st =
      (Resolved (addIsCurrentAccountProperty app (Account.id account)),
       setPool st (mkPool (theDatabase st) log))) \/
  (exists log,
      (accountById (theDatabase st) accountId = None \/
       appById (theDatabase st) appId = None) /\
      liftS (getApp accountId appId) st =
      (Rejected (StorageError NotFound None), setPool st (mkPool (theDatabase st) log))).
Proof.
  destruct (getApp_cases accountId appId (postgreSqlPool st))
    as [(account & app & Ha & Happ & E)|(log & Hnone & E)].
  - left. exists account, app. eexists. repeat (split; [done|]). by apply liftS_run.
  - right. exists log. split; [done|]. by apply liftS_run.
Qed.

(** [getDeployment] resolves with the first row of that id when the
    requester and the app exist, whatever app the row belongs to; it
    rejects [NotFound] otherwise and never writes. *)
Lemma getDeployment_cases accountId appId deploymentId p :
  exists log,
    getDeployment accountId appId deploymentId p =
    (match accountById (database p) accountId, appById (database p) appId,
           deploymentOf (database p) deploymentId with
     | Some _, Some _, Some d => Resolved d
     | _, _, _ => Rejected (StorageError NotFound None)
     end,
     mkPool (database p) log).
Proof.
  unfold getDeployment.
  destruct (getApp_cases accountId appId p)
    as [(account & app & Ha & Happ & E)|(log & Hnone & E)]; await E.
  - rewrite Ha, Happ. await @select_run. fold (deploymentOf (database p) deploymentId).
    destruct (deploymentOf _ _); by eexists.
  - exists log. destruct Hnone as [-> | ->]; [done|].
    by destruct (accountById _ _).
Qed.

Lemma liftS_getDeployment_cases accountId appId deploymentId st :
  exists log,
    liftS (getDeployment accountId appId deploymentId) st =
    (match accountById (theDatabase st) accountId, appById (theDatabase st) appId,
           deploymentOf (theDatabase st) deploymentId with
     | Some _, Some _, Some d => Resolved d
     | _, _, _ => Rejected (StorageError NotFound None)
     end,
     setPool st (mkPool (theDatabase st) log)).
Proof.
  destruct (getDeployment_cases accountId appId deploymentId (postgreSqlPool st))
    as [log E].
  exists log. by apply liftS_run.
Qed.

#[global] Arguments getDeployment : simpl never.

Lemma deploymentOf_id db deploymentId d :
  deploymentOf db deploymentId = Some d -> Deployment.id d = deploymentId.
Proof.
  unfold deploymentOf. intros H%head_Some_elem_of.
  by apply list_elem_of_filter in H as [H _].
Qed.

Lemma deploymentOf_elem_of db deploymentId d :
  deploymentOf db deploymentId = Some d -> d ∈ deployments db.
Proof.
  unfold deploymentOf. intros H%head_Some_elem_of.
  by apply list_elem_of_filter in H as [_ H].
Qed.

Lemma head_filter_snoc {A} (P : A -> Prop) `{forall x, Decision (P x)} (l : list A) (x : A) :
  head (filter P (l ++ [x])%list) =
  match head (filter P l) with
  | Some y => Some y
  | None => if decide (P x) then Some x else None
  end.
Proof.
  rewrite filter_app. destruct (filter P l) as [|y ys]; [|done].
  cbn [app head]. rewrite filter_cons, filter_nil. by destruct (decide (P x)).
Qed.

(** ** Deployments *)

Lemma addDeployment_run newId accountId appId deployment st :
  let db := theDatabase st in
  let row := Deployment.mk newId (Deployment.name deployment) appId
               (Deployment.key deployment) in
  let call := addDeployment newId accountId appId deployment in
  match accountById db accountId, appById db appId with
  | Some _, Some _ =>
      if bool_decide (newId ∈ Deployment.id <$> deployments db)
         || bool_decide (Deployment.key deployment ∈ Deployment.key <$> deployments db)
      then outcomeS call st = Rejected (UniqueViolation "deployments") /\
           storedS call st = db
      else outcomeS call st = Resolved newId /\
           storedS call st = setDeployments db (deployments db ++ [row])%list
  | _, _ =>
      outcomeS call st = Rejected (StorageError NotFound None) /\ storedS call st = db
  end.
Proof.
  intros db row call. subst db row call. unfold outcomeS, storedS, addDeployment.
  destruct (liftS_getApp_cases accountId appId st)
    as [(account & app & log & Ha & Happ & E)|(log & Hnone & E)]; awaitS E.
  - rewrite Ha, Happ, sql_run. unfold insertDeployment.
    cbn [Deployment.id Deployment.key theDatabase setPool postgreSqlPool database].
    by destruct (_ || _).
  - destruct Hnone as [-> | ->]; [done|]. by destruct (accountById _ _).
Qed.

(** X1. A deployment that [addDeployment] has added is what
    [getDeployment] returns for the id that was handed out, and
    [getDeployments] for its app returns it together with the
    deployments the app already had, and no others. *)
Theorem addDeployment_then_getDeployment (newId accountId appId : string)
    (deployment : Deployment.row) (st : Storage) (id : string) :
  outcomeS (addDeployment newId accountId appId deployment) st = Resolved id ->
  let st' := afterS (addDeployment newId accountId appId deployment) st in
  let row := Deployment.mk newId (Deployment.name deployment) appId
               (Deployment.key deployment) in
  id = newId /\
  outcome (getDeployment accountId appId id) (postgreSqlPool st') = Resolved row /\
  exists rows,
    outcomeS (getDeployments accountId appId) st' = Resolved rows /\
    forall d, d ∈ rows <->
              d = row \/ (d ∈ deployments (theDatabase st) /\ Deployment.appId d = appId).
Proof.
  intros Hres st' row.
  pose proof (addDeployment_run newId accountId appId deployment st) as Hrun.
  cbv zeta in Hrun.
  destruct (accountById (theDatabase st) accountId) as [account|] eqn:Ha;
    [|destruct Hrun; congruence].
  destruct (appById (theDatabase st) appId) as [app|] eqn:Happ;
    [|destruct Hrun; congruence].
  destruct (bool_decide (newId ∈ _)) eqn:Hid; [destruct Hrun; congruence|].
  destruct (bool_decide (Deployment.key deployment ∈ _)) eqn:Hkey;
    [destruct Hrun; congruence|].
  cbn [orb] in Hrun. destruct Hrun as [Hout Hst].
  apply bool_decide_eq_false in Hid.
  assert (Hdb : theDatabase st' = setDeployments (theDatabase st)
                                    (deployments (theDatabase st) ++ [row])%list)
    by exact Hst.
  split; [congruence|]. assert (id = newId) as -> by congruence.
  split.
  - unfold outcome.
    destruct (getDeployment_cases accountId appId newId (postgreSqlPool st')) as [log ->].
    cbn [fst]. fold (theDatabase st'). rewrite Hdb.
    unfold accountById, appById, deploymentOf in *.
    cbn [setDeployments accounts apps deployments]. rewrite Ha, Happ.
    rewrite head_filter_snoc, head_filter_None.
    + by rewrite decide_True.
    + intros d Hd Hsame. apply Hid. rewrite <- Hsame. by apply list_elem_of_fmap_2.
  - eexists. split.
    + unfold outcomeS, getDeployments.
      erewrite bindS_run, liftS_getApp_found; cycle 1.
      { rewrite Hdb. exact Ha. }
      { rewrite Hdb. exact Happ. }
      cbn [fst snd]. rewrite bindS_run, sqlSelect_run.
      cbn [theDatabase setPool postgreSqlPool database]. fold (theDatabase st').
      rewrite Hdb. cbn [setDeployments deployments]. by rewrite resolveS_run.
    + intros d. rewrite list_elem_of_filter, elem_of_app, list_elem_of_singleton. split.
      * intros [Happd [Hd| ->]]; [right; by split|by left].
      * intros [-> |[Hd Happd]]; [split; [done|by right]|split; [done|by left]].
Qed.

(** X2. Deployment keys are unique across all apps: [addDeployment] with
    a key that some stored deployment has, of whatever app, is rejected
    by the store and nothing is written. *)
Theorem addDeployment_key_taken (newId accountId appId : string)
    (deployment : Deployment.row) (st : Storage) account app (d : Deployment.row) :
  accountById (theDatabase st) accountId = Some account ->
  appById (theDatabase st) appId = Some app ->
  d ∈ deployments (theDatabase st) ->
  Deployment.key d = Deployment.key deployment ->
  outcomeS (addDeployment newId accountId appId deployment) st
  = Rejected (UniqueViolation "deployments") /\
  storedS (addDeployment newId accountId appId deployment) st = theDatabase st.
Proof.
  intros Ha Happ Hd Hkey.
  pose proof (addDeployment_run newId accountId appId deployment st) as Hrun.
  cbv zeta in Hrun. rewrite Ha, Happ in Hrun.
  rewrite (bool_decide_eq_true_2 (Deployment.key deployment ∈ _)), orb_true_r in Hrun;
    [done|].
  rewrite <- Hkey. by apply list_elem_of_fmap_2.
Qed.

Lemma removeDeployment_run accountId appId deploymentId st :
  let db := theDatabase st in
  let call := removeDeployment accountId appId deploymentId in
  match accountById db accountId, appById db appId, deploymentOf db deploymentId with
  | Some _, Some _, Some d =>
      if bool_decide (appId ≠ Deployment.appId d)
      then outcomeS call st = Rejected (PlainError "Wrong appId") /\ storedS call st = db
      else outcomeS call st = Resolved tt /\
           storedS call st = deleteDeployment deploymentId db
  | _, _, _ =>
      outcomeS call st = Rejected (StorageError NotFound None) /\ storedS call st = db
  end.
Proof.
  intros db call. subst db call. unfold outcomeS, storedS, removeDeployment.
  destruct (liftS_getDeployment_cases accountId appId deploymentId st) as [log E].
  awaitS E.
  destruct (accountById _ _); [|done]. destruct (appById _ _); [|done].
  destruct (deploymentOf _ _) as [d|]; [|done].
  destruct (bool_decide _); [done|].
  by rewrite bindS_run, sqlExecute_run.
Qed.

Lemma updateDeployment_run accountId appId deployment st :
  let db := theDatabase st in
  let call := updateDeployment accountId appId deployment in
  match accountById db accountId, appById db appId,
        deploymentOf db (Deployment.id deployment) with
  | Some _, Some _, Some d =>
      match renameDeployment deployment db with
      | inl e => outcomeS call st = Rejected e /\ storedS call st = db
      | inr (_, db') => outcomeS call st = Resolved tt /\ storedS call st = db'
      end
  | _, _, _ =>
      outcomeS call st = Rejected (StorageError NotFound None) /\ storedS call st = db
  end.
Proof.
  intros db call. subst db call. unfold outcomeS, storedS, updateDeployment.
  destruct (liftS_getDeployment_cases accountId appId (Deployment.id deployment) st)
    as [log E].
  awaitS E.
  destruct (accountById _ _); [|done]. destruct (appById _ _); [|done].
  destruct (deploymentOf _ _) as [d|]; [|done].
  rewrite bindS_run, sql_run.
  cbn [theDatabase setPool postgreSqlPool database].
  by destruct (renameDeployment _ _) as [e|[[] db']].
Qed.

Lemma NoDup_fmap_filter {A B} (f : A -> B) (P : A -> Prop) `{forall x, Decision (P x)}
    (l : list A) :
  NoDup (f <$> l) -> NoDup (f <$> filter P l).
Proof.
  induction l as [|x l IH]; [done|].
  rewrite fmap_cons, NoDup_cons. intros [Hx Hl].
  rewrite filter_cons. destruct (decide (P x)); [|by apply IH].
  rewrite fmap_cons, NoDup_cons. split; [|by apply IH].
  intros (y & Hy & Hin%list_elem_of_filter)%list_elem_of_fmap.
  apply Hx. rewrite Hy. apply list_elem_of_fmap_2. tauto.
Qed.

Lemma fmap_unchanged {A} (f : A -> A) (l : list A) :
  (forall a, a ∈ l -> f a = a) -> f <$> l = l.
Proof.
  induction l as [|x l IH]; [done|]. intros H. rewrite fmap_cons.
  rewrite (H x) by apply list_elem_of_here. f_equal. apply IH.
  intros a Ha. apply H. by apply list_elem_of_further.
Qed.

(** Rows rewritten in place keep the uniqueness of a column when the
    new value is not among the other rows. *)
Lemma NoDup_fmap_rewrite {A K V} `{EqDecision K} (id : A -> K) (col : A -> V)
    (g : A -> A) (k : K) (v : V) (l : list A) :
  (forall a, id (g a) = id a) ->
  (forall a, col (g a) = v) ->
  NoDup (id <$> l) -> NoDup (col <$> l) ->
  (v ∉ col <$> filter (fun a => id a ≠ k) l) ->
  NoDup (col <$> ((fun a => if bool_decide (id a = k) then g a else a) <$> l)).
Proof.
  intros Hid Hcol. induction l as [|x l IH]; [constructor|].
  rewrite !fmap_cons, !NoDup_cons. intros [Hx Hids] [Hc Hcols] Hv.
  case_bool_decide as Hk.
  - rewrite Hcol. rewrite filter_cons_False in Hv by (intros ?; done).
    assert (Hnone : forall a, a ∈ l -> id a ≠ k).
    { intros a Ha Heq. apply Hx. rewrite Hk, <- Heq. by apply list_elem_of_fmap_2. }
    assert (Hsame : ((fun a => if bool_decide (id a = k) then g a else a) <$> l) = l).
    { apply fmap_unchanged. intros a Ha.
      rewrite bool_decide_eq_false_2; [done|by apply Hnone]. }
    rewrite Hsame. split; [|done].
    intros (a & Ha & Hin)%list_elem_of_fmap. apply Hv. rewrite Ha.
    apply list_elem_of_fmap_2, list_elem_of_filter. split; [by apply Hnone|done].
  - rewrite filter_cons_True, fmap_cons, not_elem_of_cons in Hv by done.
    destruct Hv as [Hne Hv]. split; [|by apply IH].
    rewrite <- list_fmap_compose.
    intros (a & Ha & Hin)%list_elem_of_fmap. cbn in Ha.
    case_bool_decide.
    + rewrite Hcol in Ha. congruence.
    + apply Hc. rewrite Ha. by apply list_elem_of_fmap_2.
Qed.

(** X3. Whatever their arguments and their outcome, [addDeployment],
    [updateDeployment] and [removeDeployment] keep deployment ids and
    deployment keys unique in the store. *)
Theorem deployments_stay_well_formed (st : Storage) :
  deploymentsWellFormed (theDatabase st) ->
  (forall newId accountId appId deployment,
      deploymentsWellFormed (storedS (addDeployment newId accountId appId deployment) st)) /\
  (forall accountId appId deployment,
      deploymentsWellFormed (storedS (updateDeployment accountId appId deployment) st)) /\
  (forall accountId appId deploymentId,
      deploymentsWellFormed (storedS (removeDeployment accountId appId deploymentId) st)).
Proof.
  intros [Hids Hkeys]. split; [|split].
  - intros newId accountId appId deployment.
    pose proof (addDeployment_run newId accountId appId deployment st) as Hrun.
    cbv zeta in Hrun.
    destruct (accountById _ _); [|destruct Hrun as [_ ->]; by split].
    destruct (appById _ _); [|destruct Hrun as [_ ->]; by split].
    destruct (bool_decide (newId ∈ _)) eqn:Hid; [destruct Hrun as [_ ->]; by split|].
    destruct (bool_decide (Deployment.key deployment ∈ _)) eqn:Hkey;
      [destruct Hrun as [_ ->]; by split|].
    destruct Hrun as [_ ->].
    apply bool_decide_eq_false in Hid. apply bool_decide_eq_false in Hkey.
    unfold deploymentsWellFormed. cbn [setDeployments deployments].
    rewrite !fmap_app. cbn [fmap list_fmap Deployment.id Deployment.key].
    split; apply NoDup_app; (split; [done|]);
      (split; [intros x Hx ->%list_elem_of_singleton; done|apply NoDup_singleton]).
  - intros accountId appId deployment.
    pose proof (updateDeployment_run accountId appId deployment st) as Hrun.
    cbv zeta in Hrun.
    destruct (accountById _ _); [|destruct Hrun as [_ ->]; by split].
    destruct (appById _ _); [|destruct Hrun as [_ ->]; by split].
    destruct (deploymentOf _ _); [|destruct Hrun as [_ ->]; by split].
    unfold renameDeployment in Hrun.
    destruct (bool_decide (Deployment.id deployment ∈ _)) eqn:Hid.
    + destruct (bool_decide (Deployment.key deployment ∈ _)) eqn:Hkey;
        cbn [andb] in Hrun; destruct Hrun as [_ ->]; [by split|].
      apply bool_decide_eq_false in Hkey.
      unfold deploymentsWellFormed. cbn [setDeployments deployments]. split.
      * rewrite <- list_fmap_compose.
        erewrite list_fmap_ext; [exact Hids|].
        intros i a _. unfold compose.
        by destruct (bool_decide (Deployment.id a = _)).
      * by apply (NoDup_fmap_rewrite Deployment.id Deployment.key
                    (fun d => Deployment.mk (Deployment.id d) (Deployment.name deployment)
                                (Deployment.appId d) (Deployment.key deployment))
                    (Deployment.id deployment) (Deployment.key deployment)).
    + cbn [andb] in Hrun. destruct Hrun as [_ ->].
      apply bool_decide_eq_false in Hid.
      unfold deploymentsWellFormed. cbn [setDeployments deployments].
      assert (Hsame : ((fun d => if bool_decide (Deployment.id d = Deployment.id deployment)
                                 then Deployment.mk (Deployment.id d)
                                        (Deployment.name deployment)
                                        (Deployment.appId d) (Deployment.key deployment)
                                 else d) <$> deployments (theDatabase st))
                      = deployments (theDatabase st)).
      { apply fmap_unchanged. intros a Ha.
        rewrite bool_decide_eq_false_2; [done|].
        intros Heq. apply Hid. rewrite <- Heq. by apply list_elem_of_fmap_2. }
      rewrite Hsame. by split.
  - intros accountId appId deploymentId.
    pose proof (removeDeployment_run accountId appId deploymentId st) as Hrun.
    cbv zeta in Hrun.
    destruct (accountById _ _); [|destruct Hrun as [_ ->]; by split].
    destruct (appById _ _); [|destruct Hrun as [_ ->]; by split].
    destruct (deploymentOf _ _); [|destruct Hrun as [_ ->]; by split].
    destruct (bool_decide _); destruct Hrun as [_ ->]; [by split|].
    unfold deploymentsWellFormed, deleteDeployment. cbn [deployments].
    split; by apply NoDup_fmap_filter.
Qed.

(** X4. [getDeployment] does not compare the app of the row it finds
    with the app it was asked about; [removeDeployment] does, and then
    rejects with the plain error [Wrong appId] and deletes nothing. *)
Theorem removeDeployment_other_app (accountId appId deploymentId : string) (st : Storage)
    account app (d : Deployment.row) :
  accountById (theDatabase st) accountId = Some account ->
  appById (theDatabase st) appId = Some app ->
  deploymentOf (theDatabase st) deploymentId = Some d ->
  Deployment.appId d ≠ appId ->
  outcome (getDeployment accountId appId deploymentId) (postgreSqlPool st) = Resolved d /\
  outcomeS (removeDeployment accountId appId deploymentId) st
  = Rejected (PlainError "Wrong appId") /\
  storedS (removeDeployment accountId appId deploymentId) st = theDatabase st.
Proof.
  intros Ha Happ Hd Hne. split.
  - unfold outcome.
    destruct (getDeployment_cases accountId appId deploymentId (postgreSqlPool st))
      as [log ->].
    cbn [fst]. fold (theDatabase st). by rewrite Ha, Happ, Hd.
  - pose proof (removeDeployment_run accountId appId deploymentId st) as Hrun.
    cbv zeta in Hrun. rewrite Ha, Happ, Hd in Hrun.
    rewrite bool_decide_eq_true_2 in Hrun by congruence. exact Hrun.
Qed.

Lemma filter_without {A K} `{EqDecision K} (f : A -> K) (k k' : K) (l : list A) :
  filter (fun a => f a = k') (filter (fun a => f a ≠ k) l) =
  if decide (k' = k) then [] else filter (fun a => f a = k') l.
Proof.
  induction l as [|x l IH]; [by case_decide|].
  destruct (decide (f x = k)) as [Hx|Hx].
  - rewrite (filter_cons_False (fun a => f a ≠ k)) by (intros ?; done).
    rewrite IH. case_decide as Hk; [done|].
    rewrite (filter_cons_False (fun a => f a = k')) by congruence. done.
  - rewrite (filter_cons_True (fun a => f a ≠ k)) by done.
    rewrite !filter_cons, IH. case_decide as Hk; [|done].
    by rewrite decide_False by congruence.
Qed.

Lemma deploymentOf_deleteDeployment db deploymentId d' :
  deploymentOf (deleteDeployment deploymentId db) d' =
  if decide (d' = deploymentId) then None else deploymentOf db d'.
Proof.
  unfold deploymentOf, deleteDeployment. cbn [deployments].
  rewrite filter_without. by case_decide.
Qed.

Lemma packagesOf_deleteDeployment db deploymentId d' :
  packagesOf d' (deleteDeployment deploymentId db) =
  if decide (d' = deploymentId) then [] else packagesOf d' db.
Proof.
  unfold packagesOf, deleteDeployment. cbn [packages]. by rewrite filter_without.
Qed.

(** X5. After [removeDeployment] has resolved the deployment cannot be
    read any more and none of its packages is left, while every other
    deployment and its packages are as before. *)
Theorem removeDeployment_removes (accountId appId deploymentId : string) (st : Storage) :
  outcomeS (removeDeployment accountId appId deploymentId) st = Resolved tt ->
  let st' := afterS (removeDeployment accountId appId deploymentId) st in
  outcome (getDeployment accountId appId deploymentId) (postgreSqlPool st')
  = Rejected (StorageError NotFound None) /\
  packagesOf deploymentId (theDatabase st') = [] /\
  forall d', d' ≠ deploymentId ->
             deploymentOf (theDatabase st') d' = deploymentOf (theDatabase st) d' /\
             packagesOf d' (theDatabase st') = packagesOf d' (theDatabase st).
Proof.
  intros Hres st'.
  pose proof (removeDeployment_run accountId appId deploymentId st) as Hrun.
  cbv zeta in Hrun.
  destruct (accountById (theDatabase st) accountId) as [account|] eqn:Ha;
    [|destruct Hrun; congruence].
  destruct (appById (theDatabase st) appId) as [app|] eqn:Happ;
    [|destruct Hrun; congruence].
  destruct (deploymentOf (theDatabase st) deploymentId) as [d|] eqn:Hd;
    [|destruct Hrun; congruence].
  destruct (bool_decide _); [destruct Hrun; congruence|].
  destruct Hrun as [_ Hst].
  assert (Hdb : theDatabase st' = deleteDeployment deploymentId (theDatabase st))
    by exact Hst.
  rewrite Hdb. split; [|split].
  - unfold outcome.
    destruct (getDeployment_cases accountId appId deploymentId (postgreSqlPool st'))
      as [log ->].
    cbn [fst]. fold (theDatabase st'). rewrite Hdb, deploymentOf_deleteDeployment.
    rewrite decide_True by done.
    by destruct (accountById _ _), (appById _ _).
  - by rewrite packagesOf_deleteDeployment, decide_True.
  - intros d' Hne.
    by rewrite deploymentOf_deleteDeployment, packagesOf_deleteDeployment, !decide_False.
Qed.

(** X6. [updateDeployment] that resolves has given the deployment of the
    id it was passed the new name and key and nothing else: the row
    stays with its app whatever app the argument names, the other
    deployments and all packages are as before. *)
Theorem updateDeployment_rewrites (accountId appId : string) (deployment : Deployment.row)
    (st : Storage) :
  outcomeS (updateDeployment accountId appId deployment) st = Resolved tt ->
  let db := theDatabase st in
  let db' := storedS (updateDeployment accountId appId deployment) st in
  (exists d,
      deploymentOf db (Deployment.id deployment) = Some d /\
      deploymentOf db' (Deployment.id deployment) =
      Some (Deployment.mk (Deployment.id deployment) (Deployment.name deployment)
              (Deployment.appId d) (Deployment.key deployment))) /\
  (forall d', d' ≠ Deployment.id deployment -> deploymentOf db' d' = deploymentOf db d') /\
  packages db' = packages db.
Proof.
  intros Hres db db'. subst db db'.
  pose proof (updateDeployment_run accountId appId deployment st) as Hrun.
  cbv zeta in Hrun.
  destruct (accountById (theDatabase st) accountId) as [account|] eqn:Ha;
    [|destruct Hrun; congruence].
  destruct (appById (theDatabase st) appId) as [app|] eqn:Happ;
    [|destruct Hrun; congruence].
  destruct (deploymentOf (theDatabase st) (Deployment.id deployment)) as [d|] eqn:Hd;
    [|destruct Hrun; congruence].
  unfold renameDeployment in Hrun.
  destruct (_ && _); [destruct Hrun; congruence|].
  destruct Hrun as [_ ->].
  assert (Hlook : forall k,
             deploymentOf
               (setDeployments (theDatabase st)
                  ((fun d => if bool_decide (Deployment.id d = Deployment.id deployment)
                             then Deployment.mk (Deployment.id d)
                                    (Deployment.name deployment)
                                    (Deployment.appId d) (Deployment.key deployment)
                             else d) <$> deployments (theDatabase st))) k
             = (fun d => if bool_decide (Deployment.id d = Deployment.id deployment)
                         then Deployment.mk (Deployment.id d)
                                (Deployment.name deployment)
                                (Deployment.appId d) (Deployment.key deployment)
                         else d) <$> deploymentOf (theDatabase st) k).
  { intros k. unfold deploymentOf. cbn [setDeployments deployments].
    rewrite filter_fmap_stable.
    - by destruct (filter _ _).
    - intros x. by destruct (bool_decide (Deployment.id x = _)). }
  split; [|split].
  - exists d. split; [done|]. rewrite Hlook, Hd. cbn [fmap option_fmap option_map].
    apply deploymentOf_id in Hd. by rewrite bool_decide_eq_true_2, Hd.
  - intros d' Hne. rewrite Hlook.
    destruct (deploymentOf (theDatabase st) d') as [x|] eqn:Hx; [|done].
    cbn [fmap option_fmap option_map]. apply deploymentOf_id in Hx.
    rewrite bool_decide_eq_false_2; [done|congruence].
  - done.
Qed.

(** ** Package history *)


Lemma commitPackage_run newId accountId appId d pkg p :
  let db := database p in
  let top := latest (packagesOf d db) in
  let r := withLabel (labelFor (length (packagesOf d db))) pkg in
  let call := commitPackage newId accountId appId d pkg in
  match accountById db accountId, appById db appId, deploymentOf db d with
  | Some _, Some _, Some _ =>
      if bool_decide (newId ∈ PackageRow.id <$> packages db)
      then outcome call p = Rejected (UniqueViolation "packages") /\
           stored call p = clearLatestRollout d db
      else outcome call p = Resolved r /\
           stored call p =
           setPackages db ((clearIf top <$> packages db) ++ [toRow newId d r])%list
  | _, _, _ =>
      outcome call p = Rejected (StorageError NotFound None) /\ stored call p = db
  end.
Proof.
  intros db top r call. subst db top r call. unfold outcome, stored, commitPackage.
  destruct (getDeployment_cases accountId appId d p) as [log E]. await E.
  destruct (accountById _ _); [|done]. destruct (appById _ _); [|done].
  destruct (deploymentOf _ _) as [dep|]; [|done].
  await execute_run. await @select_run.
  rewrite (packagesOf_clearLatestRollout d (database p)), length_fmap.
  await insertPackage_run. cbn [toRow PackageRow.id].
  rewrite packages_clearLatestRollout.
  assert (Hids : PackageRow.id <$> (clearIf (latest (packagesOf d (database p)))
                                      <$> packages (database p))
                 = PackageRow.id <$> packages (database p)).
  { rewrite <- list_fmap_compose. apply list_fmap_ext. intros i x _. unfold compose.
    by destruct (clearIf_same (latest (packagesOf d (database p))) x) as (-> & _). }
  rewrite Hids. destruct (bool_decide _); [done|].
  rewrite resolve_run. cbn [fst snd database]. split; [done|].
  unfold clearLatestRollout, clearIf. by destruct (latest _), (database p).
Qed.



Lemma filter_unique {A B} `{EqDecision B} (f : A -> B) (l : list A) (x : A) :
  NoDup (f <$> l) -> x ∈ l -> filter (fun a => f a = f x) l = [x].
Proof.
  induction l as [|y l IH]; [by intros _ ?%elem_of_nil|].
  rewrite fmap_cons, NoDup_cons. intros [Hy Hl] [->|Hx]%elem_of_cons.
  - rewrite filter_cons_True by done. f_equal.
    destruct (filter _ l) as [|z rest] eqn:Hz; [done|].
    assert (Hin : z ∈ filter (fun a => f a = f y) l) by (rewrite Hz; left).
    apply list_elem_of_filter in Hin as [Hfz Hin].
    destruct Hy. rewrite <- Hfz. by apply list_elem_of_fmap_2.
  - rewrite filter_cons_False; [by apply IH|].
    intros Heq. apply Hy. rewrite Heq. by apply list_elem_of_fmap_2.
Qed.

(** X8. With unique deployment keys, the history read by deployment key,
    which asks for no account, is the history that [getPackageHistory]
    returns for the deployment of that key to an account that can read
    an app. *)
Theorem getPackageHistoryFromDeploymentKey_agrees (accountId appId : string)
    (d : Deployment.row) (st : Storage) account app :
  NoDup (Deployment.key <$> deployments (theDatabase st)) ->
  accountById (theDatabase st) accountId = Some account ->
  appById (theDatabase st) appId = Some app ->
  d ∈ deployments (theDatabase st) ->
  outcomeS (getPackageHistoryFromDeploymentKey (Deployment.key d)) st
  = Resolved (packagesOf (Deployment.id d) (theDatabase st)) /\
  outcomeS (getPackageHistory accountId appId (Deployment.id d)) st
  = Resolved (packagesOf (Deployment.id d) (theDatabase st)).
Proof.
  intros Hkeys Ha Happ Hd. split.
  - unfold outcomeS, getPackageHistoryFromDeploymentKey.
    rewrite bindS_run, sqlSelect_run. cbn [fst snd]. rewrite resolveS_run. cbn [fst].
    unfold joinPackages. rewrite (filter_unique Deployment.key _ d Hkeys Hd).
    cbn [mbind list_bind]. by rewrite app_nil_r.
  - unfold outcomeS, getPackageHistory.
    destruct (liftS_getDeployment_cases accountId appId (Deployment.id d) st) as [log E].
    awaitS E. rewrite Ha, Happ.
    destruct (head_filter_elem_of (fun x => Deployment.id x = Deployment.id d)
                (deployments (theDatabase st)) d Hd eq_refl) as [d' Hd'].
    unfold deploymentOf. rewrite Hd'.
    rewrite bindS_run, sqlSelect_run. cbn [fst snd]. by rewrite resolveS_run.
Qed.

Lemma id_clearIf top (l : list PackageRow.row) :
  PackageRow.id <$> (clearIf top <$> l) = PackageRow.id <$> l.
Proof.
  rewrite <- list_fmap_compose. apply list_fmap_ext. intros i x _. unfold compose.
  by destruct (clearIf_same top x) as (-> & _).
Qed.

(** With unique package ids, clearing the rollout of the latest package
    of a deployment changes no package of another deployment. *)
Lemma packagesOf_clearIf_other d d' db :
  packagesWellFormed db -> d' ≠ d ->
  filter (fun r => PackageRow.deploymentId r = d')
    (clearIf (latest (packagesOf d db)) <$> packages db)
  = packagesOf d' db.
Proof.
  intros Hids Hne. rewrite filter_fmap_stable.
  2:{ intros x. by destruct (clearIf_same (latest (packagesOf d db)) x) as (_ & -> & _). }
  fold (packagesOf d' db). apply fmap_unchanged. intros r Hr.
  unfold clearIf. destruct (latest (packagesOf d db)) as [top|] eqn:Htop; [|done].
  rewrite bool_decide_eq_false_2; [done|]. intros Hsame.
  apply latest_elem_of, list_elem_of_filter in Htop as [Htop Hin].
  apply list_elem_of_filter in Hr as [Hr Hin'].
  assert (r = top) by (by eapply (NoDup_fmap_elem_of_eq PackageRow.id)).
  congruence.
Qed.

(** X9. With unique package ids, [commitPackage] on one deployment leaves
    the packages of every other deployment as they are, whatever its
    outcome, and package ids stay unique. *)
Theorem commitPackage_other_deployments (newId accountId appId deploymentId : string)
    (pkg : Package.t) (p : Pool) :
  packagesWellFormed (database p) ->
  let db' := stored (commitPackage newId accountId appId deploymentId pkg) p in
  packagesWellFormed db' /\
  forall d', d' ≠ deploymentId -> packagesOf d' db' = packagesOf d' (database p).
Proof.
  intros Hids db'. subst db'.
  pose proof (commitPackage_run newId accountId appId deploymentId pkg p) as Hrun.
  cbv zeta in Hrun.
  destruct (accountById _ _); [|destruct Hrun as [_ ->]; by split].
  destruct (appById _ _); [|destruct Hrun as [_ ->]; by split].
  destruct (deploymentOf _ _); [|destruct Hrun as [_ ->]; by split].
  destruct (bool_decide _) eqn:Hnew; destruct Hrun as [_ ->].
  - unfold packagesWellFormed. rewrite packages_clearLatestRollout, id_clearIf.
    split; [done|]. intros d' Hne. unfold packagesOf at 1.
    rewrite packages_clearLatestRollout. by apply packagesOf_clearIf_other.
  - apply bool_decide_eq_false in Hnew.
    unfold packagesWellFormed. cbn [setPackages packages]. split.
    + rewrite fmap_app, id_clearIf. apply NoDup_app. split; [done|].
      split; [|apply NoDup_singleton].
      intros x Hx ->%list_elem_of_singleton. done.
    + intros d' Hne. unfold packagesOf at 1. cbn [setPackages packages].
      rewrite filter_app, filter_cons_False, filter_nil, app_nil_r.
      * by apply packagesOf_clearIf_other.
      * cbn [toRow PackageRow.deploymentId]. congruence.
Qed.

Lemma updateEach_run history p :
  updateEach history p =
  (Resolved tt,
   mkPool (foldl (fun db h => updatePackage h db) (database p) history)
     (repeat UpdatePackage (length history) ++ issued p)).
Proof.
  revert p. induction history as [|h rest IH]; intros p.
  - cbn [updateEach]. rewrite resolve_run. by destruct p.
  - cbn [updateEach]. await execute_run. rewrite IH. cbn [database issued foldl length].
    f_equal. f_equal.
    change (UpdatePackage :: issued p) with ([UpdatePackage] ++ issued p)%list.
    rewrite app_assoc. f_equal.
    change [UpdatePackage] with (repeat UpdatePackage 1).
    by rewrite <- repeat_app, Nat.add_comm.
Qed.

Lemma updatePackageHistory_run accountId appId deploymentId history p :
  history ≠ [] ->
  let db := database p in
  let call := updatePackageHistory accountId appId deploymentId history in
  match accountById db accountId, appById db appId, deploymentOf db deploymentId with
  | Some _, Some _, Some _ =>
      outcome call p = Resolved tt /\
      stored call p = foldl (fun db h => updatePackage h db) db history
  | _, _, _ =>
      outcome call p = Rejected (StorageError NotFound None) /\ stored call p = db
  end.
Proof.
  intros Hne db call. subst db call. unfold outcome, stored, updatePackageHistory.
  destruct history as [|h rest]; [done|].
  destruct (getDeployment_cases accountId appId deploymentId p) as [log E]. await E.
  destruct (accountById _ _); [|done]. destruct (appById _ _); [|done].
  destruct (deploymentOf _ _) as [dep|]; [|done].
  rewrite bind_run, updateEach_run. cbn [fst snd database]. by rewrite resolve_run.
Qed.

Lemma identity_updatePackage h db :
  identity <$> packages (updatePackage h db) = identity <$> packages db.
Proof.
  unfold updatePackage. cbn [setPackages packages].
  rewrite <- list_fmap_compose. apply list_fmap_ext. intros i r _. unfold compose.
  by destruct (bool_decide (PackageRow.id r = _)).
Qed.

Lemma untouched_updatePackage (ids : list string) h db :
  PackageRow.id h ∈ ids ->
  filter (fun r => PackageRow.id r ∉ ids) (packages (updatePackage h db))
  = filter (fun r => PackageRow.id r ∉ ids) (packages db).
Proof.
  intros Hin. unfold updatePackage. cbn [setPackages packages].
  rewrite filter_fmap_stable.
  - apply fmap_unchanged. intros r [Hr _]%list_elem_of_filter.
    rewrite bool_decide_eq_false_2; [done|]. congruence.
  - intros r. by destruct (bool_decide (PackageRow.id r = _)).
Qed.

(** X10. Whatever history it is given and however it ends,
    [updatePackageHistory] neither adds nor deletes a package and never
    changes the id, the deployment, the original label or the original
    deployment of one; packages whose id the history does not name are
    left as they are. *)
Theorem updatePackageHistory_keeps_identity (accountId appId deploymentId : string)
    (history : list PackageRow.row) (p : Pool) :
  let db' := stored (updatePackageHistory accountId appId deploymentId history) p in
  identity <$> packages db' = identity <$> packages (database p) /\
  filter (fun r => PackageRow.id r ∉ PackageRow.id <$> history) (packages db')
  = filter (fun r => PackageRow.id r ∉ PackageRow.id <$> history) (packages (database p)).
Proof.
  intros db'. subst db'.
  destruct history as [|h0 rest0] eqn:Hh; [done|]. rewrite <- Hh.
  assert (Hne : history ≠ []) by (by rewrite Hh).
  pose proof (updatePackageHistory_run accountId appId deploymentId history p Hne) as Hrun.
  cbv zeta in Hrun.
  destruct (accountById _ _); [|destruct Hrun as [_ ->]; by split].
  destruct (appById _ _); [|destruct Hrun as [_ ->]; by split].
  destruct (deploymentOf _ _); [|destruct Hrun as [_ ->]; by split].
  destruct Hrun as [_ ->]. clear Hh Hne.
  assert (Hall : forall (ids : list string) done db,
             (forall h, h ∈ done -> PackageRow.id h ∈ ids) ->
             identity <$> packages (foldl (fun db h => updatePackage h db) db done)
             = identity <$> packages db /\
             filter (fun r => PackageRow.id r ∉ ids)
               (packages (foldl (fun db h => updatePackage h db) db done))
             = filter (fun r => PackageRow.id r ∉ ids) (packages db)).
  { intros ids done. induction done as [|h rest IH]; intros db Hsub; [done|].
    cbn [foldl].
    destruct (IH (updatePackage h db)) as [-> ->].
    { intros h' Hh'. apply Hsub. by right. }
    rewrite identity_updatePackage, untouched_updatePackage; [done|].
    apply Hsub. left. }
  apply Hall. intros h Hin. by apply list_elem_of_fmap_2.
Qed.

Lemma getPackageHistory_run accountId appId deploymentId st :
  let db := theDatabase st in
  let call := getPackageHistory accountId appId deploymentId in
  storedS call st = db /\
  outcomeS call st =
  match accountById db accountId, appById db appId, deploymentOf db deploymentId with
  | Some _, Some _, Some _ => Resolved (packagesOf deploymentId db)
  | _, _, _ => Rejected (StorageError NotFound None)
  end.
Proof.
  intros db call. subst db call. unfold outcomeS, storedS, getPackageHistory.
  destruct (liftS_getDeployment_cases accountId appId deploymentId st) as [log E].
  awaitS E.
  destruct (accountById _ _); [|done]. destruct (appById _ _); [|done].
  destruct (deploymentOf _ _) as [d|]; [|done].
  rewrite bindS_run, sqlSelect_run. cbn [fst snd]. by rewrite resolveS_run.
Qed.

Lemma updatePackage_stored h db :
  packagesWellFormed db -> h ∈ packages db -> updatePackage h db = db.
Proof.
  intros Hids Hin. unfold updatePackage.
  rewrite fmap_unchanged; [by destruct db|].
  intros r Hr. case_bool_decide as Hsame; [|done].
  assert (r = h) as -> by (by eapply (NoDup_fmap_elem_of_eq PackageRow.id)).
  by destruct h.
Qed.

(** X11. With unique package ids, writing back with
    [updatePackageHistory] the history that [getPackageHistory] has just
    returned resolves and leaves the store as it is. *)
Theorem updatePackageHistory_write_back (accountId appId deploymentId : string)
    (history : list PackageRow.row) (st : Storage) :
  packagesWellFormed (theDatabase st) ->
  outcomeS (getPackageHistory accountId appId deploymentId) st = Resolved history ->
  history ≠ [] ->
  outcome (updatePackageHistory accountId appId deploymentId history) (postgreSqlPool st)
  = Resolved tt /\
  stored (updatePackageHistory accountId appId deploymentId history) (postgreSqlPool st)
  = theDatabase st.
Proof.
  intros Hids Hget Hne.
  destruct (getPackageHistory_run accountId appId deploymentId st) as [_ Hout].
  rewrite Hout in Hget.
  pose proof (updatePackageHistory_run accountId appId deploymentId history
                (postgreSqlPool st) Hne) as Hrun.
  cbv zeta in Hrun. fold (theDatabase st) in Hrun.
  destruct (accountById _ _); [|done]. destruct (appById _ _); [|done].
  destruct (deploymentOf _ _); [|done].
  destruct Hrun as [-> ->]. split; [done|].
  assert (Hsub : forall h, h ∈ history -> h ∈ packages (theDatabase st)).
  { intros h Hh. injection Hget as <-. by apply list_elem_of_filter in Hh as [_ Hh]. }
  clear Hget Hne. induction history as [|h rest IH]; [done|].
  cbn [foldl]. rewrite updatePackage_stored; [|done|apply Hsub; left].
  apply IH. intros h' Hh'. apply Hsub. by right.
Qed.

(** ** Access keys *)

Lemma liftS_getAccount_run accountId st :
  liftS (getAccount accountId) st =
  (match accountById (theDatabase st) accountId with
   | Some account => Resolved account
   | None => Rejected (StorageError NotFound None)
   end,
   setPool st (mkPool (theDatabase st) (SelectAccountById :: issued (postgreSqlPool st)))).
Proof. apply liftS_run, getAccount_run. Qed.

Lemma addAccessKey_run newId accountId accessKey st :
  let db := theDatabase st in
  let row := AccessKeyRow.mk newId (AccessKey.name accessKey)
               (Some (AccessKey.expires accessKey)) in
  let link := KeyLink.mk newId accountId (Some (AccessKey.expires accessKey)) in
  let call := addAccessKey newId accountId accessKey in
  match accountById db accountId with
  | None => outcomeS call st = Rejected (StorageError NotFound None) /\ storedS call st = db
  | Some _ =>
      if bool_decide (newId ∈ AccessKeyRow.id <$> access_keys db)
         || bool_decide (AccessKey.name accessKey ∈ AccessKeyRow.name <$> access_keys db)
      then outcomeS call st = Rejected (UniqueViolation "access_keys") /\
           storedS call st = db
      else
        if bool_decide ((newId, accountId) ∈
                        (fun l => (KeyLink.accessKeyId l, KeyLink.accountId l))
                          <$> access_key_to_account_map db)
        then outcomeS call st = Rejected (UniqueViolation "access_key_to_account_map") /\
             storedS call st = setAccessKeys db (access_keys db ++ [row])%list
        else outcomeS call st = Resolved newId /\
             storedS call st =
             setKeyLinks (setAccessKeys db (access_keys db ++ [row])%list)
               (access_key_to_account_map db ++ [link])%list
  end.
Proof.
  intros db row link call. subst db row link call.
  unfold outcomeS, storedS, addAccessKey.
  awaitS liftS_getAccount_run.
  destruct (accountById _ _) as [account|]; [|done].
  rewrite bindS_run, command_run. unfold insertAccessKey.
  cbn [theDatabase setPool postgreSqlPool database AccessKeyRow.id AccessKeyRow.name].
  destruct (_ || _); [done|].
  cbn [fst snd]. rewrite bindS_run, sql_run. unfold insertKeyLink.
  cbn [theDatabase setDatabase setPool setKeyDetails noted postgreSqlPool database
       setAccessKeys access_key_to_account_map KeyLink.accessKeyId KeyLink.accountId].
  destruct (bool_decide _); [done|].
  by rewrite resolveS_run.
Qed.

(** X12. When the mappings refer to stored keys only, a key that
    [addAccessKey] has added resolves by its name to the account it was
    added for until the expiry it was given, is [Expired] from then on,
    and is among the keys of the account. *)
Theorem addAccessKey_then_resolve (newId accountId : string) (accessKey : AccessKey.t)
    (st : Storage) (id : string) (now : Z) :
  keyLinksWellFormed (theDatabase st) ->
  outcomeS (addAccessKey newId accountId accessKey) st = Resolved id ->
  let st' := afterS (addAccessKey newId accountId accessKey) st in
  let row := AccessKeyRow.mk newId (AccessKey.name accessKey)
               (Some (AccessKey.expires accessKey)) in
  id = newId /\
  outcome (getAccountIdFromAccessKey now (AccessKey.name accessKey)) (postgreSqlPool st')
  = (if (AccessKey.expires accessKey <=? now)%Z
     then Rejected (StorageError Expired (Some "The access key has expired."))
     else Resolved accountId) /\
  exists rows, outcomeS (getAccessKeys accountId) st' = Resolved rows /\ row ∈ rows.*1.
Proof.
  intros Hfk Hres st' row.
  pose proof (addAccessKey_run newId accountId accessKey st) as Hrun.
  cbv zeta in Hrun.
  destruct (accountById (theDatabase st) accountId) as [account|] eqn:Ha;
    [|destruct Hrun; congruence].
  destruct (bool_decide (newId ∈ _)) eqn:Hid; [destruct Hrun; congruence|].
  destruct (bool_decide (AccessKey.name accessKey ∈ _)) eqn:Hname;
    [destruct Hrun; congruence|].
  cbn [orb] in Hrun.
  destruct (bool_decide ((newId, accountId) ∈ _)) eqn:Hpair;
    [destruct Hrun; congruence|].
  destruct Hrun as [Hout Hst].
  apply bool_decide_eq_false in Hid, Hname.
  assert (Hdb : theDatabase st' =
                setKeyLinks (setAccessKeys (theDatabase st)
                               (access_keys (theDatabase st) ++ [row])%list)
                  (access_key_to_account_map (theDatabase st)
                     ++ [KeyLink.mk newId accountId (Some (AccessKey.expires accessKey))])%list)
    by exact Hst.
  assert (Hkeys : filter (fun a => AccessKeyRow.name a = AccessKey.name accessKey)
                    (access_keys (theDatabase st')) = [row]).
  { rewrite Hdb. cbn [setKeyLinks setAccessKeys access_keys].
    rewrite filter_app, filter_cons_True, filter_nil by done.
    destruct (filter _ (access_keys (theDatabase st))) as [|a rest] eqn:Hf; [done|].
    assert (Hin : a ∈ filter (fun a => AccessKeyRow.name a = AccessKey.name accessKey)
                    (access_keys (theDatabase st))) by (rewrite Hf; left).
    apply list_elem_of_filter in Hin as [Hn Hin].
    destruct Hname. rewrite <- Hn. by apply list_elem_of_fmap_2. }
  assert (Hlinks : filter (fun b => KeyLink.accessKeyId b = newId)
                     (access_key_to_account_map (theDatabase st'))
                   = [KeyLink.mk newId accountId (Some (AccessKey.expires accessKey))]).
  { rewrite Hdb. cbn [setKeyLinks setAccessKeys access_key_to_account_map].
    rewrite filter_app, filter_cons_True, filter_nil by done.
    destruct (filter _ (access_key_to_account_map (theDatabase st))) as [|b rest] eqn:Hf;
      [done|].
    assert (Hin : b ∈ filter (fun b => KeyLink.accessKeyId b = newId)
                    (access_key_to_account_map (theDatabase st))) by (rewrite Hf; left).
    apply list_elem_of_filter in Hin as [Hn Hin].
    destruct Hid. rewrite <- Hn. by apply Hfk. }
  split; [congruence|]. split.
  - unfold outcome. rewrite getAccountIdFromAccessKey_run. cbn [fst].
    fold (theDatabase st'). unfold joinAccessKey. rewrite Hkeys.
    cbn [mbind list_bind AccessKeyRow.id row]. rewrite app_nil_r.
    fold row. cbn [AccessKeyRow.id row]. rewrite Hlinks.
    cbn [head KeyLink.expires KeyLink.accountId]. unfold reached. by cbn [default].
  - eexists. split.
    + unfold outcomeS, getAccessKeys. rewrite bindS_run, command_run. cbn [fst snd].
      by rewrite resolveS_run.
    + apply list_elem_of_fmap. eexists (row, _). split; [done|].
      unfold joinAccessKeys. apply list_elem_of_bind.
      exists (KeyLink.mk newId accountId (Some (AccessKey.expires accessKey))). split.
      * apply list_elem_of_bind. exists row. split; [left|].
        apply list_elem_of_filter. split; [done|].
        rewrite Hdb. cbn [setKeyLinks setAccessKeys access_keys].
        apply elem_of_app. right. left.
      * apply list_elem_of_filter. split; [done|].
        rewrite Hdb. cbn [setKeyLinks setAccessKeys access_key_to_account_map].
        apply elem_of_app. right. left.
Qed.

Lemma getAccessKey_run accountId accessKeyId st :
  getAccessKey accountId accessKeyId st =
  (match head (joinAccessKeyById st accessKeyId) with
   | Some row =>
       if negb (truthyString (StoredAccessKey.accountId row))
          || bool_decide (StoredAccessKey.accountId row ≠ accountId)
       then Rejected (StorageError NotFound None)
       else Resolved row
   | None => Rejected (StorageError NotFound None)
   end,
   noted SelectAccessKeyById st).
Proof.
  unfold getAccessKey. rewrite bindS_run, command_run.
  destruct (head _) as [row|]; [|done]. by destruct (_ || _).
Qed.

#[global] Arguments getAccessKey : simpl never.

Lemma removeAccessKey_run accountId accessKeyId st :
  let call := removeAccessKey accountId accessKeyId in
  match outcomeS (getAccessKey accountId accessKeyId) st with
  | Resolved _ =>
      outcomeS call st = Resolved tt /\
      afterS call st =
      noted DeleteAccessKey (deleteAccessKey accessKeyId (noted SelectAccessKeyById st))
  | Rejected e =>
      outcomeS call st = Rejected e /\ afterS call st = noted SelectAccessKeyById st
  | Unsettled e =>
      outcomeS call st = Unsettled e /\ afterS call st = noted SelectAccessKeyById st
  end.
Proof.
  cbv zeta. unfold outcomeS, afterS, removeAccessKey.
  rewrite bindS_run, getAccessKey_run. cbn [fst snd].
  destruct (head _) as [row|]; [|done]. destruct (_ || _); [done|].
  by rewrite bindS_run, command_run.
Qed.

Lemma updateAccessKey_run accountId accessKey st :
  let call := updateAccessKey accountId accessKey in
  match outcomeS (getAccessKey accountId (AccessKey.id accessKey)) st with
  | Resolved _ =>
      match rewriteAccessKey accessKey (noted SelectAccessKeyById st) with
      | inl e => outcomeS call st = Rejected e /\
                 afterS call st = noted UpdateAccessKey (noted SelectAccessKeyById st)
      | inr (_, st') => outcomeS call st = Resolved tt /\
                        afterS call st = noted UpdateAccessKey st'
      end
  | Rejected e =>
      outcomeS call st = Rejected e /\ afterS call st = noted SelectAccessKeyById st
  | Unsettled e =>
      outcomeS call st = Unsettled e /\ afterS call st = noted SelectAccessKeyById st
  end.
Proof.
  cbv zeta. unfold outcomeS, afterS, updateAccessKey.
  rewrite bindS_run, getAccessKey_run. cbn [fst snd].
  destruct (head _) as [row|]; [|done]. destruct (_ || _); [done|].
  rewrite bindS_run, command_run.
  by destruct (rewriteAccessKey _ _) as [e|[[] st']].
Qed.

(** X14. A key that one account can read with [getAccessKey] is
    [NotFound] for every other account, which can then neither remove
    nor update it: both calls are rejected and the stored keys, mappings
    and key details stay as they are. *)
Theorem access_key_of_another_account (owner accountId accessKeyId : string)
    (accessKey : AccessKey.t) (st : Storage) row :
  outcomeS (getAccessKey owner accessKeyId) st = Resolved row ->
  accountId ≠ owner ->
  AccessKey.id accessKey = accessKeyId ->
  outcomeS (getAccessKey accountId accessKeyId) st = Rejected (StorageError NotFound None) /\
  (outcomeS (removeAccessKey accountId accessKeyId) st
   = Rejected (StorageError NotFound None) /\
   storedS (removeAccessKey accountId accessKeyId) st = theDatabase st /\
   access_key_details (afterS (removeAccessKey accountId accessKeyId) st)
   = access_key_details st) /\
  (outcomeS (updateAccessKey accountId accessKey) st
   = Rejected (StorageError NotFound None) /\
   storedS (updateAccessKey accountId accessKey) st = theDatabase st /\
   access_key_details (afterS (updateAccessKey accountId accessKey) st)
   = access_key_details st).
Proof.
  intros Hget Hne Hid.
  assert (Hother : outcomeS (getAccessKey accountId accessKeyId) st
                   = Rejected (StorageError NotFound None)).
  { unfold outcomeS in *. rewrite getAccessKey_run in *. cbn [fst] in *.
    destruct (head _) as [r|]; [|done].
    destruct (negb _); [done|]. cbn [orb] in *.
    case_bool_decide as Hr; [done|].
    rewrite bool_decide_eq_true_2; [done|]. congruence. }
  split; [exact Hother|]. split.
  - pose proof (removeAccessKey_run accountId accessKeyId st) as Hrun.
    cbv zeta in Hrun. rewrite Hother in Hrun. destruct Hrun as [Hout Hafter].
    unfold storedS. fold (afterS (removeAccessKey accountId accessKeyId) st).
    by rewrite Hafter.
  - pose proof (updateAccessKey_run accountId accessKey st) as Hrun.
    cbv zeta in Hrun. rewrite Hid, Hother in Hrun. destruct Hrun as [Hout Hafter].
    unfold storedS. fold (afterS (updateAccessKey accountId accessKey) st).
    by rewrite Hafter.
Qed.

Lemma filter_none {A} (P : A -> Prop) `{forall x, Decision (P x)} (l : list A) :
  (forall x, x ∈ l -> ~ P x) -> filter P l = [].
Proof.
  induction l as [|x l IH]; [done|]. intros Hl.
  rewrite filter_cons_False by (apply Hl; left). apply IH.
  intros y Hy. apply Hl. by right.
Qed.

Lemma filter_filter_in {A} (P Q : A -> Prop)
    `{forall x, Decision (P x)} `{forall x, Decision (Q x)} (l : list A) :
  (forall x, x ∈ l -> P x -> Q x) -> filter P (filter Q l) = filter P l.
Proof.
  induction l as [|x l IH]; [done|]. intros Hl.
  assert (IH' : filter P (filter Q l) = filter P l).
  { apply IH. intros y Hy. apply Hl. by right. }
  destruct (decide (Q x)) as [Hq|Hq].
  - rewrite (filter_cons_True Q) by done. rewrite !(filter_cons P), IH'. done.
  - rewrite (filter_cons_False Q) by done. rewrite IH'.
    rewrite (filter_cons_False P); [done|]. intros Hp. apply Hq, Hl; [left|done].
Qed.

Lemma bind_ext_in {A B} (f g : A -> list B) (l : list A) :
  (forall x, x ∈ l -> f x = g x) -> l ≫= f = l ≫= g.
Proof.
  induction l as [|x l IH]; [done|]. intros Hl. cbn [mbind list_bind].
  rewrite (Hl x) by left. f_equal. apply IH. intros y Hy. apply Hl. by right.
Qed.

(** Resolution by name after a key and its mappings have been deleted. *)
Lemma joinAccessKey_deleted db db' k a n :
  accessKeysWellFormed db -> a ∈ access_keys db -> AccessKeyRow.id a = k ->
  access_keys db' = filter (fun x => AccessKeyRow.id x ≠ k) (access_keys db) ->
  access_key_to_account_map db'
  = filter (fun b => KeyLink.accessKeyId b ≠ k) (access_key_to_account_map db) ->
  joinAccessKey db' n = if decide (n = AccessKeyRow.name a) then [] else joinAccessKey db n.
Proof.
  intros [Hids Hnames] Ha Hk Hkeys Hlinks. unfold joinAccessKey. rewrite Hkeys, Hlinks.
  case_decide as Hn.
  - rewrite (filter_none (fun x => AccessKeyRow.name x = n)); [done|].
    intros y [Hy Hin]%list_elem_of_filter Hname. apply Hy.
    assert (y = a) as -> by (eapply (NoDup_fmap_elem_of_eq AccessKeyRow.name); [done..|congruence]).
    done.
  - assert (Hother : forall y, y ∈ access_keys db -> AccessKeyRow.name y = n ->
                               AccessKeyRow.id y ≠ k).
    { intros y Hy Hname Hid.
      assert (y = a) by (eapply (NoDup_fmap_elem_of_eq AccessKeyRow.id); [done..|congruence]).
      congruence. }
    rewrite (filter_filter_in (fun x => AccessKeyRow.name x = n)) by exact Hother.
    apply bind_ext_in. intros y [Hname Hy]%list_elem_of_filter.
    rewrite filter_without. rewrite decide_False; [done|]. by apply Hother.
Qed.

Lemma getAccessKey_resolved_key accountId accessKeyId st row :
  outcomeS (getAccessKey accountId accessKeyId) st = Resolved row ->
  exists a, a ∈ access_keys (theDatabase st) /\ AccessKeyRow.id a = accessKeyId.
Proof.
  unfold outcomeS. rewrite getAccessKey_run. cbn [fst].
  destruct (head _) as [r|] eqn:Hhead; [|done]. intros _.
  apply head_Some_elem_of in Hhead. unfold joinAccessKeyById in Hhead.
  apply list_elem_of_bind in Hhead as (a & _ & [Hid Ha]%list_elem_of_filter).
  by exists a.
Qed.

(** X13. With unique key ids and names, a key that [removeAccessKey] has
    removed is [NotFound] for [getAccountIdFromAccessKey] from then on,
    and every other key name resolves as it did before. *)
Theorem removeAccessKey_revokes (accountId accessKeyId : string) (st : Storage) :
  accessKeysWellFormed (theDatabase st) ->
  outcomeS (removeAccessKey accountId accessKeyId) st = Resolved tt ->
  let st' := afterS (removeAccessKey accountId accessKeyId) st in
  exists a,
    a ∈ access_keys (theDatabase st) /\ AccessKeyRow.id a = accessKeyId /\
    forall now,
      outcome (getAccountIdFromAccessKey now (AccessKeyRow.name a)) (postgreSqlPool st')
      = Rejected (StorageError NotFound None) /\
      forall other,
        other ≠ AccessKeyRow.name a ->
        outcome (getAccountIdFromAccessKey now other) (postgreSqlPool st')
        = outcome (getAccountIdFromAccessKey now other) (postgreSqlPool st).
Proof.
  intros Hwf Hres st'.
  pose proof (removeAccessKey_run accountId accessKeyId st) as Hrun. cbv zeta in Hrun.
  destruct (outcomeS (getAccessKey accountId accessKeyId) st) as [row|e|e] eqn:Hget;
    [|destruct Hrun; congruence..].
  destruct Hrun as [_ Hafter].
  destruct (getAccessKey_resolved_key _ _ _ _ Hget) as (a & Ha & Hid).
  exists a. split; [done|]. split; [done|].
  assert (Hjoin : forall n,
             joinAccessKey (theDatabase st') n =
             if decide (n = AccessKeyRow.name a) then []
             else joinAccessKey (theDatabase st) n).
  { intros n. apply (joinAccessKey_deleted _ _ accessKeyId); try done.
    - subst st'. by rewrite Hafter.
    - subst st'. by rewrite Hafter. }
  intros now. unfold outcome. split.
  - rewrite getAccountIdFromAccessKey_run. cbn [fst]. fold (theDatabase st').
    by rewrite Hjoin, decide_True.
  - intros other Hother. rewrite !getAccountIdFromAccessKey_run. cbn [fst].
    fold (theDatabase st') (theDatabase st). by rewrite Hjoin, decide_False.
Qed.

(** The rows of a column value after one row has been rewritten to it. *)
Lemma filter_rewritten {A K V} `{EqDecision K} `{EqDecision V} (id : A -> K) (col : A -> V)
    (g : A -> A) (k : K) (v : V) (l : list A) (a : A) :
  (forall x, col (g x) = v) ->
  NoDup (id <$> l) -> a ∈ l -> id a = k ->
  (v ∉ col <$> filter (fun x => id x ≠ k) l) ->
  filter (fun x => col x = v) ((fun x => if bool_decide (id x = k) then g x else x) <$> l)
  = [g a].
Proof.
  intros Hcol. induction l as [|x l IH]; [by intros _ ?%elem_of_nil|].
  rewrite fmap_cons, NoDup_cons. intros [Hx Hl] Hin Hk Hv. rewrite fmap_cons.
  destruct (decide (id x = k)) as [Hxk|Hxk].
  - assert (Hnone : forall y, y ∈ l -> id y ≠ k).
    { intros y Hy Hyk. apply Hx. rewrite Hxk, <- Hyk. by apply list_elem_of_fmap_2. }
    assert (x = a) as ->.
    { apply elem_of_cons in Hin as [->|Hin]; [done|]. by destruct (Hnone a Hin). }
    rewrite bool_decide_eq_true_2 by done.
    rewrite filter_cons_True by apply Hcol. f_equal.
    rewrite fmap_unchanged.
    2:{ intros y Hy. rewrite bool_decide_eq_false_2; [done|by apply Hnone]. }
    apply filter_none. intros y Hy Hcy. apply Hv.
    rewrite filter_cons_False by (intros ?; done).
    rewrite <- Hcy. apply list_elem_of_fmap_2, list_elem_of_filter. split; [|done].
    by apply Hnone.
  - rewrite bool_decide_eq_false_2 by done.
    rewrite (filter_cons_True (fun x => id x ≠ k)), fmap_cons, not_elem_of_cons in Hv by done.
    destruct Hv as [Hne Hv].
    rewrite filter_cons_False by congruence.
    apply IH; try done.
    apply elem_of_cons in Hin as [->|Hin]; [done|done].
Qed.

(** X15. [updateAccessKey] leaves the expiry of the mapping alone: with
    unique key ids and names, after an update that resolves the key is
    accepted under its new name exactly when it was accepted under its
    old name before, whatever expiry the update carried. *)
Theorem updateAccessKey_keeps_validity (accountId : string) (accessKey : AccessKey.t)
    (st : Storage) :
  accessKeysWellFormed (theDatabase st) ->
  outcomeS (updateAccessKey accountId accessKey) st = Resolved tt ->
  let st' := afterS (updateAccessKey accountId accessKey) st in
  access_key_to_account_map (theDatabase st') = access_key_to_account_map (theDatabase st) /\
  exists a,
    a ∈ access_keys (theDatabase st) /\ AccessKeyRow.id a = AccessKey.id accessKey /\
    forall now,
      outcome (getAccountIdFromAccessKey now (AccessKey.name accessKey)) (postgreSqlPool st')
      = outcome (getAccountIdFromAccessKey now (AccessKeyRow.name a)) (postgreSqlPool st).
Proof.
  intros [Hids Hnames] Hres st'.
  pose proof (updateAccessKey_run accountId accessKey st) as Hrun. cbv zeta in Hrun.
  destruct (outcomeS (getAccessKey accountId (AccessKey.id accessKey)) st)
    as [row|e|e] eqn:Hget; [|destruct Hrun; congruence..].
  destruct (getAccessKey_resolved_key _ _ _ _ Hget) as (a & Ha & Hid).
  unfold rewriteAccessKey in Hrun.
  cbn [theDatabase noted postgreSqlPool] in Hrun. fold (theDatabase st) in Hrun.
  rewrite (bool_decide_eq_true_2 (AccessKey.id accessKey ∈ _)) in Hrun.
  2:{ rewrite <- Hid. by apply list_elem_of_fmap_2. }
  destruct (bool_decide (AccessKey.name accessKey ∈ _)) eqn:Hname;
    cbn [andb] in Hrun; [destruct Hrun; congruence|].
  apply bool_decide_eq_false in Hname. destruct Hrun as [_ Hafter].
  assert (Hlinks : access_key_to_account_map (theDatabase st')
                   = access_key_to_account_map (theDatabase st)).
  { subst st'. by rewrite Hafter. }
  split; [exact Hlinks|]. exists a. split; [done|]. split; [done|].
  intros now. unfold outcome. rewrite !getAccountIdFromAccessKey_run. cbn [fst].
  fold (theDatabase st') (theDatabase st).
  assert (Hjoin : joinAccessKey (theDatabase st') (AccessKey.name accessKey)
                  = joinAccessKey (theDatabase st) (AccessKeyRow.name a)).
  { unfold joinAccessKey. rewrite Hlinks.
    rewrite (filter_unique AccessKeyRow.name _ a Hnames Ha).
    replace (access_keys (theDatabase st'))
      with ((fun x => if bool_decide (AccessKeyRow.id x = AccessKey.id accessKey)
                      then AccessKeyRow.mk (AccessKeyRow.id x) (AccessKey.name accessKey)
                             (Some (AccessKey.expires accessKey))
                      else x) <$> access_keys (theDatabase st))
      by (subst st'; by rewrite Hafter).
    rewrite (filter_rewritten AccessKeyRow.id AccessKeyRow.name
               (fun x => AccessKeyRow.mk (AccessKeyRow.id x) (AccessKey.name accessKey)
                           (Some (AccessKey.expires accessKey)))
               (AccessKey.id accessKey) (AccessKey.name accessKey) _ a); try done.
  }
  by rewrite Hjoin.
Qed.

(** ** Accounts *)



(** X17. An account that [addAccount] has added is found by its id and by
    its e-mail in lower case, which is the e-mail that is stored; adding
    an account whose e-mail differs from it only by letter case is
    rejected [AlreadyExists] and writes nothing. *)
Theorem addAccount_then_lookup (newId : string) (account : Account.row) (p : Pool)
    (id : string) :
  outcome (addAccount newId account) p = Resolved id ->
  let p' := after (addAccount newId account) p in
  let row := Account.mk newId (Account.name account) (toLowerCase (Account.email account))
               (Account.gitHubId account) in
  id = newId /\
  outcome (getAccount newId) p' = Resolved row /\
  outcome (getAccountByEmail (toLowerCase (Account.email account))) p' = Resolved row /\
  forall newId' account',
    toLowerCase (Account.email account') = toLowerCase (Account.email account) ->
    outcome (addAccount newId' account') p' = Rejected (StorageError AlreadyExists None) /\
    stored (addAccount newId' account') p' = database p'.
Proof.
  intros Hres p' row.
  destruct (addAccount newId account p) as [o p1] eqn:Hrun.
  assert (o = Resolved id) as -> by (unfold outcome in Hres; by rewrite Hrun in Hres).
  assert (p' = p1) as Hp' by (subst p'; unfold after; by rewrite Hrun).
  pose proof Hrun as Hshape. apply addAccount_resolved in Hshape. cbv zeta in Hshape.
  destruct Hshape as (Hid & Hemail & Hdb). fold row in Hdb. rewrite <- Hp' in Hdb.
  assert (Hnew : id = newId).
  { revert Hrun. unfold addAccount. rewrite bind_run. unfold attempt.
    rewrite getAccountByEmail_run. destruct (accountByEmail _ _); [done|].
    cbn [codeOf]. rewrite bool_decide_eq_true_2 by done.
    unfold query, insertAccount. cbn [database issued Account.id Account.email].
    destruct (_ || _); [done|]. by intros [= <- _]. }
  assert (Hbyid : accountById (database p') newId = Some row).
  { rewrite Hdb. unfold accountById. cbn [setAccounts accounts].
    rewrite head_filter_snoc, head_filter_None.
    - by rewrite decide_True.
    - intros a Ha Hsame. apply Hid. rewrite <- Hsame. by apply list_elem_of_fmap_2. }
  assert (Hbyemail : accountByEmail (database p') (toLowerCase (Account.email account))
                     = Some row).
  { rewrite Hdb. unfold accountByEmail. cbn [setAccounts accounts].
    rewrite head_filter_snoc, head_filter_None.
    - by rewrite decide_True.
    - intros a Ha Hsame. apply Hemail. rewrite <- Hsame. by apply list_elem_of_fmap_2. }
  split; [done|]. split; [|split].
  - unfold outcome. rewrite getAccount_run. cbn [fst]. by rewrite Hbyid.
  - unfold outcome. rewrite getAccountByEmail_run. cbn [fst]. by rewrite Hbyemail.
  - intros newId' account' Hsame. unfold outcome, stored, addAccount.
    rewrite bind_run. unfold attempt. rewrite getAccountByEmail_run, Hsame, Hbyemail.
    by rewrite reject_run.
Qed.

(** ** Apps and collaborators *)

Lemma getCollaborators_run accountId appId p :
  outcome (getCollaborators accountId appId) p =
  match accountById (database p) accountId, appById (database p) appId with
  | Some account, Some app =>
      Resolved (markCurrent (Account.id account) <$> App.collaborators app)
  | _, _ => Rejected (StorageError NotFound None)
  end.
Proof.
  unfold outcome, getCollaborators.
  destruct (getApp_cases accountId appId p)
    as [(account & app & Ha & Happ & E)|(log & Hnone & E)]; await E.
  - by rewrite Ha, Happ, resolve_run.
  - destruct Hnone as [-> | ->]; [done|]. by destruct (accountById _ _).
Qed.

(** X18. [getCollaborators] asks for an existing account and an existing
    app and for no membership of the one in the other.  In a store
    without stored [isCurrentAccount] properties the map it returns has
    the stored entries, with their permissions and account ids, and
    [isCurrentAccount] is [true] on exactly the entries of the requesting
    account and absent on the others. *)
Theorem getCollaborators_marks_requester (accountId appId : string) (p : Pool)
    (account : Account.row) (app : App.row) :
  unannotated (database p) ->
  accountById (database p) accountId = Some account ->
  appById (database p) appId = Some app ->
  exists m,
    outcome (getCollaborators accountId appId) p = Resolved m /\
    (forall e, permission <$> m !! e = permission <$> App.collaborators app !! e) /\
    (forall e, CollaboratorProperties.accountId <$> m !! e
               = CollaboratorProperties.accountId <$> App.collaborators app !! e) /\
    forall e c, m !! e = Some c ->
                isCurrentAccount c =
                if bool_decide (CollaboratorProperties.accountId c = accountId)
                then Some true else None.
Proof.
  intros Hplain Ha Happ. eexists. split.
  { rewrite getCollaborators_run, Ha, Happ. reflexivity. }
  rewrite (accountById_id _ _ _ Ha).
  split; [|split].
  - intros e. rewrite lookup_fmap. destruct (App.collaborators app !! e) as [c|]; [|done].
    cbn [fmap option_fmap option_map]. by rewrite permission_markCurrent.
  - intros e. rewrite lookup_fmap. destruct (App.collaborators app !! e) as [c|]; [|done].
    cbn [fmap option_fmap option_map]. by rewrite accountId_markCurrent.
  - intros e c. rewrite lookup_fmap.
    destruct (App.collaborators app !! e) as [c0|] eqn:Hc0; [|done].
    intros [= <-]. rewrite accountId_markCurrent.
    pose proof (Hplain app e c0 (appById_elem_of _ _ _ Happ) Hc0) as Hnone.
    unfold markCurrent. by destruct (bool_decide _).
Qed.

(** X19. After [addCollaborator] has resolved, [getCollaborators] shows
    the account of the lower-cased e-mail as a [Collaborator] under its
    stored e-mail, and every other entry with the permission it had. *)
Theorem addCollaborator_then_getCollaborators (accountId appId email : string) (p : Pool) :
  outcome (addCollaborator accountId appId email) p = Resolved tt ->
  let p' := after (addCollaborator accountId appId email) p in
  exists app target m c,
    appById (database p) appId = Some app /\
    accountByEmail (database p) (toLowerCase email) = Some target /\
    outcome (getCollaborators accountId appId) p' = Resolved m /\
    m !! Account.email target = Some c /\
    permission c = Collaborator /\
    CollaboratorProperties.accountId c = Account.id target /\
    forall e, e ≠ Account.email target ->
              permission <$> m !! e = permission <$> App.collaborators app !! e.
Proof.
  intros Hres p'.
  destruct (addCollaborator_shape accountId appId email p)
    as [(e & Hrej & _)|(_ & account & app & target & Ha & Happ & Hnew & Ht & Hlink & Hst)];
    [congruence|].
  assert (Hdb : database p' = stored (addCollaborator accountId appId email) p) by done.
  rewrite Hst in Hdb.
  exists app, target. eexists. eexists.
  split; [done|]. split; [done|].
  rewrite getCollaborators_run, Hdb.
  replace (accountById (writeApp _ _) accountId) with (Some account) by (symmetry; exact Ha).
  rewrite appById_writeApp.
  replace (appById (setAppLinks _ _) appId) with (Some app) by (symmetry; exact Happ).
  cbn [fmap option_fmap option_map App.id].
  rewrite (appById_id _ _ _ Happ), bool_decide_eq_true_2 by done.
  cbn [App.collaborators]. split; [reflexivity|].
  rewrite !lookup_fmap, lookup_insert_eq. cbn [fmap option_fmap option_map].
  split; [reflexivity|].
  rewrite permission_markCurrent, permission_unmarkCurrent, accountId_markCurrent,
    accountId_unmarkCurrent.
  split; [done|]. split; [done|].
  intros e He. rewrite !lookup_fmap, lookup_insert_ne by done. rewrite lookup_fmap.
  destruct (App.collaborators app !! e) as [c|]; [|done].
  cbn [fmap option_fmap option_map].
  by rewrite permission_markCurrent, permission_unmarkCurrent, permission_markCurrent.
Qed.

Lemma isAccountIdCollaborator_true (m : gmap string CollaboratorProperties) accountId :
  isAccountIdCollaborator m accountId = true <->
  exists e c, m !! e = Some c /\ CollaboratorProperties.accountId c = accountId.
Proof.
  unfold isAccountIdCollaborator. rewrite existsb_exists. split.
  - intros ([e c] & Hin%list_elem_of_In%elem_of_map_to_list & Hc%bool_decide_eq_true).
    by exists e, c.
  - intros (e & c & Hm & Hc). exists (e, c). split.
    + by apply list_elem_of_In, elem_of_map_to_list.
    + by apply bool_decide_eq_true.
Qed.

(** X20. In a consistent store [getApps] shows an account every app whose
    collaborator map has an entry of that account, with the entries of
    the account marked as current. *)
Theorem getApps_lists_memberships (accountId : string) (st : Storage) (app : App.row) :
  Consistent (theDatabase st) ->
  app ∈ apps (theDatabase st) ->
  isAccountIdCollaborator (App.collaborators app) accountId = true ->
  exists rows,
    outcomeS (getApps accountId) st = Resolved rows /\
    addIsCurrentAccountProperty app accountId ∈ rows.
Proof.
  intros [_ Happs] Happ (e & c & Hc & Hid)%isAccountIdCollaborator_true.
  eexists. split.
  { unfold outcomeS, getApps. rewrite bindS_run, sqlSelect_run. cbn [fst snd].
    by rewrite resolveS_run. }
  apply (list_elem_of_fmap_2 (fun a => addIsCurrentAccountProperty a accountId)).
  unfold joinApps. apply list_elem_of_bind.
  exists (AppLink.mk accountId (App.id app)). split.
  - apply list_elem_of_filter. by split.
  - apply list_elem_of_filter. split; [done|].
    destruct (Happs app Happ) as [_ Hentries].
    destruct (Hentries e c Hc) as [_ Hlink]. by rewrite Hid in Hlink.
Qed.

(** X24. An app that [addApp] has created has the requesting account as
    its only collaborator, with permission [Owner]; [getApp] returns it
    to that account with the entry marked as current, and [getApps]
    lists it for that account. *)
Theorem addApp_then_getApp (newId accountId : string) (app : App.row) (p : Pool)
    (r : App.row) :
  outcome (addApp newId accountId app) p = Resolved r ->
  let p' := after (addApp newId accountId app) p in
  exists account,
    accountById (database p) accountId = Some account /\
    r = App.mk newId (App.name app)
          {[ Account.email account := mkCollaborator accountId Owner None ]} /\
    outcome (getApp accountId newId) p'
    = Resolved (App.mk newId (App.name app)
                  {[ Account.email account := mkCollaborator accountId Owner (Some true) ]}) /\
    forall st, theDatabase st = database p' ->
               exists rows, outcomeS (getApps accountId) st = Resolved rows /\
                            addIsCurrentAccountProperty r accountId ∈ rows.
Proof.
  intros Hres p'.
  destruct (addApp newId accountId app p) as [o p1] eqn:Hrun.
  assert (o = Resolved r) as -> by (unfold outcome in Hres; by rewrite Hrun in Hres).
  assert (p' = p1) as Hp' by (subst p'; unfold after; by rewrite Hrun).
  apply addApp_resolved in Hrun as (account & Ha & Hnew & Hr & Hdb).
  rewrite <- Hp' in Hdb. exists account. split; [done|]. split; [done|].
  pose proof (accountById_id _ _ _ Ha) as Hid.
  assert (Happ : appById (database p') newId = Some r).
  { rewrite Hdb. unfold appById. cbn [setAppLinks setApps apps].
    rewrite head_filter_snoc, head_filter_None.
    - rewrite decide_True; [done|]. by rewrite Hr.
    - intros a Hin Hsame. apply Hnew. rewrite <- Hsame. by apply list_elem_of_fmap_2. }
  split.
  - unfold outcome. erewrite getApp_found; [|rewrite Hdb; exact Ha|exact Happ].
    cbn [fst]. rewrite Hr. unfold addIsCurrentAccountProperty.
    cbn [App.id App.name App.collaborators]. rewrite map_fmap_singleton.
    unfold markCurrent. cbn [CollaboratorProperties.accountId permission].
    by rewrite bool_decide_eq_true_2.
  - intros st Hst. eexists. split.
    { unfold outcomeS, getApps. rewrite bindS_run, sqlSelect_run. cbn [fst snd].
      by rewrite resolveS_run. }
    apply (list_elem_of_fmap_2 (fun a => addIsCurrentAccountProperty a accountId)).
    unfold joinApps. apply list_elem_of_bind.
    exists (AppLink.mk accountId newId). split.
    + apply list_elem_of_filter. split; [by rewrite Hr|].
      rewrite Hst, Hdb. cbn [setAppLinks setApps apps]. apply elem_of_app. right. left.
    + apply list_elem_of_filter. split; [done|].
      rewrite Hst, Hdb, Hid. cbn [setAppLinks account_to_apps_map].
      apply elem_of_app. right. left.
Qed.

Lemma isOwner_unmarkCurrent m email :
  isOwner (unmarkCurrent <$> m) email = isOwner m email.
Proof.
  unfold isOwner. rewrite lookup_fmap.
  destruct (m !! email) as [c|]; simpl; [|done]. by rewrite permission_unmarkCurrent.
Qed.

Lemma isCollaborator_unmarkCurrent m email :
  isCollaborator (unmarkCurrent <$> m) email = isCollaborator m email.
Proof.
  unfold isCollaborator. rewrite lookup_fmap.
  destruct (m !! email) as [c|]; simpl; [|done]. by rewrite permission_unmarkCurrent.
Qed.

(** X25. After [transferApp] has resolved, the stored map of the app has
    the account of the lower-cased e-mail as [Owner], and the requester,
    when that is another account, as [Collaborator]. *)
Theorem transferApp_then_roles (accountId appId email : string) (p : Pool) :
  outcome (transferApp accountId appId email) p = Resolved tt ->
  let db' := stored (transferApp accountId appId email) p in
  exists account target app',
    accountById (database p) accountId = Some account /\
    accountByEmail (database p) (toLowerCase email) = Some target /\
    appById db' appId = Some app' /\
    isOwner (App.collaborators app') (Account.email target) = true /\
    (Account.email account ≠ Account.email target ->
     isCollaborator (App.collaborators app') (Account.email account) = true).
Proof.
  intros Hres db'. subst db'.
  destruct (transferApp_shape accountId appId email p)
    as [(e & Hrej & _)|(_ & account & app & target & requester & Ha & Happ & Ht & Hnot &
                        Hreq & Hst)]; [congruence|].
  cbv zeta in Hst. exists account, target.
  set (marked := markCurrent (Account.id account) <$> App.collaborators app) in *.
  set (demoted := <[ Account.email account :=
                       setPermission Collaborator
                         (markCurrent (Account.id account) requester) ]> marked) in *.
  pose proof (appById_id _ _ _ Happ) as Hid.
  destruct (isCollaborator demoted (Account.email target)) eqn:Hcol; rewrite Hst.
  - eexists. split; [done|]. split; [done|]. split.
    { rewrite appById_writeApp, Happ. cbn [fmap option_fmap option_map App.id].
      rewrite bool_decide_eq_true_2 by done. reflexivity. }
    cbn [App.collaborators]. rewrite isOwner_unmarkCurrent, isCollaborator_unmarkCurrent.
    unfold isOwner, isCollaborator in *. split.
    + rewrite lookup_alter_eq. destruct (demoted !! Account.email target) as [c|]; [|done].
      cbn. by apply bool_decide_eq_true.
    + intros Hne. rewrite lookup_alter_ne by done. unfold demoted.
      rewrite lookup_insert_eq. cbn. by apply bool_decide_eq_true.
  - eexists. split; [done|]. split; [done|]. split.
    { rewrite appById_writeApp, appById_linked, Happ.
      cbn [fmap option_fmap option_map App.id].
      rewrite bool_decide_eq_true_2 by done. reflexivity. }
    cbn [App.collaborators]. rewrite isOwner_unmarkCurrent, isCollaborator_unmarkCurrent.
    unfold isOwner, isCollaborator. split.
    + rewrite lookup_insert_eq. cbn. by apply bool_decide_eq_true.
    + intros Hne. rewrite lookup_insert_ne by done. unfold demoted.
      rewrite lookup_insert_eq. cbn. by apply bool_decide_eq_true.
Qed.

(** X26. After [addCollaborator] has resolved, [getApps] for the account
    that was added lists the app. *)
Theorem addCollaborator_then_getApps (accountId appId email : string) (p : Pool)
    (st : Storage) :
  outcome (addCollaborator accountId appId email) p = Resolved tt ->
  theDatabase st = stored (addCollaborator accountId appId email) p ->
  exists target rows,
    accountByEmail (database p) (toLowerCase email) = Some target /\
    outcomeS (getApps (Account.id target)) st = Resolved rows /\
    exists row, row ∈ rows /\ App.id row = appId.
Proof.
  intros Hres Hst.
  destruct (addCollaborator_shape accountId appId email p)
    as [(e & Hrej & _)|(_ & account & app & target & Ha & Happ & Hnew & Ht & Hlink & Hdb)];
    [congruence|].
  rewrite Hdb in Hst. exists target. eexists. split; [done|]. split.
  { unfold outcomeS, getApps. rewrite bindS_run, sqlSelect_run. cbn [fst snd].
    by rewrite resolveS_run. }
  pose proof (appById_id _ _ _ Happ) as Hid.
  eexists. split.
  - apply (list_elem_of_fmap_2
             (fun a => addIsCurrentAccountProperty a (Account.id target))).
    unfold joinApps. apply list_elem_of_bind.
    exists (AppLink.mk (Account.id target) appId). split.
    + apply list_elem_of_filter. split; [|].
      2:{ rewrite Hst. cbn [writeApp setApps setAppLinks apps].
          apply (list_elem_of_fmap_2 _ _ app). by eapply appById_elem_of. }
      cbn [AppLink.appId App.id]. rewrite bool_decide_eq_true_2 by done. done.
    + apply list_elem_of_filter. split; [done|].
      rewrite Hst. cbn [writeApp setApps setAppLinks account_to_apps_map].
      apply elem_of_app. right. left.
  - cbn [App.id addIsCurrentAccountProperty]. rewrite bool_decide_eq_true_2 by done. done.
Qed.

(** X27. After [removeCollaborator] has resolved, [getApps] for the
    account that was removed does not list the app any more. *)
Theorem removeCollaborator_then_getApps (accountId appId email : string) (p : Pool)
    (st : Storage) :
  outcome (removeCollaborator accountId appId email) p = Resolved tt ->
  theDatabase st = stored (removeCollaborator accountId appId email) p ->
  exists target rows,
    accountByEmail (database p) (toLowerCase email) = Some target /\
    outcomeS (getApps (Account.id target)) st = Resolved rows /\
    forall row, row ∈ rows -> App.id row ≠ appId.
Proof.
  intros Hres Hst.
  destruct (removeCollaborator_shape accountId appId email p)
    as [(e & Hrej & _)|(_ & account & app & target & Ha & Happ & Hcol & Ht & Hdb)];
    [congruence|].
  rewrite Hdb in Hst. exists target. eexists. split; [done|]. split.
  { unfold outcomeS, getApps. rewrite bindS_run, sqlSelect_run. cbn [fst snd].
    by rewrite resolveS_run. }
  intros row (a & -> & Hin)%list_elem_of_fmap. cbn [App.id addIsCurrentAccountProperty].
  unfold joinApps in Hin. apply list_elem_of_bind in Hin as (l & Hrow & Hl).
  apply list_elem_of_filter in Hrow as [Hid _].
  apply list_elem_of_filter in Hl as [Hacc Hl].
  rewrite Hst in Hl. cbn [writeApp setApps setAppLinks account_to_apps_map] in Hl.
  apply list_elem_of_filter in Hl as [Hne _].
  intros Happ'. apply Hne. destruct l as [la li]. cbn in *. congruence.
Qed.

(** X21. With unique deployment ids, [removeApp] that resolves takes the
    deployments of the app, their packages and the visibility links of
    the app with it, and leaves the other apps, their deployments and
    the packages of those as they are. *)
Theorem removeApp_cascades (accountId appId : string) (p : Pool) :
  deploymentsWellFormed (database p) ->
  outcome (removeApp accountId appId) p = Resolved tt ->
  let db := database p in
  let db' := stored (removeApp accountId appId) p in
  (forall d, d ∈ deployments db -> Deployment.appId d = appId ->
             deploymentOf db' (Deployment.id d) = None /\
             packagesOf (Deployment.id d) db' = []) /\
  (forall d, d ∈ deployments db -> Deployment.appId d ≠ appId ->
             deploymentOf db' (Deployment.id d) = Some d /\
             packagesOf (Deployment.id d) db' = packagesOf (Deployment.id d) db) /\
  (forall l, l ∈ account_to_apps_map db' -> AppLink.appId l ≠ appId) /\
  (forall other, other ≠ appId -> appById db' other = appById db other).
Proof.
  intros [Hids _] Hres db db'. subst db db'. revert Hres.
  unfold outcome, stored. rewrite removeApp_run.
  destruct (recordedAccount _ _) as [owner|]; [|done].
  destruct (bool_decide _); [|done]. intros _. cbn [snd database].
  assert (Hsame : forall x d, x ∈ deployments (database p) -> d ∈ deployments (database p) ->
                              Deployment.id x = Deployment.id d -> x = d).
  { intros x d Hx Hd.
    exact (NoDup_fmap_elem_of_eq Deployment.id (deployments (database p)) x d Hids Hx Hd). }
  split; [|split; [|split]].
  - intros d Hd Happ. split.
    + unfold deploymentOf, deleteApp. cbn [deployments].
      apply head_filter_None. intros x [Hne Hx]%list_elem_of_filter Hid.
      apply Hne. by rewrite (Hsame x d).
    + unfold packagesOf, deleteApp. cbn [packages].
      apply filter_none. intros r [Hgone _]%list_elem_of_filter Hr.
      apply Hgone. rewrite Hr. apply list_elem_of_fmap_2, list_elem_of_filter. by split.
  - intros d Hd Happ. split.
    + unfold deploymentOf, deleteApp. cbn [deployments].
      rewrite (filter_filter_in (fun x => Deployment.id x = Deployment.id d)).
      * by rewrite (filter_unique Deployment.id _ d Hids Hd).
      * intros x Hx Hid. by rewrite (Hsame x d).
    + unfold packagesOf, deleteApp. cbn [packages].
      apply (filter_filter_in (fun r => PackageRow.deploymentId r = Deployment.id d)).
      intros r _ -> (x & Hid & [Hx Hin]%list_elem_of_filter)%list_elem_of_fmap.
      apply Happ. by rewrite <- (Hsame x d).
  - intros l. unfold deleteApp. cbn [account_to_apps_map].
    by intros [Hne _]%list_elem_of_filter.
  - intros other Hother. unfold appById, deleteApp. cbn [apps].
    apply f_equal, filter_filter_in. intros x _ ->. done.
Qed.

(** ** Blobs *)


Lemma getBlobUrl_run blobId st :
  outcomeS (getBlobUrl blobId) st =
  match head (filter (fun b => Blob.key b = blobId) (blobs st)) with
  | Some row =>
      if truthyString (Blob.url row) then Resolved (Blob.url row)
      else Rejected (PlainError "Blob not found")
  | None => Rejected (PlainError "Blob not found")
  end.
Proof.
  unfold outcomeS, getBlobUrl. rewrite bindS_run, command_run. cbn [fst snd].
  destruct (head _) as [row|]; [|done]. by destruct (truthyString _).
Qed.


(** X23. After [removeBlob] has resolved, [getBlobUrl] for that id is
    rejected with the plain error [Blob not found] and every other id
    gives what it gave before; [removeBlob] resolves for an id that was
    never recorded as well.  When the object store refuses the deletion
    the call is rejected and the row stays. *)
Theorem removeBlob_then_getBlobUrl (blobId : string) (st : Storage) :
  let st' := afterS (removeBlob None blobId) st in
  outcomeS (removeBlob None blobId) st = Resolved tt /\
  outcomeS (getBlobUrl blobId) st' = Rejected (PlainError "Blob not found") /\
  (forall other, other ≠ blobId ->
                 outcomeS (getBlobUrl other) st' = outcomeS (getBlobUrl other) st) /\
  forall message,
    outcomeS (removeBlob (Some message) blobId) st = Rejected (PlainError message) /\
    blobs (afterS (removeBlob (Some message) blobId) st) = blobs st.
Proof.
  intros st'.
  assert (Hblobs : blobs st' = filter (fun b => Blob.key b ≠ blobId) (blobs st)) by done.
  split; [done|]. split; [|split].
  - rewrite getBlobUrl_run, Hblobs, filter_without. by rewrite decide_True.
  - intros other Hother. rewrite !getBlobUrl_run, Hblobs, filter_without.
    by rewrite decide_False.
  - done.
Qed.

(** ** The scenarios *)

Lemma twoApps_deployments : deploymentsWellFormed (theDatabase twoApps).
Proof. split; apply (bool_decide_unpack _); vm_compute; exact I. Qed.

Lemma twoApps_packages : packagesWellFormed (theDatabase twoApps).
Proof. apply (bool_decide_unpack _). vm_compute. exact I. Qed.

Lemma twoApps_accessKeys : accessKeysWellFormed (theDatabase twoApps).
Proof. split; apply (bool_decide_unpack _); vm_compute; exact I. Qed.

Lemma twoApps_keyLinks : keyLinksWellFormed (theDatabase twoApps).
Proof.
  intros l Hl. cbn in Hl. apply list_elem_of_singleton in Hl as ->.
  cbn. apply list_elem_of_here.
Qed.


Lemma handedOver_consistent : Consistent (database handedOver).
Proof.
  apply (Consistent_performAllByOwner ownerTransfers emptyStore).
  - exact emptyStore_consistent.
  - vm_compute. reflexivity.
Qed.

Lemma addDeployment_then_getDeployment_witness :
  outcome (getDeployment "id-a" "app-1" "dep-3")
    (postgreSqlPool
       (afterS (addDeployment "dep-3" "id-a" "app-1" (Deployment.mk "" "Beta" "" "key-3"))
          twoApps))
  = Resolved (Deployment.mk "dep-3" "Beta" "app-1" "key-3").
Proof.
  apply (addDeployment_then_getDeployment "dep-3" "id-a" "app-1"
           (Deployment.mk "" "Beta" "" "key-3") twoApps "dep-3").
  vm_compute. reflexivity.
Defined.

Lemma addDeployment_key_taken_witness :
  outcomeS (addDeployment "dep-3" "id-a" "app-1" (Deployment.mk "" "Beta" "" "key-2")) twoApps
  = Rejected (UniqueViolation "deployments").
Proof.
  apply (addDeployment_key_taken "dep-3" "id-a" "app-1" (Deployment.mk "" "Beta" "" "key-2")
           twoApps alice sharedApp staging).
  - vm_compute. reflexivity.
  - vm_compute. reflexivity.
  - cbn. right. left.
  - reflexivity.
Defined.

Lemma deployments_stay_well_formed_witness :
  deploymentsWellFormed
    (storedS (updateDeployment "id-a" "app-1" (Deployment.mk "dep-1" "Live" "" "key-9"))
       twoApps).
Proof.
  destruct (deployments_stay_well_formed twoApps twoApps_deployments) as (_ & Hupdate & _).
  apply Hupdate.
Defined.

Lemma removeDeployment_other_app_witness :
  outcome (getDeployment "id-a" "app-1" "dep-2") (postgreSqlPool twoApps) = Resolved staging /\
  outcomeS (removeDeployment "id-a" "app-1" "dep-2") twoApps
  = Rejected (PlainError "Wrong appId") /\
  storedS (removeDeployment "id-a" "app-1" "dep-2") twoApps = theDatabase twoApps.
Proof.
  apply (removeDeployment_other_app "id-a" "app-1" "dep-2" twoApps alice sharedApp staging).
  - vm_compute. reflexivity.
  - vm_compute. reflexivity.
  - vm_compute. reflexivity.
  - discriminate.
Defined.

Lemma removeDeployment_removes_witness :
  packagesOf "dep-1" (storedS (removeDeployment "id-a" "app-1" "dep-1") twoApps) = [] /\
  packagesOf "dep-2" (storedS (removeDeployment "id-a" "app-1" "dep-1") twoApps)
  = [shipped "pkg-3" "dep-2" "v1" 150].
Proof.
  destruct (removeDeployment_removes "id-a" "app-1" "dep-1" twoApps) as (_ & Hgone & Hrest).
  - vm_compute. reflexivity.
  - split; [exact Hgone|]. destruct (Hrest "dep-2") as [_ Hsame]; [discriminate|].
    etrans; [exact Hsame|]. vm_compute. reflexivity.
Defined.

Lemma updateDeployment_rewrites_witness :
  deploymentOf
    (storedS (updateDeployment "id-a" "app-1" (Deployment.mk "dep-1" "Live" "app-2" "key-9"))
       twoApps) "dep-1"
  = Some (Deployment.mk "dep-1" "Live" "app-1" "key-9").
Proof.
  destruct (updateDeployment_rewrites "id-a" "app-1"
              (Deployment.mk "dep-1" "Live" "app-2" "key-9") twoApps)
    as ((d & Hd & Hnew) & _).
  - vm_compute. reflexivity.
  - etrans; [exact Hnew|]. vm_compute in Hd. by injection Hd as <-.
Defined.


Lemma getPackageHistoryFromDeploymentKey_agrees_witness :
  outcomeS (getPackageHistoryFromDeploymentKey "key-1") twoApps
  = outcomeS (getPackageHistory "id-a" "app-1" "dep-1") twoApps.
Proof.
  destruct (getPackageHistoryFromDeploymentKey_agrees "id-a" "app-1" production twoApps
              alice sharedApp) as [Hkey Hid].
  - apply twoApps_deployments.
  - vm_compute. reflexivity.
  - vm_compute. reflexivity.
  - cbn. left.
  - etrans; [exact Hkey|]. symmetry. exact Hid.
Defined.

Lemma commitPackage_other_deployments_witness :
  packagesOf "dep-2"
    (stored (commitPackage "pkg-9" "id-a" "app-1" "dep-1" (release None 300))
       (postgreSqlPool twoApps))
  = [shipped "pkg-3" "dep-2" "v1" 150].
Proof.
  destruct (commitPackage_other_deployments "pkg-9" "id-a" "app-1" "dep-1" (release None 300)
              (postgreSqlPool twoApps) twoApps_packages) as [_ Hother].
  etrans; [apply (Hother "dep-2"); discriminate|]. vm_compute. reflexivity.
Defined.

Lemma updatePackageHistory_write_back_witness :
  stored (updatePackageHistory "id-a" "app-1" "dep-1"
            [shipped "pkg-1" "dep-1" "v1" 100; shipped "pkg-2" "dep-1" "v2" 200])
    (postgreSqlPool twoApps)
  = theDatabase twoApps.
Proof.
  apply (updatePackageHistory_write_back "id-a" "app-1" "dep-1"
           [shipped "pkg-1" "dep-1" "v1" 100; shipped "pkg-2" "dep-1" "v2" 200] twoApps).
  - exact twoApps_packages.
  - vm_compute. reflexivity.
  - discriminate.
Defined.

Lemma addAccessKey_then_resolve_witness :
  outcome (getAccountIdFromAccessKey 1000 "token-2")
    (postgreSqlPool
       (afterS (addAccessKey "ak-2" "id-b" (AccessKey.mk "" "token-2" None 5000 "ci" None))
          twoApps))
  = Resolved "id-b".
Proof.
  destruct (addAccessKey_then_resolve "ak-2" "id-b"
              (AccessKey.mk "" "token-2" None 5000 "ci" None) twoApps "ak-2" 1000
              twoApps_keyLinks) as (_ & Hresolve & _).
  - vm_compute. reflexivity.
  - exact Hresolve.
Defined.

Lemma removeAccessKey_revokes_witness :
  outcome (getAccountIdFromAccessKey 1000 "token-1")
    (postgreSqlPool (afterS (removeAccessKey "id-a" "ak-1") twoApps))
  = Rejected (StorageError NotFound None).
Proof.
  destruct (removeAccessKey_revokes "id-a" "ak-1" twoApps twoApps_accessKeys)
    as (a & Ha & Hid & Hgone).
  - vm_compute. reflexivity.
  - cbn in Ha. apply list_elem_of_singleton in Ha as ->. apply (Hgone 1000%Z).
Defined.

Lemma access_key_of_another_account_witness :
  outcomeS (getAccessKey "id-b" "ak-1") twoApps = Rejected (StorageError NotFound None) /\
  outcomeS (removeAccessKey "id-b" "ak-1") twoApps = Rejected (StorageError NotFound None).
Proof.
  destruct (access_key_of_another_account "id-a" "id-b" "ak-1"
              (AccessKey.mk "ak-1" "token-9" None 9000 "laptop" None) twoApps
              (StoredAccessKey.mk (AccessKeyRow.mk "ak-1" "token-1" (Some 2000%Z))
                 (Some (AccessKeyDetails.mk "ak-1" "a@x.com" None "laptop" false)) "id-a"))
    as (Hget & (Hremove & _) & _).
  - vm_compute. reflexivity.
  - discriminate.
  - reflexivity.
  - by split.
Defined.

Lemma updateAccessKey_keeps_validity_witness :
  outcome (getAccountIdFromAccessKey 3000 "token-9")
    (postgreSqlPool
       (afterS (updateAccessKey "id-a" (AccessKey.mk "ak-1" "token-9" None 9000 "laptop" None))
          twoApps))
  = Rejected (StorageError Expired (Some "The access key has expired.")).
Proof.
  destruct (updateAccessKey_keeps_validity "id-a"
              (AccessKey.mk "ak-1" "token-9" None 9000 "laptop" None) twoApps
              twoApps_accessKeys) as (_ & a & Ha & _ & Hsame).
  - vm_compute. reflexivity.
  - cbn in Ha. apply list_elem_of_singleton in Ha as ->.
    etrans; [exact (Hsame 3000%Z)|]. vm_compute. reflexivity.
Defined.


Lemma addAccount_then_lookup_witness :
  outcome (getAccountByEmail "d@x.com")
    (after (addAccount "id-d" (Account.mk "" "D" "D@X.com" "gh-d")) (postgreSqlPool twoApps))
  = Resolved (Account.mk "id-d" "D" "d@x.com" "gh-d").
Proof.
  destruct (addAccount_then_lookup "id-d" (Account.mk "" "D" "D@X.com" "gh-d")
              (postgreSqlPool twoApps) "id-d") as (_ & _ & Hmail & _).
  - vm_compute. reflexivity.
  - exact Hmail.
Defined.

Lemma getCollaborators_marks_requester_witness :
  exists m,
    outcome (getCollaborators "id-c" "app-1") sharedStore = Resolved m /\
    forall e c, m !! e = Some c -> isCurrentAccount c = None.
Proof.
  destruct (getCollaborators_marks_requester "id-c" "app-1" sharedStore carol sharedApp
              sharedStore_unannotated) as (m & Hm & Hperm & Hacc & Hflag).
  - vm_compute. reflexivity.
  - vm_compute. reflexivity.
  - exists m. split; [done|]. intros e c Hc. rewrite (Hflag e c Hc).
    rewrite bool_decide_eq_false_2; [done|]. intros Hid.
    pose proof (Hacc e) as He. rewrite Hc in He. cbn in He.
    unfold sharedCollaborators in He.
    destruct (decide (e = "a@x.com")) as [->|Ha].
    + rewrite lookup_insert_eq in He. cbn in He. injection He as He. congruence.
    + rewrite lookup_insert_ne in He by done.
      destruct (decide (e = "b@x.com")) as [->|Hb].
      * rewrite lookup_singleton_eq in He. cbn in He. injection He as He. congruence.
      * by rewrite lookup_singleton_ne in He.
Defined.

Lemma addCollaborator_then_getCollaborators_witness :
  exists m c,
    outcome (getCollaborators "id-a" "app-1")
      (after (addCollaborator "id-a" "app-1" "C@x.com") sharedStore) = Resolved m /\
    m !! "c@x.com" = Some c /\ permission c = Collaborator.
Proof.
  destruct (addCollaborator_then_getCollaborators "id-a" "app-1" "C@x.com" sharedStore)
    as (app & target & m & c & _ & Ht & Hm & Hc & Hperm & _).
  - vm_compute. reflexivity.
  - exists m, c. split; [done|]. split; [|done].
    vm_compute in Ht. injection Ht as <-. exact Hc.
Defined.

Lemma getApps_lists_memberships_witness :
  exists rows,
    outcomeS (getApps "id-a") (around handedOver) = Resolved rows /\
    addIsCurrentAccountProperty handedApp "id-a" ∈ rows.
Proof.
  apply (getApps_lists_memberships "id-a" (around handedOver) handedApp).
  - exact handedOver_consistent.
  - vm_compute. left.
  - vm_compute. reflexivity.
Defined.

Lemma addApp_then_getApp_witness :
  outcome (getApp "id-c" "app-3")
    (after (addApp "app-3" "id-c" (App.mk "" "new" ∅)) (postgreSqlPool twoApps))
  = Resolved (App.mk "app-3" "new" {[ "c@x.com" := mkCollaborator "id-c" Owner (Some true) ]}).
Proof.
  destruct (addApp_then_getApp "app-3" "id-c" (App.mk "" "new" ∅) (postgreSqlPool twoApps)
              (App.mk "app-3" "new" {[ "c@x.com" := mkCollaborator "id-c" Owner None ]}))
    as (account & Ha & _ & Hget & _).
  - vm_compute. reflexivity.
  - etrans; [exact Hget|]. vm_compute in Ha. by injection Ha as <-.
Defined.

Lemma removeApp_cascades_witness :
  deploymentOf (stored (removeApp "id-a" "app-1") (postgreSqlPool twoApps)) "dep-1" = None /\
  packagesOf "dep-1" (stored (removeApp "id-a" "app-1") (postgreSqlPool twoApps)) = [] /\
  deploymentOf (stored (removeApp "id-a" "app-1") (postgreSqlPool twoApps)) "dep-2"
  = Some staging.
Proof.
  destruct (removeApp_cascades "id-a" "app-1" (postgreSqlPool twoApps) twoApps_deployments)
    as (Hgone & Hkept & _).
  - vm_compute. reflexivity.
  - destruct (Hgone production) as [Hd Hp]; [cbn; left|reflexivity|].
    destruct (Hkept staging) as [Hs _]; [cbn; right; left|discriminate|].
    split; [exact Hd|]. split; [exact Hp|exact Hs].
Defined.


Lemma transferApp_then_roles_witness :
  exists app',
    appById (stored (transferApp "id-a" "app-1" "B@x.com") sharedStore) "app-1" = Some app' /\
    isOwner (App.collaborators app') "b@x.com" = true /\
    isCollaborator (App.collaborators app') "a@x.com" = true.
Proof.
  destruct (transferApp_then_roles "id-a" "app-1" "B@x.com" sharedStore)
    as (account & target & app' & Ha & Ht & Happ & Howner & Hcol).
  - vm_compute. reflexivity.
  - vm_compute in Ha, Ht. injection Ha as <-. injection Ht as <-.
    exists app'. split; [exact Happ|]. split; [exact Howner|]. apply Hcol. discriminate.
Defined.

Lemma addCollaborator_then_getApps_witness :
  exists rows,
    outcomeS (getApps "id-c")
      (around (after (addCollaborator "id-a" "app-1" "C@x.com") sharedStore))
    = Resolved rows /\
    exists row, row ∈ rows /\ App.id row = "app-1".
Proof.
  destruct (addCollaborator_then_getApps "id-a" "app-1" "C@x.com" sharedStore
              (around (after (addCollaborator "id-a" "app-1" "C@x.com") sharedStore)))
    as (target & rows & Ht & Hrows & Hrow).
  - vm_compute. reflexivity.
  - reflexivity.
  - vm_compute in Ht. injection Ht as <-. by exists rows.
Defined.

Lemma removeCollaborator_then_getApps_witness :
  exists rows,
    outcomeS (getApps "id-b")
      (around (after (removeCollaborator "id-a" "app-1" "b@x.com") sharedStore))
    = Resolved rows /\
    forall row, row ∈ rows -> App.id row ≠ "app-1".
Proof.
  destruct (removeCollaborator_then_getApps "id-a" "app-1" "b@x.com" sharedStore
              (around (after (removeCollaborator "id-a" "app-1" "b@x.com") sharedStore)))
    as (target & rows & Ht & Hrows & Hrow).
  - vm_compute. reflexivity.
  - reflexivity.
  - vm_compute in Ht. injection Ht as <-. by exists rows.
Defined.
